(** * Workshop skin downloader and manifest patcher: a shallow embedding

    The development follows two translation units of the repository:

    - [downloader2_2.cpp], the concurrent download orchestrator (module
      [Downloader]): the log classifier [parseSteamCmdLog], the filesystem
      helpers [folderHasFiles] and [moveSkinToShared], the worker
      [workerInstance], the input parser [parseIds], the partitioner
      [partition] with [runPass], and the retry loop of [main];
    - the manifest patcher (module [AcfPatcher]): [trimStr],
      [firstQuotedToken], [isAllDigits], [parseAcf], the entry builders and
      the splice and write-back steps of its [main].

    C++ [int] counters are integers in [Z]; [std::string] is [string];
    [std::unordered_map<std::string, T>] is [gmap string T];
    [std::vector<T>] is [list T].  Calls that leave the program (the
    filesystem, the external tool, the clock) are answered by explicit
    environment records, so every function below is executable. *)

From Stdlib Require Import ZArith Ascii String List Bool Lia.
From stdpp Require Import base option list sorting gmap strings pretty.

Local Open Scope string_scope.
Local Open Scope Z_scope.

(** ** Characters and strings shared by both programs *)

Module Str.

Definition LF : ascii := ascii_of_nat 10.
Definition CR : ascii := ascii_of_nat 13.
Definition TAB : ascii := ascii_of_nat 9.
Definition QUOTE : ascii := ascii_of_nat 34.

(** [::isdigit] and the regex class [\d] in the "C" locale. *)
Definition is_digit (c : ascii) : bool :=
  let n := nat_of_ascii c in (48 <=? n)%nat && (n <=? 57)%nat.

(** [::tolower] on single-byte characters. *)
Definition to_lower (c : ascii) : ascii :=
  let n := nat_of_ascii c in
  if (65 <=? n)%nat && (n <=? 90)%nat then ascii_of_nat (n + 32) else c.

(** The characters the regex wildcard [.] refuses. *)
Definition is_line_terminator (c : ascii) : bool :=
  Ascii.eqb c LF || Ascii.eqb c CR.

(** A matcher anchored at the head of the subject: the capture (if any)
    and the text left after the match. *)
Definition matcher (A : Type) : Type := string -> option (A * string).

(** A literal, case-sensitively. *)
Fixpoint lit (p s : string) : option string :=
  match p with
  | EmptyString => Some s
  | String a p' =>
      match s with
      | String b s' => if Ascii.eqb a b then lit p' s' else None
      | EmptyString => None
      end
  end.

(** A literal under [std::regex::icase]. *)
Fixpoint lit_i (p s : string) : option string :=
  match p with
  | EmptyString => Some s
  | String a p' =>
      match s with
      | String b s' =>
          if Ascii.eqb (to_lower a) (to_lower b) then lit_i p' s' else None
      | EmptyString => None
      end
  end.

(** The longest prefix whose characters satisfy [f], and the rest. *)
Fixpoint span (f : ascii -> bool) (s : string) : string * string :=
  match s with
  | String c s' =>
      if f c then let '(d, r) := span f s' in (String c d, r)
      else (EmptyString, s)
  | EmptyString => (EmptyString, EmptyString)
  end.

(** A greedy one-or-more class, where what follows in the pattern cannot
    start with a character of the class (so that the longest run is the
    only one the backtracking matcher can accept). *)
Definition plus (f : ascii -> bool) : matcher string :=
  fun s =>
    let '(d, r) := span f s in
    match d with
    | EmptyString => None
    | _ => Some (d, r)
    end.

(** [\d+] *)
Definition digits1 : matcher string := plus is_digit.

(** [std::regex_search]: the leftmost position at which the anchored
    matcher succeeds. *)
Fixpoint search {A} (m : string -> option A) (s : string) : option A :=
  match m s with
  | Some r => Some r
  | None =>
      match s with
      | String _ s' => search m s'
      | EmptyString => None
      end
  end.

(** A lazy [.*?] followed by [m]: the nearest position at which [m]
    succeeds, reached over characters the wildcard accepts. *)
Fixpoint search_dot {A} (m : string -> option A) (s : string) : option A :=
  match m s with
  | Some r => Some r
  | None =>
      match s with
      | String c s' =>
          if is_line_terminator c then None else search_dot m s'
      | EmptyString => None
      end
  end.

(** [s.find(p) != std::string::npos] *)
Definition contains (p s : string) : bool :=
  bool_decide (is_Some (search (lit p) s)).

(** [std::all_of(s.begin(), s.end(), ::isdigit)] *)
Fixpoint all_digits (s : string) : bool :=
  match s with
  | String c s' => is_digit c && all_digits s'
  | EmptyString => true
  end.

(** [std::getline] over a whole text: the text cut at line feeds; a final
    line feed does not open an empty last line. *)
Fixpoint getlines (s : string) : list string :=
  match s with
  | EmptyString => []
  | String c s' =>
      if Ascii.eqb c LF then EmptyString :: getlines s'
      else
        match getlines s' with
        | [] => [String c EmptyString]
        | l :: ls => String c l :: ls
        end
  end.

End Str.

(** ** The download orchestrator ([downloader2_2.cpp]) *)

Module Downloader.
Import Str.

(** *** Configuration *)

Definition APP_ID : string := "252490".
Definition SHARED_DIR : string := "rust_workshop".
Definition CONTENT_PATH : string :=
  SHARED_DIR +:+ "/steamapps/workshop/content/" +:+ APP_ID.
Definition INSTANCES_ROOT : string := "instances".
Definition INST_DIR_PREFIX : string := INSTANCES_ROOT +:+ "/rust_workshop_t".
Definition LOG_DIR : string := "logs".
Definition TEMP_DIR : string := "temp_scripts".

Definition BASE_TIMEOUT_SEC : Z := 90.
Definition MAX_RETRY_PASSES : Z := 3.
Definition RATELIMIT_BACKOFF_SEC : Z := 30.

(** *** Result categories *)

Inductive SkinResult : Type :=
| Success
| Skipped
| Timeout
| RateLimit
| LockFailed
| ValidationFailed
| Error
| Unknown.

#[export] Instance SkinResult_eq_dec : EqDecision SkinResult.
Proof. solve_decision. Defined.

Definition resultName (r : SkinResult) : string :=
  match r with
  | Success => "Success"
  | Skipped => "Skipped"
  | Timeout => "Timeout"
  | RateLimit => "RateLimit"
  | LockFailed => "LockFailed"
  | ValidationFailed => "ValidationFailed"
  | Error => "Error"
  | Unknown => "Unknown"
  end.

(** *** Filesystem helpers *)

(** What the orchestrator can observe of a directory entry: a regular
    file with its size, or a directory with its entries. *)
#[local] Set Warnings "-register-all".
Inductive node : Type :=
| File (size : Z)
| Dir (entries : list (string * node)).

(** The store maps the path of each directory the orchestrator addresses
    (an item directory, a staging directory) to the tree found there; a
    path with no binding does not exist.  Item directories are named by
    identifiers, which are runs of digits and so single path components:
    distinct keys are distinct directories, none inside another. *)
Abbreviation FS := (gmap string node).

(** [fs::path::operator/] for a left operand without root name: a right
    operand with a root directory replaces the left one, any other is
    appended behind a separator. *)
Definition path_join (a b : string) : string :=
  match b with
  | String "/" _ => b
  | _ => a +:+ "/" +:+ b
  end.

Definition is_nonempty_file (e : string * node) : bool :=
  match snd e with
  | File size => 0 <? size
  | Dir _ => false
  end.

(** [folderHasFiles]: an existing directory with a direct child that is a
    regular file of non-zero size. *)
Definition folderHasFiles (fs : FS) (p : string) : bool :=
  match fs !! p with
  | Some (Dir entries) => existsb is_nonempty_file entries
  | _ => false
  end.

(** A regular file of any size at [p] or anywhere below it. *)
Fixpoint holds_regular_file (n : node) : bool :=
  match n with
  | File _ => true
  | Dir es =>
      (fix go (es : list (string * node)) : bool :=
         match es with
         | [] => false
         | e :: es' => holds_regular_file (snd e) || go es'
         end) es
  end.
Definition has_regular_files (fs : FS) (p : string) : bool :=
  match fs !! p with
  | Some n => holds_regular_file n
  | None => false
  end.

Fixpoint assoc_lookup (nm : string) (es : list (string * node)) : option node :=
  match es with
  | [] => None
  | (nm', n) :: es' => if decide (nm = nm') then Some n else assoc_lookup nm es'
  end.

Fixpoint assoc_set (nm : string) (n : node) (es : list (string * node))
    : list (string * node) :=
  match es with
  | [] => [(nm, n)]
  | (nm', n') :: es' =>
      if decide (nm = nm') then (nm, n) :: es'
      else (nm', n') :: assoc_set nm n es'
  end.

(** [fs::copy(from, to, recursive | overwrite_existing)] when it returns,
    for a source [s] whose file name is [nm]: the tree at [to] afterwards.
    A regular file that meets a directory is copied into that directory
    under its own name ([copy_file(from, to / from.filename())]), which the
    library refuses when a directory of that name stands there; a file
    that meets a file replaces it; a directory that meets nothing is
    copied whole, one that meets a directory is merged into it entry by
    entry, and one that meets a regular file is an error.  [None] is an
    error the library reports. *)
Fixpoint copy_node (nm : string) (s : node) (d : option node) : option node :=
  match s with
  | File size =>
      match d with
      | Some (Dir ds) =>
          match assoc_lookup nm ds with
          | Some (Dir _) => None
          | _ => Some (Dir (assoc_set nm (File size) ds))
          end
      | _ => Some (File size)
      end
  | Dir es =>
      match d with
      | Some (File _) => None
      | None => Some (Dir es)
      | Some (Dir ds) =>
          Dir <$>
          (fix go (es ds : list (string * node)) {struct es}
             : option (list (string * node)) :=
             match es with
             | [] => Some ds
             | (nm', c) :: es' =>
                 match copy_node nm' c (assoc_lookup nm' ds) with
                 | Some c' => go es' (assoc_set nm' c' ds)
                 | None => None
                 end
             end) es ds
      end
  end.

(** The answers of the filesystem to the calls of one [moveSkinToShared]:
    whether the first [try] block throws ([fs::create_directories] or
    [fs::rename], nothing having moved), whether [fs::copy] and
    [fs::remove_all] throw for a reason of their own, and what a throwing
    call leaves behind at the path it was working on (a copy in which a
    directory meets a regular file throws as well). *)
Record move_env : Type := {
  rename_throws : bool;
  copy_throws : bool;
  copy_left : option node;
  remove_throws : bool;
  remove_left : option node
}.

(** [rename(2)] replaces nothing but an empty directory. *)
Definition rename_target_free (d : option node) : bool :=
  match d with
  | None | Some (Dir []) => true
  | _ => false
  end.

Definition src_path (instanceDir skinId : string) : string :=
  path_join (path_join (path_join (path_join (path_join
    instanceDir "steamapps") "workshop") "content") APP_ID) skinId.

Definition dst_path (skinId : string) : string :=
  path_join CONTENT_PATH skinId.

(** [moveSkinToShared]: the value returned and the store afterwards.
    [fs::create_directories(dst.parent_path())] can create the content
    directory and its ancestors only; these are not item or staging
    directories, and the store holds no binding for them. *)
Definition moveSkinToShared (e : move_env) (instanceDir skinId : string)
    (fs : FS) : bool * FS :=
  let src := src_path instanceDir skinId in
  let dst := dst_path skinId in
  if folderHasFiles fs dst then (true, fs)
  else if negb (folderHasFiles fs src) then (false, fs)
  else
    match fs !! src with
    | None => (false, fs)
    | Some tree =>
        if negb (rename_throws e) && rename_target_free (fs !! dst) then
          let fs1 := <[dst := tree]> (delete src fs) in
          (folderHasFiles fs1 dst, fs1)
        else
          match (if copy_throws e then None
                 else copy_node skinId tree (fs !! dst)) with
          | None => (false, partial_alter (fun _ => copy_left e) dst fs)
          | Some tree' =>
              let fs1 := <[dst := tree']> fs in
              if remove_throws e then
                (false, partial_alter (fun _ => remove_left e) src fs1)
              else
                let fs2 := delete src fs1 in
                (folderHasFiles fs2 dst, fs2)
          end
    end.

(** What a throwing [fs::remove_all] leaves in a staging directory;
    [None] when the directory is emptied without an exception. *)
Definition clean_env : Type := string -> option (list (string * node)).

Definition stagingSubdirs : list string :=
  [ "/steamapps/workshop/downloads";
    "/steamapps/workshop/temp";
    "/steamapps/downloading" ].

(** [cleanStagingFolder]: every child of each staging directory is
    removed; an exception ends the work on that directory only. *)
Definition cleanStagingFolder (e : clean_env) (instanceDir : string) (fs : FS)
    : FS :=
  fold_left
    (fun fs sub =>
       let p := path_join instanceDir sub in
       match fs !! p with
       | Some (Dir _) => <[p := Dir (default [] (e p))]> fs
       | _ => fs
       end)
    stagingSubdirs fs.

(** *** The log classifier *)

Module ParsedLog.
Record t : Type := mk {
  perItem : gmap string SkinResult;
  globalRateLimit : bool;
  globalTimeout : bool;
  globalLockFailed : bool;
  globalValidationFail : bool;
  successCount : Z;
  failureCount : Z
}.

(** The value-initialised [ParsedLog result;]. *)
Definition init : t := mk ∅ false false false false 0 0.

Definition set_perItem (f : gmap string SkinResult -> gmap string SkinResult)
    (r : t) : t :=
  mk (f (perItem r)) (globalRateLimit r) (globalTimeout r)
     (globalLockFailed r) (globalValidationFail r)
     (successCount r) (failureCount r).
Definition set_globalRateLimit (r : t) : t :=
  mk (perItem r) true (globalTimeout r) (globalLockFailed r)
     (globalValidationFail r) (successCount r) (failureCount r).
Definition set_globalTimeout (r : t) : t :=
  mk (perItem r) (globalRateLimit r) true (globalLockFailed r)
     (globalValidationFail r) (successCount r) (failureCount r).
Definition set_globalLockFailed (r : t) : t :=
  mk (perItem r) (globalRateLimit r) (globalTimeout r) true
     (globalValidationFail r) (successCount r) (failureCount r).
Definition set_globalValidationFail (r : t) : t :=
  mk (perItem r) (globalRateLimit r) (globalTimeout r)
     (globalLockFailed r) true (successCount r) (failureCount r).
Definition incr_successCount (r : t) : t :=
  mk (perItem r) (globalRateLimit r) (globalTimeout r)
     (globalLockFailed r) (globalValidationFail r)
     (successCount r + 1) (failureCount r).
Definition incr_failureCount (r : t) : t :=
  mk (perItem r) (globalRateLimit r) (globalTimeout r)
     (globalLockFailed r) (globalValidationFail r)
     (successCount r) (failureCount r + 1).
End ParsedLog.

(** [if (result.perItem.count(id)) result.perItem[id] = sr;] *)
Definition assign_if_present (id : string) (sr : SkinResult)
    (m : gmap string SkinResult) : gmap string SkinResult :=
  match m !! id with
  | Some _ => <[id := sr]> m
  | None => m
  end.

(** The [lastId] rule of the two identifier-less branches: the entry of
    [lastId] is replaced by [sr] when [lastId] is set, present and still
    [Error] or [Unknown]. *)
Definition upgrade_last (lastId : string) (sr : SkinResult)
    (m : gmap string SkinResult) : gmap string SkinResult :=
  match lastId with
  | EmptyString => m
  | _ =>
      match m !! lastId with
      | Some Error | Some Unknown => <[lastId := sr]> m
      | _ => m
      end
  end.

(** [\[AppID \d+\] Download item (\d+) result : (.+)] *)
Definition reResult_at (s : string) : option (string * string) :=
  r1 ← lit "[AppID " s;
  '(_, r2) ← digits1 r1;
  r3 ← lit "] Download item " r2;
  '(id, r4) ← digits1 r3;
  r5 ← lit " result : " r4;
  '(reason, _) ← plus (fun c => negb (is_line_terminator c)) r5;
  Some (id, reason).
Definition reResult : string -> option (string * string) := search reResult_at.

(** [Success\. Downloaded item (\d+)] *)
Definition reSuccess_at (s : string) : option string :=
  r1 ← lit "Success. Downloaded item " s;
  '(id, _) ← digits1 r1;
  Some id.
Definition reSuccess : string -> option string := search reSuccess_at.

(** [ERROR! Download item (\d+) failed \(([^)]+)\)] *)
Definition reError_at (s : string) : option (string * string) :=
  r1 ← lit "ERROR! Download item " s;
  '(id, r2) ← digits1 r1;
  r3 ← lit " failed (" r2;
  '(reason, r4) ← plus (fun c => negb (Ascii.eqb c ")")) r3;
  _ ← lit ")" r4;
  Some (id, reason).
Definition reError : string -> option (string * string) := search reError_at.

(** [Timeout downloading item (\d+)] *)
Definition reTimeout_at (s : string) : option string :=
  r1 ← lit "Timeout downloading item " s;
  '(id, _) ← digits1 r1;
  Some id.
Definition reTimeout : string -> option string := search reTimeout_at.

(** [Staged file validation failed.*?item (\d+)], [icase] *)
Definition reValidation_at (s : string) : option string :=
  r1 ← lit_i "Staged file validation failed" s;
  search_dot (fun r => r2 ← lit_i "item " r; '(id, _) ← digits1 r2; Some id) r1.
Definition reValidation : string -> option string := search reValidation_at.

(** [Failed to write patch state file \(File locked\)], [icase] *)
Definition rePatchLock (s : string) : bool :=
  bool_decide (is_Some
    (search (lit_i "Failed to write patch state file (File locked)") s)).

(** [rate.?limit|too many requests|throttled], [icase] *)
Definition reRateLimit_at (s : string) : option unit :=
  match
    r1 ← lit_i "rate" s;
    match r1 with
    | String c r2 =>
        if is_line_terminator c then lit_i "limit" r1
        else match lit_i "limit" r2 with
             | Some r => Some r
             | None => lit_i "limit" r1
             end
    | EmptyString => None
    end
  with
  | Some _ => Some tt
  | None =>
      match lit_i "too many requests" s with
      | Some _ => Some tt
      | None => _ ← lit_i "throttled" s; Some tt
      end
  end.
Definition reRateLimit (s : string) : bool :=
  bool_decide (is_Some (search reRateLimit_at s)).

(** The classification of the reason of a [result :] line. *)
Definition classify_result_reason (reason : string) (result : ParsedLog.t)
    : SkinResult * ParsedLog.t :=
  if bool_decide (reason = "OK") || contains "Success" reason then
    (Success, ParsedLog.incr_successCount result)
  else if contains "Locking Failed" reason || contains "locked" reason then
    (LockFailed,
     ParsedLog.incr_failureCount (ParsedLog.set_globalLockFailed result))
  else if contains "Timeout" reason then
    (Timeout,
     ParsedLog.incr_failureCount (ParsedLog.set_globalTimeout result))
  else if contains "rate" reason || contains "Rate" reason then
    (RateLimit,
     ParsedLog.incr_failureCount (ParsedLog.set_globalRateLimit result))
  else
    (Error, ParsedLog.incr_failureCount result).

(** The classification of the reason of an [ERROR!] line. *)
Definition classify_error_reason (reason : string) (result : ParsedLog.t)
    : SkinResult * ParsedLog.t :=
  if contains "Timeout" reason then
    (Timeout, ParsedLog.set_globalTimeout result)
  else if contains "rate" reason || contains "Rate" reason then
    (RateLimit, ParsedLog.set_globalRateLimit result)
  else
    (Error, result).

(** One iteration of the [while (std::getline(file, line))] loop: the
    state is [result] and [lastId]; every branch but the last ends in
    [continue]. *)
Definition parse_line (st : ParsedLog.t * string) (line : string)
    : ParsedLog.t * string :=
  let '(result, lastId) := st in
  match reResult line with
  | Some (id, reason) =>
      let '(sr, result) := classify_result_reason reason result in
      (ParsedLog.set_perItem (assign_if_present id sr) result, id)
  | None =>
  match reValidation line with
  | Some id =>
      (ParsedLog.set_globalValidationFail
         (ParsedLog.set_perItem (assign_if_present id ValidationFailed) result),
       lastId)
  | None =>
  if contains "Staged file validation failed" line
     || contains "Missing update files" line then
    (ParsedLog.set_perItem (upgrade_last lastId ValidationFailed)
       (ParsedLog.set_globalValidationFail result),
     lastId)
  else if rePatchLock line then
    (ParsedLog.set_perItem (upgrade_last lastId LockFailed)
       (ParsedLog.set_globalLockFailed result),
     lastId)
  else
  match reSuccess line with
  | Some id =>
      (match ParsedLog.perItem result !! id with
       | Some _ =>
           ParsedLog.incr_successCount
             (ParsedLog.set_perItem (insert id Success) result)
       | None => result
       end,
       id)
  | None =>
  match reError line with
  | Some (id, reason) =>
      let '(sr, result) := classify_error_reason reason result in
      (ParsedLog.incr_failureCount
         (ParsedLog.set_perItem (assign_if_present id sr) result),
       id)
  | None =>
  match reTimeout line with
  | Some id =>
      (ParsedLog.incr_failureCount
         (ParsedLog.set_globalTimeout
            (ParsedLog.set_perItem (assign_if_present id Timeout) result)),
       id)
  | None =>
      if reRateLimit line then (ParsedLog.set_globalRateLimit result, lastId)
      else (result, lastId)
  end end end end end.

(** [for (const auto& id : chunk) result.perItem[id] = SkinResult::Unknown;] *)
Definition init_perItem (chunk : list string) : gmap string SkinResult :=
  fold_left (fun m id => <[id := Unknown]> m) chunk ∅.

(** [parseSteamCmdLog]: [log] is the text of the file at [logPath], or
    [None] when the file cannot be opened. *)
Definition parseSteamCmdLog (log : option string) (chunk : list string)
    : ParsedLog.t :=
  match log with
  | None => ParsedLog.init
  | Some text =>
      let result := ParsedLog.set_perItem (fun _ => init_perItem chunk)
                      ParsedLog.init in
      fst (fold_left parse_line (getlines text) (result, EmptyString))
  end.

(** *** The input parser *)

(** The pattern ["(\d{6,12})"] anchored at the head of [s]: an opening
    quote, six to twelve digits, a closing quote.  The digits are followed
    by a quote, so the greedy bounded repeat can only succeed on the whole
    run of digits; the result is the capture and [m.suffix()]. *)
Definition idRe_at (s : string) : option (string * string) :=
  r1 ← lit (String QUOTE EmptyString) s;
  let '(d, r2) := span is_digit r1 in
  if (6 <=? String.length d)%nat && (String.length d <=? 12)%nat then
    r3 ← lit (String QUOTE EmptyString) r2; Some (d, r3)
  else None.

(** The strings the group [(\d{6,12})] captures. *)
Definition is_identifier (s : string) : bool :=
  (6 <=? String.length s)%nat && (String.length s <=? 12)%nat
  && all_digits s.

(** [while (std::regex_search(s, m, idRe)) { push m[1]; s = m.suffix(); }]
    with the number of iterations bounded by [fuel]. *)
Fixpoint scan_fuel (fuel : nat) (s : string) : list string :=
  match fuel with
  | O => []
  | S fuel' =>
      match search idRe_at s with
      | Some (d, rest) => d :: scan_fuel fuel' rest
      | None => []
      end
  end.

(** Every match consumes at least eight characters, so [length s]
    iterations are never exhausted (lemma [scan_fuel_enough]). *)
Definition scan_line (s : string) : list string :=
  scan_fuel (S (String.length s)) s.

(** [result.erase(std::remove_if(.., !seen.insert(id).second), ..)]:
    an identifier is kept the first time it is seen. *)
Fixpoint dedup_first (seen : gset string) (l : list string) : list string :=
  match l with
  | [] => []
  | id :: l' =>
      if decide (id ∈ seen) then dedup_first seen l'
      else id :: dedup_first ({[id]} ∪ seen) l'
  end.

(** [parseIds]: [file] is the text of [jsonFile], or [None] when the
    stream does not open (no line is then read). *)
Definition parseIds (file : option string) : list string :=
  match file with
  | None => []
  | Some text => dedup_first ∅ (concat (map scan_line (getlines text)))
  end.

(** *** The partitioner and the pass scheduler *)

(** The inner loop
    [for (j = 0; j < sz && idx < ids.size(); ++j) chunk.push_back(ids[idx++])]:
    the chunk built and the new [idx]. *)
Fixpoint fill_chunk (sz : nat) (ids : list string) (idx : nat)
    (chunk : list string) : list string * nat :=
  match sz with
  | O => (chunk, idx)
  | S sz' =>
      match ids !! idx with
      | Some id => fill_chunk sz' ids (S idx) (chunk ++ [id])
      | None => (chunk, idx)
      end
  end.

(** The outer loop over [i] from [i] up to [n], [todo] iterations left. *)
Fixpoint partition_loop (todo : nat) (i : Z) (ids : list string)
    (base rem : Z) (idx : nat) : list (list string) :=
  match todo with
  | O => []
  | S todo' =>
      let sz := base + (if i <? rem then 1 else 0) in
      let '(chunk, idx') := fill_chunk (Z.to_nat sz) ids idx [] in
      chunk :: partition_loop todo' (i + 1) ids base rem idx'
  end.

(** [partition], for [n >= 1] as [runPass] calls it: [int] division and
    remainder truncate ([Z.quot], [Z.rem]); [(int)ids.size()] is the
    length, which fits an [int]. *)
Definition partition (ids : list string) (n : Z) : list (list string) :=
  let size := Z.of_nat (length ids) in
  let base := Z.quot size n in
  let rem := Z.rem size n in
  partition_loop (Z.to_nat n) 0 ids base rem 0.

(** The chunks [runPass] hands to its workers; none for an empty working
    set. *)
Definition runPass_chunks (toDownload : list string) (instances : Z)
    : list (list string) :=
  match toDownload with
  | [] => []
  | _ =>
      let n := Z.min instances (Z.of_nat (length toDownload)) in
      partition toDownload n
  end.

(** *** Shared state *)

(** The globals of the program ([skinResults], the atomic counters, the
    rate-limit flag) together with the filesystem. *)
Record World : Type := mkWorld {
  fs : FS;
  skinResults : gmap string SkinResult;
  successCount : Z;
  failedCount : Z;
  skippedCount : Z;
  timeoutCount : Z;
  errorCount : Z;
  ratelimitCount : Z;
  lockFailCount : Z;
  validationFailCount : Z;
  totalProcessed : Z;
  anyRateLimitDetected : bool
}.

Definition set_fs (f : FS -> FS) (w : World) : World :=
  mkWorld (f (fs w)) (skinResults w) (successCount w) (failedCount w)
    (skippedCount w) (timeoutCount w) (errorCount w) (ratelimitCount w)
    (lockFailCount w) (validationFailCount w) (totalProcessed w)
    (anyRateLimitDetected w).

Definition set_anyRateLimitDetected (b : bool) (w : World) : World :=
  mkWorld (fs w) (skinResults w) (successCount w) (failedCount w)
    (skippedCount w) (timeoutCount w) (errorCount w) (ratelimitCount w)
    (lockFailCount w) (validationFailCount w) (totalProcessed w) b.

(** *** The worker *)

(** What the outside answers during one [workerInstance]: whether the
    script file opens, what the external tool (and whatever else runs
    during the wait) does to the filesystem, whether the hard timeout
    fires first, the text of the log file afterwards ([None] when it
    cannot be opened), and the filesystem's answers to the staging
    clean-ups and to the move of the [k]-th identifier of the chunk. *)
Record worker_env : Type := {
  script_opens : bool;
  tool_run : FS -> FS;
  timed_out : bool;
  log_text : option string;
  clean_before : clean_env;
  clean_after : clean_env;
  moves : nat -> move_env
}.

(** The [switch (sr)] of the reconcile loop with the two statements that
    follow it: the counter of the outcome, [totalProcessed] and the entry
    of [skinResults]; the [default] branch stores [Error]. *)
Definition record_result (id : string) (sr : SkinResult) (w : World) : World :=
  let bump (s f t e r l v : Z) (sr' : SkinResult) :=
    mkWorld (fs w) (<[id := sr']> (skinResults w))
      (successCount w + s) (failedCount w + f) (skippedCount w)
      (timeoutCount w + t) (errorCount w + e) (ratelimitCount w + r)
      (lockFailCount w + l) (validationFailCount w + v)
      (totalProcessed w + 1) (anyRateLimitDetected w) in
  match sr with
  | Success => bump 1 0 0 0 0 0 0 Success
  | Timeout => bump 0 1 1 0 0 0 0 Timeout
  | RateLimit => bump 0 1 0 0 1 0 0 RateLimit
  | LockFailed => bump 0 1 0 0 0 1 0 LockFailed
  | ValidationFailed => bump 0 1 0 0 0 0 1 ValidationFailed
  | _ => bump 0 1 0 1 0 0 0 Error
  end.

(** The outcome of one identifier after the move, before the [switch]. *)
Definition reconciled (classified : SkinResult) (moved inShared timedOut : bool)
    : SkinResult :=
  let sr :=
    if moved || inShared then Success
    else if decide (classified = Success) then ValidationFailed
    else classified in
  if timedOut && negb (bool_decide (sr = Success)) then Timeout else sr.

(** One iteration of the reconcile loop. *)
Definition reconcile_item (e : move_env) (timedOut : bool)
    (parsed : ParsedLog.t) (instanceDir : string) (id : string) (w : World)
    : World :=
  let sr := default Unknown (ParsedLog.perItem parsed !! id) in
  let '(moved, fs1) := moveSkinToShared e instanceDir id (fs w) in
  let inShared := folderHasFiles fs1 (dst_path id) in
  record_result id (reconciled sr moved inShared timedOut)
    (set_fs (fun _ => fs1) w).

(** The reconcile loop over the chunk; [k] is the position of the head of
    [chunk] in the whole chunk. *)
Fixpoint reconcile (e : nat -> move_env) (timedOut : bool)
    (parsed : ParsedLog.t) (instanceDir : string) (k : nat)
    (chunk : list string) (w : World) : World :=
  match chunk with
  | [] => w
  | id :: chunk' =>
      reconcile e timedOut parsed instanceDir (S k) chunk'
        (reconcile_item (e k) timedOut parsed instanceDir id w)
  end.

(** The [return] statement by which [workerInstance] leaves. *)
Inductive worker_exit : Type :=
| EmptyChunk      (* [if (chunk.empty()) return;] *)
| ScriptError     (* [if (!sc.is_open()) { ...; return; }] *)
| Reconciled.     (* the end of the function *)

Definition instance_dir (threadId : Z) : string :=
  INST_DIR_PREFIX +:+ pretty threadId.

(** [workerInstance].  Directories, the script and the log are files
    outside the store; of them only the answers in [e] matter here. *)
Definition workerInstance (e : worker_env) (chunk : list string)
    (threadId total pass : Z) (w : World) : worker_exit * World :=
  match chunk with
  | [] => (EmptyChunk, w)
  | _ =>
      let instanceDir := instance_dir threadId in
      let w := set_fs (cleanStagingFolder (clean_before e) instanceDir) w in
      if negb (script_opens e) then (ScriptError, w)
      else
        let w := set_fs (tool_run e) w in
        let timedOut := timed_out e in
        let parsed := parseSteamCmdLog (log_text e) chunk in
        let w :=
          if ParsedLog.globalRateLimit parsed
          then set_anyRateLimitDetected true w else w in
        let w := reconcile (moves e) timedOut parsed instanceDir 0 chunk w in
        (Reconciled, set_fs (cleanStagingFolder (clean_after e) instanceDir) w)
  end.

(** *** One pass *)

(** [fs::path::extension] of a file name: from its last dot on, unless
    that dot is the first character or the name is [.] or [..]. *)
Fixpoint from_last_dot (s : string) : option string :=
  match s with
  | EmptyString => None
  | String c s' =>
      match from_last_dot s' with
      | Some r => Some r
      | None => if Ascii.eqb c "." then Some s else None
      end
  end.

Definition extension (name : string) : string :=
  match name with
  | EmptyString => EmptyString
  | String _ rest =>
      if bool_decide (name = "..") then EmptyString
      else default EmptyString (from_last_dot rest)
  end.

(** [cleanSharedPatchFiles]: the [.patch] and [.lock] children of the
    shared downloads directory are removed; [fs::remove] refuses a
    directory that is not empty and the exception is swallowed. *)
Definition cleanSharedPatchFiles (fs : FS) : FS :=
  let downloadsDir :=
    path_join (path_join (path_join SHARED_DIR "steamapps") "workshop")
      "downloads" in
  match fs !! downloadsDir with
  | Some (Dir entries) =>
      <[downloadsDir :=
          Dir (List.filter
                 (fun e : string * node =>
                    negb ((bool_decide (extension (fst e) = ".patch")
                           || bool_decide (extension (fst e) = ".lock"))
                          && match snd e with
                             | Dir (_ :: _) => false
                             | _ => true
                             end))
                 entries)]> fs
  | _ => fs
  end.

(** The workers of a pass, here one after the other in the order of their
    thread number; worker [i] is answered by [env i]. *)
Fixpoint run_workers (env : Z -> worker_env) (i : Z)
    (chunks : list (list string)) (total pass : Z) (w : World) : World :=
  match chunks with
  | [] => w
  | chunk :: chunks' =>
      run_workers env (i + 1) chunks' total pass
        (snd (workerInstance (env i) chunk i total pass w))
  end.

(** [runPass] *)
Definition runPass (env : Z -> worker_env) (toDownload : list string)
    (instances pass grandTotal : Z) (w : World) : World :=
  match toDownload with
  | [] => w
  | _ =>
      let chunks := runPass_chunks toDownload instances in
      let w := set_fs cleanSharedPatchFiles w in
      run_workers env 0 chunks grandTotal pass w
  end.

(** *** The retry controller *)

(** [collectFailed] *)
Definition collectFailed (ids : list string) (w : World) : list string :=
  List.filter
    (fun id =>
       match skinResults w !! id with
       | Some r =>
           negb (bool_decide (r = Success)) && negb (bool_decide (r = Skipped))
       | None => false
       end)
    ids.

(** One iteration of the loop of [resetCountersForRetry]. *)
Definition reset_one (w : World) (id : string) : World :=
  match skinResults w !! id with
  | None => w
  | Some r =>
      let dec (t e rl l v : Z) :=
        mkWorld (fs w) (<[id := Unknown]> (skinResults w))
          (successCount w) (failedCount w - 1) (skippedCount w)
          (timeoutCount w - t) (errorCount w - e) (ratelimitCount w - rl)
          (lockFailCount w - l) (validationFailCount w - v)
          (totalProcessed w - 1) (anyRateLimitDetected w) in
      match r with
      | Timeout => dec 1 0 0 0 0
      | RateLimit => dec 0 0 1 0 0
      | LockFailed => dec 0 0 0 1 0
      | ValidationFailed => dec 0 0 0 0 1
      | _ => dec 0 1 0 0 0
      end
  end.

(** [resetCountersForRetry] *)
Definition resetCountersForRetry (ids : list string) (w : World) : World :=
  fold_left reset_one ids w.

(** A call of [runPass] as [main] makes it. *)
Record pass_call : Type := {
  pc_toDownload : list string;
  pc_instances : Z;
  pc_pass : Z
}.

(** What the outside answers during the passes of [main]: the workers of
    each pass and the staging clean-ups before each retry. *)
Record main_env : Type := {
  workers : Z -> Z -> worker_env;        (* pass, thread *)
  retry_clean : Z -> Z -> clean_env      (* retry, instance *)
}.

(** [for (int i = 0; i < maxInstances; ++i) cleanStagingFolder(..)] *)
Fixpoint clean_all_instances (e : Z -> clean_env) (todo : nat) (i : Z)
    (fs : FS) : FS :=
  match todo with
  | O => fs
  | S todo' =>
      clean_all_instances e todo' (i + 1)
        (cleanStagingFolder (e i) (instance_dir i) fs)
  end.

(** The retry loop of [main], [todo] iterations left: the calls of
    [runPass] it makes, in order, and the state at its end. *)
Fixpoint retry_loop (e : main_env) (todo : nat) (retry : Z)
    (toProcess : list string) (maxInstances grandTotal : Z) (w : World)
    : list pass_call * World :=
  match todo with
  | O => ([], w)
  | S todo' =>
      let failed := collectFailed toProcess w in
      match failed with
      | [] => ([], w)
      | _ =>
          let w :=
            set_fs (fun fs =>
                      cleanSharedPatchFiles
                        (clean_all_instances (retry_clean e retry)
                           (Z.to_nat maxInstances) 0 fs)) w in
          let w :=
            if anyRateLimitDetected w
            then set_anyRateLimitDetected false w else w in
          let w := resetCountersForRetry failed w in
          let retryInst := Z.max 1 (Z.quot maxInstances 2) in
          let w := runPass (workers e (retry + 1)) failed retryInst
                     (retry + 1) grandTotal w in
          let '(calls, w') :=
            retry_loop e todo' (retry + 1) toProcess maxInstances
              grandTotal w in
          ({| pc_toDownload := failed; pc_instances := retryInst;
              pc_pass := retry + 1 |} :: calls, w')
      end
  end.

(** [main] from the check of the work list to the end of the retry loop,
    for the number [maxInstances] read from the user:
    [if (maxInstances < 1) maxInstances = 1;] comes first, and with nothing
    to download [main] returns before any pass. *)
Definition main_passes (e : main_env) (toProcess : list string)
    (maxInstances : Z) (w : World) : list pass_call * World :=
  let maxInstances := if maxInstances <? 1 then 1 else maxInstances in
  let grandTotal := Z.of_nat (length toProcess) in
  match toProcess with
  | [] => ([], w)
  | _ =>
      let w := runPass (workers e 1) toProcess maxInstances 1 grandTotal w in
      let '(calls, w') :=
        retry_loop e (Z.to_nat MAX_RETRY_PASSES) 1 toProcess maxInstances
          grandTotal w in
      ({| pc_toDownload := toProcess; pc_instances := maxInstances;
          pc_pass := 1 |} :: calls, w')
  end.

(** *** The work list and the report *)

Definition FAILED_IDS_FILE : string := "failed_ids.txt".
Definition REPORT_FILE : string := "download_report.txt".

(** [c == 'y' || c == 'Y'] *)
Definition is_yes (c : ascii) : bool := Ascii.eqb c "y" || Ascii.eqb c "Y".

(** The set [prevFailed] of [main]: the non-empty lines of the file of
    failed identifiers; [file] is its text, [None] when it does not exist. *)
Definition read_prevFailed (file : option string) : gset string :=
  match file with
  | None => ∅
  | Some text =>
      list_to_set
        (List.filter (fun ln => negb (bool_decide (ln = EmptyString)))
           (getlines text))
  end.

(** [onlyPrevFailed]: the question is asked only when the file exists, and
    [prevFailedCh] is ['n'] before it. *)
Definition onlyPrevFailed (file : option string) (answer : ascii) : bool :=
  let prevFailedCh :=
    match file with
    | Some _ => answer
    | None => "n"%char
    end in
  negb (bool_decide (read_prevFailed file = ∅)) && is_yes prevFailedCh.

(** [skinResults[id] = SkinResult::Skipped; skippedCount++;] *)
Definition mark_skipped (id : string) (w : World) : World :=
  mkWorld (fs w) (<[id := Skipped]> (skinResults w))
    (successCount w) (failedCount w) (skippedCount w + 1)
    (timeoutCount w) (errorCount w) (ratelimitCount w)
    (lockFailCount w) (validationFailCount w)
    (totalProcessed w) (anyRateLimitDetected w).

(** One iteration of the loop of [main] that builds [toProcess]. *)
Definition work_list_step (onlyPrevFailed : bool) (prevFailed : gset string)
    (skipExisting : bool) (st : list string * World) (id : string)
    : list string * World :=
  let '(toProcess, w) := st in
  if onlyPrevFailed && negb (bool_decide (id ∈ prevFailed)) then
    (toProcess, mark_skipped id w)
  else if skipExisting && folderHasFiles (fs w) (dst_path id) then
    (toProcess, mark_skipped id w)
  else ((toProcess ++ [id])%list, w).

(** The work list [toProcess] of [main] and the state after the loop. *)
Definition build_work_list (allIds : list string) (onlyPrevFailed : bool)
    (prevFailed : gset string) (skipExisting : bool) (w : World)
    : list string * World :=
  fold_left (work_list_step onlyPrevFailed prevFailed skipExisting) allIds
    ([], w).

(** One iteration of the loop of [writeReport]: what is appended to the
    report and to the file of failed identifiers. *)
Definition report_item (w : World) (out : string * string) (id : string)
    : string * string :=
  match skinResults w !! id with
  | None => out
  | Some r =>
      if negb (bool_decide (r = Success)) && negb (bool_decide (r = Skipped))
      then
        (fst out +:+ id +:+ "  [" +:+ resultName r +:+ "]"
                 +:+ String LF EmptyString,
         snd out +:+ id +:+ String LF EmptyString)
      else out
  end.

(** What [writeReport] writes before its loop; [now] is the value of
    [timestamp()]. *)
Definition report_header (now : string) (allIds : list string) (w : World)
    : string :=
  let nl := String LF EmptyString in
  "=== Workshop Skin Download Report ===" +:+ nl
  +:+ "Date:                " +:+ now +:+ nl +:+ nl
  +:+ "Total IDs:           " +:+ pretty (Z.of_nat (length allIds)) +:+ nl
  +:+ "Skipped:             " +:+ pretty (skippedCount w) +:+ nl
  +:+ "Success:             " +:+ pretty (successCount w) +:+ nl
  +:+ "Failed (total):      " +:+ pretty (failedCount w) +:+ nl
  +:+ "  Timeouts:          " +:+ pretty (timeoutCount w) +:+ nl
  +:+ "  Errors:            " +:+ pretty (errorCount w) +:+ nl
  +:+ "  RateLimit:         " +:+ pretty (ratelimitCount w) +:+ nl
  +:+ "  LockFailed:        " +:+ pretty (lockFailCount w) +:+ nl
  +:+ "  ValidationFailed:  " +:+ pretty (validationFailCount w) +:+ nl +:+ nl
  +:+ "--- Failed skin IDs ---" +:+ nl.

(** [writeReport] when both streams open: the text of the report and the
    text of the file of failed identifiers. *)
Definition writeReport (now : string) (allIds : list string) (w : World)
    : string * string :=
  fold_left (report_item w) allIds (report_header now allIds w, EmptyString).

End Downloader.

(** ** The manifest patcher *)

Module AcfPatcher.
Import Str.

Definition APP_ID : string := "252490".

(** *** String helpers *)

(** The set [" \t\r\n"] of [trimStr]. *)
Definition is_space (c : ascii) : bool :=
  Ascii.eqb c " " || Ascii.eqb c TAB || Ascii.eqb c CR || Ascii.eqb c LF.

Fixpoint trim_left (s : string) : string :=
  match s with
  | String c s' => if is_space c then trim_left s' else s
  | EmptyString => EmptyString
  end.

Fixpoint trim_right (s : string) : string :=
  match s with
  | String c s' =>
      match trim_right s' with
      | EmptyString => if is_space c then EmptyString else String c EmptyString
      | t => String c t
      end
  | EmptyString => EmptyString
  end.

(** [trimStr]: from the first to the last character outside the set. *)
Definition trimStr (s : string) : string := trim_right (trim_left s).

(** The text after the first double quote of [s], if there is one. *)
Fixpoint after_quote (s : string) : option string :=
  match s with
  | String c s' => if Ascii.eqb c QUOTE then Some s' else after_quote s'
  | EmptyString => None
  end.

(** The text before the first double quote of [s], if there is one. *)
Fixpoint before_quote (s : string) : option string :=
  match s with
  | String c s' =>
      if Ascii.eqb c QUOTE then Some EmptyString
      else String c <$> before_quote s'
  | EmptyString => None
  end.

(** [firstQuotedToken]: what stands between the first two double quotes,
    the empty string when there are fewer than two. *)
Definition firstQuotedToken (line : string) : string :=
  match after_quote line with
  | None => EmptyString
  | Some rest => default EmptyString (before_quote rest)
  end.

(** [isAllDigits] *)
Definition isAllDigits (s : string) : bool :=
  negb (bool_decide (s = EmptyString)) && all_digits s.

(** *** The parser *)

Module Sec.
Inductive t : Type := None | Installed | Details | Other.
End Sec.

Record AcfInfo : Type := mkAcfInfo {
  installedIds : gset string;
  detailsIds : gset string;
  installedCloseLineIdx : Z;
  detailsCloseLineIdx : Z
}.

(** The state of the loop of [parseAcf]: [info], [cur] and [depth]. *)
Record parse_state : Type := mkParse {
  info : AcfInfo;
  cur : Sec.t;
  depth : Z
}.

Definition parse_init : parse_state :=
  mkParse (mkAcfInfo ∅ ∅ (-1) (-1)) Sec.None 0.

(** The body of the loop for line [i]. *)
Definition parse_step (i : Z) (line : string) (st : parse_state) : parse_state :=
  let t := trimStr line in
  let inf := info st in
  if bool_decide (t = "{") then mkParse inf (cur st) (depth st + 1)
  else if bool_decide (t = "}") then
    let '(inf, cur') :=
      if depth st =? 2 then
        (match cur st with
         | Sec.Installed =>
             mkAcfInfo (installedIds inf) (detailsIds inf) i
               (detailsCloseLineIdx inf)
         | Sec.Details =>
             mkAcfInfo (installedIds inf) (detailsIds inf)
               (installedCloseLineIdx inf) i
         | _ => inf
         end, Sec.None)
      else (inf, cur st) in
    mkParse inf cur' (if 0 <? depth st then depth st - 1 else depth st)
  else
    match t with
    | String c _ =>
        if negb (Ascii.eqb c QUOTE) then st
        else
          let key := firstQuotedToken t in
          if bool_decide (key = EmptyString) then st
          else if depth st =? 1 then
            mkParse inf
              (if bool_decide (key = "WorkshopItemsInstalled") then Sec.Installed
               else if bool_decide (key = "WorkshopItemDetails") then Sec.Details
               else Sec.Other)
              (depth st)
          else if depth st =? 2 then
            if isAllDigits key then
              match cur st with
              | Sec.Installed =>
                  mkParse
                    (mkAcfInfo ({[key]} ∪ installedIds inf) (detailsIds inf)
                       (installedCloseLineIdx inf) (detailsCloseLineIdx inf))
                    (cur st) (depth st)
              | Sec.Details =>
                  mkParse
                    (mkAcfInfo (installedIds inf) ({[key]} ∪ detailsIds inf)
                       (installedCloseLineIdx inf) (detailsCloseLineIdx inf))
                    (cur st) (depth st)
              | _ => st
              end
            else st
          else st
    | EmptyString => st
    end.

Fixpoint parse_loop (i : Z) (lines : list string) (st : parse_state)
    : parse_state :=
  match lines with
  | [] => st
  | line :: lines' => parse_loop (i + 1) lines' (parse_step i line st)
  end.

(** [parseAcf] *)
Definition parseAcf (lines : list string) : AcfInfo :=
  info (parse_loop 0 lines parse_init).

(** *** The content folder *)

(** A regular file with its size and its modification time, or a
    directory with its entries.  The time is the [time_t] that
    [folderNewestMtime] obtains for the file: the last write time carried
    over to the system clock through the two clock readings of the
    conversion and cut to whole seconds. *)
#[local] Set Warnings "-register-all".
Inductive node : Type :=
| File (size mtime : Z)
| Dir (entries : list (string * node)).

Record SkinInfo : Type := mkSkinInfo {
  id : string;
  size : Z;
  timeupdated : Z;
  timetouched : Z
}.

(** [folderSize]: the sizes of all regular files below, summed. *)
Fixpoint node_size (n : node) : Z :=
  match n with
  | File sz _ => sz
  | Dir es =>
      (fix go (es : list (string * node)) : Z :=
         match es with
         | [] => 0
         | e :: es' => node_size (snd e) + go es'
         end) es
  end.
Definition folderSize (n : node) : Z :=
  match n with
  | File _ _ => 0
  | Dir _ => node_size n
  end.

(** [folderNewestMtime]: the newest modification time of the regular
    files below, starting from 0. *)
Fixpoint node_newest (n : node) (newest : Z) : Z :=
  match n with
  | File _ t => if newest <? t then t else newest
  | Dir es =>
      (fix go (es : list (string * node)) (newest : Z) : Z :=
         match es with
         | [] => newest
         | e :: es' => go es' (node_newest (snd e) newest)
         end) es newest
  end.
Definition folderNewestMtime (n : node) : Z :=
  match n with
  | File _ _ => 0
  | Dir _ => node_newest n 0
  end.

(** [folderHasFiles] *)
Definition folderHasFiles (n : node) : bool :=
  match n with
  | Dir es =>
      existsb (fun e : string * node =>
                 match snd e with
                 | File sz _ => 0 <? sz
                 | Dir _ => false
                 end) es
  | File _ _ => false
  end.

(** What the outside answers during one run of the patcher: the entries
    of the content folder ([None] when iterating it throws), the value
    of [readManifestDate] for each item directory (0 when there is no
    usable [manifest.txt]), the clock, the answers of the user, and
    whether the backup and the opening of the manifest for writing
    succeed. *)
Record patch_env : Type := {
  content_entries : option (list (string * node));
  readManifestDate : string -> Z;
  now : Z;
  confirm_patch : bool;
  backup_ok : bool;
  confirm_without_backup : bool;
  write_opens : bool
}.

(** [readSkinInfo] *)
Definition readSkinInfo (e : patch_env) (name : string) (dir : node) : SkinInfo :=
  let mdate := readManifestDate e name in
  mkSkinInfo name (folderSize dir) (if 0 <? mdate then mdate else folderNewestMtime dir)
    (now e).

Definition is_dir (n : node) : bool :=
  match n with
  | Dir _ => true
  | File _ _ => false
  end.

(** The order of [std::sort] over the entries: by file name. *)
Definition name_le (a b : string * node) : Prop :=
  String.leb (fst a) (fst b) = true.
#[export] Instance name_le_dec a b : Decision (name_le a b).
Proof. unfold name_le. apply _. Defined.

(** The body of the scan loop for one sorted entry: the entry joins
    [toAdd] unless its name is not numeric, it holds no file, or it is
    listed in both sections already. *)
Definition scan_entry (e : patch_env) (acf : AcfInfo)
    (toAdd : list SkinInfo) (entry : string * node) : list SkinInfo :=
  let name := fst entry in
  if negb (isAllDigits name) then toAdd
  else if negb (folderHasFiles (snd entry)) then toAdd
  else
    let inInstalled := bool_decide (name ∈ installedIds acf) in
    let inDetails := bool_decide (name ∈ detailsIds acf) in
    if inInstalled && inDetails then toAdd
    else toAdd ++ [readSkinInfo e name (snd entry)].

(** The scan of the content folder: [toAdd]. *)
Definition scan_content (e : patch_env) (acf : AcfInfo)
    (entries : list (string * node)) : list SkinInfo :=
  let dirs := List.filter (fun en => is_dir (snd en)) entries in
  fold_left (scan_entry e acf) (merge_sort name_le dirs) [].

(** *** Entries *)

Definition tab2 : string := String TAB (String TAB EmptyString).
Definition tab3 : string := String TAB tab2.
Definition quoted (s : string) : string :=
  String QUOTE s +:+ String QUOTE EmptyString.
Definition nl : string := String LF EmptyString.

(** [buildInstalledEntry] *)
Definition buildInstalledEntry (s : SkinInfo) : string :=
  tab2 +:+ quoted (id s) +:+ nl
  +:+ tab2 +:+ "{" +:+ nl
  +:+ tab3 +:+ quoted "size" +:+ tab2 +:+ quoted (pretty (size s)) +:+ nl
  +:+ tab3 +:+ quoted "timeupdated" +:+ tab2 +:+ quoted (pretty (timeupdated s)) +:+ nl
  +:+ tab3 +:+ quoted "manifest" +:+ tab2 +:+ quoted "0" +:+ nl
  +:+ tab2 +:+ "}" +:+ nl.

(** [buildDetailsEntry] *)
Definition buildDetailsEntry (s : SkinInfo) : string :=
  tab2 +:+ quoted (id s) +:+ nl
  +:+ tab2 +:+ "{" +:+ nl
  +:+ tab3 +:+ quoted "manifest" +:+ tab2 +:+ quoted "0" +:+ nl
  +:+ tab3 +:+ quoted "timeupdated" +:+ tab2 +:+ quoted (pretty (timeupdated s)) +:+ nl
  +:+ tab3 +:+ quoted "timetouched" +:+ tab2 +:+ quoted (pretty (timetouched s)) +:+ nl
  +:+ tab3 +:+ quoted "latest_timeupdated" +:+ tab2 +:+ quoted (pretty (timeupdated s)) +:+ nl
  +:+ tab3 +:+ quoted "latest_manifest" +:+ tab2 +:+ quoted "0" +:+ nl
  +:+ tab2 +:+ "}" +:+ nl.

(** *** Reading, splicing and writing *)

(** [if (!ln.empty() && ln.back() == '\r') ln.pop_back();] *)
Fixpoint strip_cr (ln : string) : string :=
  match ln with
  | EmptyString => EmptyString
  | String c EmptyString => if Ascii.eqb c CR then EmptyString else ln
  | String c ln' => String c (strip_cr ln')
  end.

(** The manifest read into [lines]; [splitLines] is the same function. *)
Definition read_lines (text : string) : list string :=
  map strip_cr (getlines text).
Definition splitLines (block : string) : list string := read_lines block.

(** [for (auto& ln : lines) out << ln << "\n";] *)
Definition write_lines (lines : list string) : string :=
  fold_right (fun ln out => ln +:+ nl +:+ out) EmptyString lines.

(** The two insertion strings. *)
Definition installedInsert (acf : AcfInfo) (toAdd : list SkinInfo) : string :=
  fold_left
    (fun acc si =>
       if bool_decide (id si ∈ installedIds acf) then acc
       else acc +:+ buildInstalledEntry si)
    toAdd EmptyString.
Definition detailsInsert (acf : AcfInfo) (toAdd : list SkinInfo) : string :=
  fold_left
    (fun acc si =>
       if bool_decide (id si ∈ detailsIds acf) then acc
       else acc +:+ buildDetailsEntry si)
    toAdd EmptyString.

(** [lines.insert(lines.begin() + idx, new.begin(), new.end())] for an
    index within the vector. *)
Definition insert_at (idx : Z) (new lines : list string) : list string :=
  take (Z.to_nat idx) lines ++ new ++ drop (Z.to_nat idx) lines.

(** The splice of [main]: the branch on [detIdx > instIdx] and, in each
    branch, the two guarded insertions in the order of the source. *)
Definition splice (acf : AcfInfo) (toAdd : list SkinInfo)
    (lines : list string) : list string :=
  let installedInsert := installedInsert acf toAdd in
  let detailsInsert := detailsInsert acf toAdd in
  let instIdx := installedCloseLineIdx acf in
  let detIdx := detailsCloseLineIdx acf in
  if instIdx <? detIdx then
    let lines :=
      if bool_decide (detailsInsert = EmptyString) then lines
      else insert_at detIdx (splitLines detailsInsert) lines in
    if bool_decide (installedInsert = EmptyString) then lines
    else insert_at instIdx (splitLines installedInsert) lines
  else
    let '(lines, detIdx) :=
      if bool_decide (installedInsert = EmptyString) then (lines, detIdx)
      else
        let iLines := splitLines installedInsert in
        (insert_at instIdx iLines lines, detIdx + Z.of_nat (length iLines)) in
    if bool_decide (detailsInsert = EmptyString) then lines
    else insert_at detIdx (splitLines detailsInsert) lines.

(** The [return] statement by which [main] leaves, from the reading of
    the manifest on. *)
Inductive patch_exit : Type :=
| SectionsNotFound   (* a closing index is missing: [return 1] *)
| ScanError          (* the scan of the content folder threw: [return 1] *)
| UpToDate           (* [toAdd.empty()]: nothing to write, [return 0] *)
| AbortedByUser      (* the user declined the patch: [return 0] *)
| AbortedNoBackup    (* backup failed and the user declined: [return 1] *)
| WriteOpenFailed    (* the manifest could not be opened for writing *)
| Patched.           (* the patched manifest was written *)

(** [main] from the reading of the manifest on: the exit taken and the
    text of the manifest file afterwards. *)
Definition patch_main (e : patch_env) (acf_text : string)
    : patch_exit * string :=
  let lines := read_lines acf_text in
  let acf := parseAcf lines in
  if (installedCloseLineIdx acf <? 0) || (detailsCloseLineIdx acf <? 0) then
    (SectionsNotFound, acf_text)
  else
    match content_entries e with
    | None => (ScanError, acf_text)
    | Some entries =>
        let toAdd := scan_content e acf entries in
        match toAdd with
        | [] => (UpToDate, acf_text)
        | _ =>
            if negb (confirm_patch e) then (AbortedByUser, acf_text)
            else if negb (backup_ok e) && negb (confirm_without_backup e) then
              (AbortedNoBackup, acf_text)
            else if negb (write_opens e) then (WriteOpenFailed, acf_text)
            else (Patched, write_lines (splice acf toAdd lines))
        end
    end.

End AcfPatcher.

(** ** Definitions used to state the properties *)

Module Statements.
Import Str Downloader.

(** The log of the third classifier scenario. *)
Definition scenario3_log : string :=
  "[AppID 252490] Download item 999 result : Failure"
  +:+ String LF "Staged file validation failed (13 missing files)".

(** What the [switch] of the reconcile loop stores for an outcome: the
    outcome itself, [Error] for the outcomes of its [default] branch. *)
Definition stored (sr : SkinResult) : SkinResult :=
  match sr with
  | Skipped | Error | Unknown => Error
  | _ => sr
  end.

(** A filesystem that never throws. *)
Definition calm_move : move_env :=
  {| rename_throws := false; copy_throws := false; copy_left := None;
     remove_throws := false; remove_left := None |}.

Definition calm_clean : clean_env := fun _ => None.

(** A run of the external tool that downloads nothing and leaves no log. *)
Definition idle_worker : worker_env :=
  {| script_opens := true; tool_run := fun fs => fs; timed_out := false;
     log_text := None; clean_before := calm_clean; clean_after := calm_clean;
     moves := fun _ => calm_move |}.

Definition idle_main : main_env :=
  {| workers := fun _ _ => idle_worker; retry_clean := fun _ _ => calm_clean |}.

(** A run of the external tool that downloads one item into the instance
    directory of thread 0 and reports it. *)
Definition one_item_worker : worker_env :=
  {| script_opens := true;
     tool_run :=
       insert (src_path (instance_dir 0) "490217825")
         (Dir [("skin.json", File 1)]);
     timed_out := false;
     log_text := Some "Success. Downloaded item 490217825";
     clean_before := calm_clean; clean_after := calm_clean;
     moves := fun _ => calm_move |}.

(** The state at the start of a run: nothing on disk, nothing recorded. *)
Definition fresh_world : World := mkWorld ∅ ∅ 0 0 0 0 0 0 0 0 0 false.

Definition eight_ids : list string :=
  ["100001"; "100002"; "100003"; "100004";
   "100005"; "100006"; "100007"; "100008"].

(** The head of a string does not satisfy [f]. *)
Definition stops (f : ascii -> bool) (s : string) : Prop :=
  match s with
  | String c _ => f c = false
  | EmptyString => True
  end.

Fixpoint all_chars (f : ascii -> bool) (s : string) : bool :=
  match s with
  | String c s' => f c && all_chars f s'
  | EmptyString => true
  end.

(** A double quote as a string. *)
Definition Q : string := String QUOTE EmptyString.

(** [id] is a run of six to twelve digits that stands in [line] between two
    double quotes, after [pre] and before [post].  The quotes bound the run
    on both sides, so it is a maximal run of digits. *)
Definition quoted_run_at (line pre id post : string) : Prop :=
  line = pre +:+ Q +:+ id +:+ Q +:+ post /\ is_identifier id = true.

(** The quoted runs of a line taken from left to right without overlap: the
    leftmost quoted run of the line, then the runs of what follows its
    closing quote. *)
Inductive quoted_runs : string -> list string -> Prop :=
| quoted_runs_none line :
    (forall pre id post, ¬ quoted_run_at line pre id post) ->
    quoted_runs line []
| quoted_runs_next line pre id post ids :
    quoted_run_at line pre id post ->
    (forall pre' id' post',
       quoted_run_at line pre' id' post' ->
       (String.length pre <= String.length pre')%nat) ->
    quoted_runs post ids ->
    quoted_runs line (id :: ids).

(** The opening quote of the run after [pre] is not the closing quote of
    another quoted run. *)
Definition opens_afresh (pre : string) : Prop :=
  forall pre0 id0, pre = pre0 +:+ Q +:+ id0 -> is_identifier id0 = false.

(** The last character of a string. *)
Fixpoint last_char (s : string) : option ascii :=
  match s with
  | EmptyString => None
  | String c EmptyString => Some c
  | String _ s' => last_char s'
  end.

(** The position at which [x] first stands in [l]. *)
Fixpoint first_index (x : string) (l : list string) : option nat :=
  match l with
  | [] => None
  | y :: l' => if decide (x = y) then Some O else S <$> first_index x l'
  end.

(** Two quoted runs that share a quote. *)
Definition shared_quote_text : string :=
  Q +:+ "123456" +:+ Q +:+ "654321" +:+ Q.

(** The global flag of an outcome the classifier can give is raised; the
    classifier never gives [Skipped]. *)
Definition category_flagged (sr : SkinResult) (r : ParsedLog.t) : Prop :=
  match sr with
  | RateLimit => ParsedLog.globalRateLimit r = true
  | Timeout => ParsedLog.globalTimeout r = true
  | LockFailed => ParsedLog.globalLockFailed r = true
  | ValidationFailed => ParsedLog.globalValidationFail r = true
  | Skipped => False
  | _ => True
  end.

(** No flag raised in [r] is lowered in [r']. *)
Definition flags_le (r r' : ParsedLog.t) : Prop :=
  (ParsedLog.globalRateLimit r = true -> ParsedLog.globalRateLimit r' = true)
  /\ (ParsedLog.globalTimeout r = true -> ParsedLog.globalTimeout r' = true)
  /\ (ParsedLog.globalLockFailed r = true
      -> ParsedLog.globalLockFailed r' = true)
  /\ (ParsedLog.globalValidationFail r = true
      -> ParsedLog.globalValidationFail r' = true).

(** The outcome a worker records for an identifier, from what the
    classifier gave it ([None] when it has no entry), whether its
    destination has files and whether the hard timeout fired. *)
Definition outcome (classified : option SkinResult) (hasFiles timedOut : bool)
    : SkinResult :=
  if hasFiles then Success
  else if timedOut then Timeout
  else
    match classified with
    | Some Success => ValidationFailed
    | Some Timeout => Timeout
    | Some RateLimit => RateLimit
    | Some LockFailed => LockFailed
    | Some ValidationFailed => ValidationFailed
    | _ => Error
    end.

(** The counters add up: the failures are the sum of their categories and
    the processed items are the successes and the failures. *)
Definition tally_consistent (w : World) : Prop :=
  failedCount w
  = timeoutCount w + errorCount w + ratelimitCount w + lockFailCount w
    + validationFailCount w
  /\ totalProcessed w = successCount w + failedCount w.


End Statements.

Module PatcherStatements.
Import Str AcfPatcher Statements.

(** The splice as the strategy comment of [main] describes it: the
    installed entries [iL] stand immediately before line [i] of the input,
    the details entries [dL] immediately before line [d], and every input
    line follows unchanged; [k] is the index of the head of [lines]. *)
Fixpoint insert_before (k i d : nat) (iL dL lines : list string) : list string :=
  match lines with
  | [] => []
  | line :: lines' =>
      (if decide (k = i) then iL else [])
      ++ (if decide (k = d) then dL else [])
      ++ line :: insert_before (S k) i d iL dL lines'
  end.

Definition expected_splice (acf : AcfInfo) (toAdd : list SkinInfo)
    (lines : list string) : list string :=
  insert_before 0
    (Z.to_nat (installedCloseLineIdx acf)) (Z.to_nat (detailsCloseLineIdx acf))
    (splitLines (installedInsert acf toAdd))
    (splitLines (detailsInsert acf toAdd)) lines.

Definition tab1 : string := String TAB EmptyString.

(** A manifest with the installed section first, listing item 111 in both
    sections. *)
Definition manifest_installed_first : list string :=
  [ quoted "AppWorkshop"; "{";
    tab1 +:+ quoted "appid" +:+ tab2 +:+ quoted "252490";
    tab1 +:+ quoted "WorkshopItemsInstalled"; tab1 +:+ "{";
    tab2 +:+ quoted "111"; tab2 +:+ "{"; tab2 +:+ "}";
    tab1 +:+ "}";
    tab1 +:+ quoted "WorkshopItemDetails"; tab1 +:+ "{";
    tab2 +:+ quoted "111"; tab2 +:+ "{"; tab2 +:+ "}";
    tab1 +:+ "}";
    "}" ].

(** A manifest with the details section first and no item yet. *)
Definition manifest_details_first : list string :=
  [ quoted "AppWorkshop"; "{";
    tab1 +:+ quoted "appid" +:+ tab2 +:+ quoted "252490";
    tab1 +:+ quoted "WorkshopItemDetails"; tab1 +:+ "{"; tab1 +:+ "}";
    tab1 +:+ quoted "WorkshopItemsInstalled"; tab1 +:+ "{"; tab1 +:+ "}";
    "}" ].

Definition skin_dir : node := Dir [("skin.json", File 10 100)].

(** A content folder with items 111 and 333 downloaded, an empty folder and
    a stray file; every question is answered with yes and nothing fails. *)
Definition patch_run (entries : list (string * node)) : patch_env :=
  {| content_entries := Some entries; readManifestDate := fun _ => 0;
     now := 5000; confirm_patch := true; backup_ok := true;
     confirm_without_backup := false; write_opens := true |}.

Definition content_111 : list (string * node) :=
  [("111", skin_dir); ("444", Dir []); ("notes.txt", File 3 7)].

Definition content_333 : list (string * node) := [("333", skin_dir)].

(** A string without line feed: a line. *)
Definition no_lf (s : string) : bool :=
  all_chars (fun c => negb (Ascii.eqb c LF)) s.

(** The characters of a printed number: digits and the minus sign. *)
Definition is_number_char (c : ascii) : bool :=
  is_digit c || Ascii.eqb c "-".

(** The lines of the two entries, as the builders lay them out. *)
Definition installed_entry_lines (s : SkinInfo) : list string :=
  [ tab2 +:+ quoted (id s);
    tab2 +:+ "{";
    tab3 +:+ quoted "size" +:+ tab2 +:+ quoted (pretty (size s));
    tab3 +:+ quoted "timeupdated" +:+ tab2 +:+ quoted (pretty (timeupdated s));
    tab3 +:+ quoted "manifest" +:+ tab2 +:+ quoted "0";
    tab2 +:+ "}" ].

Definition details_entry_lines (s : SkinInfo) : list string :=
  [ tab2 +:+ quoted (id s);
    tab2 +:+ "{";
    tab3 +:+ quoted "manifest" +:+ tab2 +:+ quoted "0";
    tab3 +:+ quoted "timeupdated" +:+ tab2 +:+ quoted (pretty (timeupdated s));
    tab3 +:+ quoted "timetouched" +:+ tab2 +:+ quoted (pretty (timetouched s));
    tab3 +:+ quoted "latest_timeupdated" +:+ tab2
      +:+ quoted (pretty (timeupdated s));
    tab3 +:+ quoted "latest_manifest" +:+ tab2 +:+ quoted "0";
    tab2 +:+ "}" ].

(** The lines [main] inserts into each section: the entries of the queued
    items the section does not list yet. *)
Definition installed_lines (acf : AcfInfo) (toAdd : list SkinInfo)
    : list string :=
  concat (map (fun si => if bool_decide (id si ∈ installedIds acf) then []
                         else installed_entry_lines si) toAdd).

Definition details_lines (acf : AcfInfo) (toAdd : list SkinInfo)
    : list string :=
  concat (map (fun si => if bool_decide (id si ∈ detailsIds acf) then []
                         else details_entry_lines si) toAdd).

(** Two parser states that agree on section and depth, the second knowing
    at least the identifiers of the first. *)
Definition state_le (st st' : parse_state) : Prop :=
  cur st = cur st' /\ depth st = depth st'
  /\ installedIds (info st) ⊆ installedIds (info st')
  /\ detailsIds (info st) ⊆ detailsIds (info st').

End PatcherStatements.
Import PatcherStatements.
Import Statements.

(** * Properties of the download orchestrator *)

Section LogClassifier.
Import Str Downloader.

Lemma upgrade_last_lookup lastId sr m :
  lastId ≠ EmptyString ->
  (m !! lastId = Some Error \/ m !! lastId = Some Unknown) ->
  upgrade_last lastId sr m = <[lastId := sr]> m.
Proof.
  intros Hne Hm. unfold upgrade_last.
  destruct lastId as [|c l]; [congruence|].
  destruct Hm as [-> | ->]; reflexivity.
Qed.

Lemma upgrade_last_other lastId sr m id :
  id ≠ lastId -> upgrade_last lastId sr m !! id = m !! id.
Proof.
  intros Hne. unfold upgrade_last.
  destruct lastId as [|c l]; [reflexivity|].
  destruct (m !! String c l) as [[]|]; try reflexivity;
    by rewrite lookup_insert_ne.
Qed.

Lemma upgrade_last_keep lastId sr m :
  ¬ (lastId ≠ EmptyString /\
     (m !! lastId = Some Error \/ m !! lastId = Some Unknown)) ->
  upgrade_last lastId sr m = m.
Proof.
  intros Hn. unfold upgrade_last.
  destruct lastId as [|c l]; [reflexivity|].
  destruct (m !! String c l) as [[]|] eqn:E; try reflexivity;
    exfalso; apply Hn; split; try discriminate; auto.
Qed.

(** C6 -- a line that contains [Staged file validation failed] or
    [Missing update files] and carries no item id (neither the
    [result :] pattern nor the validation pattern with an id matches it)
    sets the validation flag, leaves [lastId] and everything else alone,
    and turns the entry of [lastId] into [ValidationFailed] exactly when
    [lastId] is set and its entry is [Error] or [Unknown]; and the
    two-line log of scenario 3, classified against the chunk [999], gives
    the single entry 999 -> ValidationFailed with the flag set. *)
Theorem parse_line_validation_without_id :
  (forall (result : ParsedLog.t) (lastId line : string),
     reResult line = None ->
     reValidation line = None ->
     contains "Staged file validation failed" line = true
     \/ contains "Missing update files" line = true ->
     let '(result', lastId') := parse_line (result, lastId) line in
     lastId' = lastId
     /\ ParsedLog.globalValidationFail result' = true
     /\ (lastId ≠ EmptyString ->
         ParsedLog.perItem result !! lastId = Some Error
         \/ ParsedLog.perItem result !! lastId = Some Unknown ->
         ParsedLog.perItem result' !! lastId = Some ValidationFailed)
     /\ (¬ (lastId ≠ EmptyString /\
            (ParsedLog.perItem result !! lastId = Some Error
             \/ ParsedLog.perItem result !! lastId = Some Unknown)) ->
         ParsedLog.perItem result' = ParsedLog.perItem result)
     /\ (forall id, id ≠ lastId ->
         ParsedLog.perItem result' !! id = ParsedLog.perItem result !! id)
     /\ ParsedLog.globalRateLimit result' = ParsedLog.globalRateLimit result
     /\ ParsedLog.globalTimeout result' = ParsedLog.globalTimeout result
     /\ ParsedLog.globalLockFailed result' = ParsedLog.globalLockFailed result
     /\ ParsedLog.successCount result' = ParsedLog.successCount result
     /\ ParsedLog.failureCount result' = ParsedLog.failureCount result)
  /\ (let parsed := parseSteamCmdLog (Some scenario3_log) ["999"] in
      ParsedLog.perItem parsed = {[ "999" := ValidationFailed ]}
      /\ ParsedLog.globalValidationFail parsed = true).
Proof.
  split.
  - intros result lastId line HR HV Hc.
    unfold parse_line. rewrite HR, HV.
    replace (contains "Staged file validation failed" line
             || contains "Missing update files" line) with true
      by (destruct Hc as [-> | ->]; [reflexivity | by rewrite orb_true_r]).
    cbn [ParsedLog.set_perItem ParsedLog.set_globalValidationFail
         ParsedLog.perItem ParsedLog.globalValidationFail
         ParsedLog.globalRateLimit ParsedLog.globalTimeout
         ParsedLog.globalLockFailed ParsedLog.successCount
         ParsedLog.failureCount].
    repeat split; try reflexivity.
    + intros Hne Hm. rewrite upgrade_last_lookup by done.
      apply lookup_insert_eq.
    + intros Hn. by apply upgrade_last_keep.
    + intros id Hne. by apply upgrade_last_other.
  - split.
    + vm_compute. reflexivity.
    + vm_compute. reflexivity.
Qed.

End LogClassifier.

Section Paths.
Import Str Downloader.

Lemma digit_not_slash c : is_digit c = true -> c ≠ "/"%char.
Proof. intros H ->. vm_compute in H. discriminate. Qed.

Lemma path_join_relative a c b :
  c ≠ "/"%char -> path_join a (String c b) = a +:+ "/" +:+ String c b.
Proof.
  intros Hc. unfold path_join.
  destruct c as [[] [] [] [] [] [] [] []]; try reflexivity.
  exfalso. by apply Hc.
Qed.

Lemma identifier_head id :
  is_identifier id = true ->
  exists c b, id = String c b /\ c ≠ "/"%char.
Proof.
  unfold is_identifier. intros H.
  apply andb_prop in H as [H Hd]. apply andb_prop in H as [H6 _].
  destruct id as [|c b]; [discriminate|].
  exists c, b. split; [reflexivity|].
  simpl in Hd. apply andb_prop in Hd as [Hd _]. by apply digit_not_slash.
Qed.

Lemma append_cons x (a b : string) : String x a +:+ b = String x (a +:+ b).
Proof. reflexivity. Qed.

Lemma append_nil_l (b : string) : EmptyString +:+ b = b.
Proof. reflexivity. Qed.

Lemma append_nil_r (a : string) : a +:+ EmptyString = a.
Proof. induction a as [|x a IH]; [done|]. by rewrite append_cons, IH. Qed.

Lemma append_inj_l (a b c : string) : a +:+ b = a +:+ c -> b = c.
Proof. apply String.app_inj. Qed.

Lemma append_assoc (a b c : string) : (a +:+ b) +:+ c = a +:+ (b +:+ c).
Proof.
  induction a as [|x a IH]; [done|]. by rewrite !append_cons, IH.
Qed.

Lemma length_append (a b : string) :
  String.length (a +:+ b) = (String.length a + String.length b)%nat.
Proof.
  induction a as [|x a IH]; [done|]. rewrite append_cons. simpl. by rewrite IH.
Qed.

Lemma dst_path_relative id :
  is_identifier id = true -> dst_path id = CONTENT_PATH +:+ "/" +:+ id.
Proof.
  intros (c & b & -> & Hc)%identifier_head.
  unfold dst_path. by apply path_join_relative.
Qed.

Lemma src_path_relative inst id :
  is_identifier id = true ->
  src_path inst id =
    (inst +:+ "/steamapps/workshop/content/252490") +:+ "/" +:+ id.
Proof.
  intros (c & b & -> & Hc)%identifier_head.
  unfold src_path. rewrite path_join_relative by done.
  f_equal. unfold path_join, APP_ID. cbv iota.
  rewrite !append_assoc. f_equal.
Qed.

(** Distinct identifiers have distinct destinations. *)
Lemma dst_path_inj id id' :
  is_identifier id = true -> is_identifier id' = true ->
  dst_path id = dst_path id' -> id = id'.
Proof.
  intros H H' E. rewrite !dst_path_relative in E by done.
  apply append_inj_l in E. by apply append_inj_l in E.
Qed.

(** No destination is the source of an item in an instance directory. *)
Lemma dst_src_distinct threadId id id' :
  is_identifier id = true -> is_identifier id' = true ->
  dst_path id' ≠ src_path (instance_dir threadId) id.
Proof.
  intros H H' E. rewrite dst_path_relative, src_path_relative in E by done.
  unfold instance_dir in E. vm_compute in E. discriminate.
Qed.

(** No destination is a staging directory. *)
Lemma dst_staging_distinct inst sub id :
  is_identifier id = true -> sub ∈ stagingSubdirs ->
  dst_path id ≠ path_join inst sub.
Proof.
  intros H Hs E. rewrite dst_path_relative in E by done.
  unfold stagingSubdirs in Hs.
  repeat (apply elem_of_cons in Hs as [-> | Hs]; [vm_compute in E; discriminate|]).
  by apply elem_of_nil in Hs.
Qed.

End Paths.

Section Move.
Import Str Downloader.

Lemma folderHasFiles_ext (fs fs' : FS) p :
  fs !! p = fs' !! p -> folderHasFiles fs p = folderHasFiles fs' p.
Proof. unfold folderHasFiles. by intros ->. Qed.

(** [moveSkinToShared] touches the source and the destination only. *)
Lemma move_frame e inst id (fs : FS) p :
  p ≠ src_path inst id -> p ≠ dst_path id ->
  snd (moveSkinToShared e inst id fs) !! p = fs !! p.
Proof.
  intros Hs Hd. unfold moveSkinToShared.
  destruct (folderHasFiles fs (dst_path id)); [done|].
  destruct (folderHasFiles fs (src_path inst id)); [|done]. cbn [negb].
  destruct (fs !! src_path inst id) as [tree|]; [|done].
  destruct (negb (rename_throws e) && rename_target_free (fs !! dst_path id)).
  - cbn [snd]. rewrite lookup_insert_ne, lookup_delete_ne; done.
  - destruct (if copy_throws e then None else copy_node id tree (fs !! dst_path id))
      as [tree'|].
    + destruct (remove_throws e); cbn [snd].
      * rewrite lookup_partial_alter_ne, lookup_insert_ne; done.
      * rewrite lookup_delete_ne, lookup_insert_ne; done.
    + cbn [snd]. rewrite lookup_partial_alter_ne; done.
Qed.

(** A move that reports success leaves files at the destination. *)
Lemma move_true_hasFiles e inst id (fs : FS) :
  fst (moveSkinToShared e inst id fs) = true ->
  folderHasFiles (snd (moveSkinToShared e inst id fs)) (dst_path id) = true.
Proof.
  unfold moveSkinToShared.
  destruct (folderHasFiles fs (dst_path id)) eqn:Hd; [done|].
  destruct (folderHasFiles fs (src_path inst id)); [|done]. cbn [negb].
  destruct (fs !! src_path inst id) as [tree|]; [|done].
  destruct (negb (rename_throws e) && rename_target_free (fs !! dst_path id));
    [done|].
  destruct (if copy_throws e then None else copy_node id tree (fs !! dst_path id))
    as [tree'|]; [|done].
  destruct (remove_throws e); done.
Qed.

(** C5 as stated fails: with files already at the destination the move
    reports success at once and the source keeps its regular files. *)
Lemma move_success_source_kept :
  let e := {| rename_throws := false; copy_throws := false;
              copy_left := None; remove_throws := false;
              remove_left := None |} in
  let src := src_path (instance_dir 0) "490217825" in
  let dst := dst_path "490217825" in
  let fs0 : FS :=
    <[src := Dir [("skin.json", File 1)]]>
      (<[dst := Dir [("skin.json", File 1)]]> ∅) in
  is_identifier "490217825" = true
  /\ fst (moveSkinToShared e (instance_dir 0) "490217825" fs0) = true
  /\ has_regular_files
       (snd (moveSkinToShared e (instance_dir 0) "490217825" fs0)) src = true.
Proof. vm_compute. auto. Qed.

(** C5, amended -- for an identifier and an instance directory, a move
    that reports success leaves the destination with files; and when the
    destination had no files before the call, the source path no longer
    exists afterwards (so it holds no regular file). *)
Theorem move_success_destination_has_files
    (e : move_env) (threadId : Z) (skinId : string) (fs : FS) :
  is_identifier skinId = true ->
  fst (moveSkinToShared e (instance_dir threadId) skinId fs) = true ->
  let fs' := snd (moveSkinToShared e (instance_dir threadId) skinId fs) in
  folderHasFiles fs' (dst_path skinId) = true
  /\ (folderHasFiles fs (dst_path skinId) = false ->
      fs' !! src_path (instance_dir threadId) skinId = None
      /\ has_regular_files fs' (src_path (instance_dir threadId) skinId) = false).
Proof.
  intros Hid Hmv. cbn zeta. split; [by apply move_true_hasFiles|].
  intros Hd.
  assert (fs' : snd (moveSkinToShared e (instance_dir threadId) skinId fs)
                !! src_path (instance_dir threadId) skinId = None).
  { revert Hmv. unfold moveSkinToShared. rewrite Hd.
    destruct (folderHasFiles fs (src_path _ skinId)); [|done]. cbn [negb].
    destruct (fs !! src_path _ skinId) as [tree|]; [|done].
    destruct (negb (rename_throws e) && rename_target_free (fs !! dst_path skinId)).
    - intros _. cbn [snd]. rewrite lookup_insert_ne, lookup_delete_eq; [done|].
      by apply dst_src_distinct.
    - destruct (if copy_throws e then None else copy_node skinId tree (fs !! dst_path skinId))
        as [tree'|]; [|done].
      destruct (remove_throws e); [done|].
      intros _. cbn [snd]. by rewrite lookup_delete_eq. }
  split; [exact fs'|]. unfold has_regular_files. by rewrite fs'.
Qed.

Lemma move_success_destination_has_files_witness :
  let e := {| rename_throws := false; copy_throws := false;
              copy_left := None; remove_throws := false;
              remove_left := None |} in
  let fs0 : FS :=
    <[src_path (instance_dir 0) "490217825" := Dir [("skin.json", File 1)]]> ∅ in
  let fs' := snd (moveSkinToShared e (instance_dir 0) "490217825" fs0) in
  folderHasFiles fs' (dst_path "490217825") = true
  /\ (folderHasFiles fs0 (dst_path "490217825") = false ->
      fs' !! src_path (instance_dir 0) "490217825" = None
      /\ has_regular_files fs' (src_path (instance_dir 0) "490217825") = false).
Proof.
  intros e fs0.
  apply (move_success_destination_has_files e 0 "490217825" fs0);
    vm_compute; reflexivity.
Defined.

End Move.

Section Worker.
#[local] Set Warnings "-clear-no-such-hyp".
Import Str Downloader.

Lemma fs_record_result id sr w : fs (record_result id sr w) = fs w.
Proof. by destruct sr. Qed.

Lemma skinResults_record_result id sr w :
  skinResults (record_result id sr w) = <[id := stored sr]> (skinResults w).
Proof. by destruct sr. Qed.

Lemma stored_not_Unknown sr : stored sr ≠ Unknown.
Proof. by destruct sr. Qed.

Lemma stored_Success sr : stored sr = Success <-> sr = Success.
Proof. by destruct sr. Qed.

Lemma reconciled_Success classified moved inShared timedOut :
  reconciled classified moved inShared timedOut = Success
  <-> moved || inShared = true.
Proof.
  unfold reconciled.
  destruct (moved || inShared); [by destruct timedOut|].
  destruct (decide (classified = Success)) as [->|Hne].
  - destruct timedOut; cbn; split; discriminate.
  - rewrite bool_decide_eq_false_2 by done.
    destruct timedOut; cbn; split; try discriminate; done.
Qed.

Lemma fs_reconcile_item e timedOut parsed inst id w :
  fs (reconcile_item e timedOut parsed inst id w)
  = snd (moveSkinToShared e inst id (fs w)).
Proof.
  unfold reconcile_item.
  destruct (moveSkinToShared e inst id (fs w)) as [moved fs1].
  by rewrite fs_record_result.
Qed.

Lemma skinResults_reconcile_item e timedOut parsed inst id w :
  exists sr,
    skinResults (reconcile_item e timedOut parsed inst id w)
    = <[id := stored sr]> (skinResults w)
    /\ (sr = Success <->
        folderHasFiles (fs (reconcile_item e timedOut parsed inst id w))
          (dst_path id) = true).
Proof.
  rewrite fs_reconcile_item. unfold reconcile_item.
  pose proof (move_true_hasFiles e inst id (fs w)) as Hmv.
  destruct (moveSkinToShared e inst id (fs w)) as [moved fs1].
  cbn [fst snd] in *. eexists. rewrite skinResults_record_result.
  split; [reflexivity|]. rewrite reconciled_Success.
  destruct moved; cbn [orb]; [|done]. by rewrite Hmv.
Qed.

(** The reconcile loop gives every identifier of the chunk an entry. *)
Lemma reconcile_records e timedOut parsed inst chunk : forall k w id,
  id ∈ chunk ->
  exists r,
    skinResults (reconcile e timedOut parsed inst k chunk w) !! id = Some r
    /\ r ≠ Unknown.
Proof.
  induction chunk as [|id0 chunk IH]; intros k w id Hin.
  - by apply elem_of_nil in Hin.
  - cbn [reconcile].
    destruct (decide (id ∈ chunk)) as [Hc|Hc]; [by apply IH|].
    apply elem_of_cons in Hin as [->|]; [|done].
    clear IH.
    destruct (skinResults_reconcile_item (e k) timedOut parsed inst id0 w)
      as (sr & Hsr & _).
    assert (Hgo : forall k w,
      skinResults (reconcile e timedOut parsed inst k chunk w) !! id0
      = skinResults w !! id0).
    { clear -Hc. induction chunk as [|id1 chunk IH]; intros k w; [done|].
      cbn [reconcile]. rewrite IH by set_solver.
      destruct (skinResults_reconcile_item (e k) timedOut parsed inst id1 w)
        as (sr & -> & _).
      rewrite lookup_insert_ne; [done|]. set_solver. }
    rewrite Hgo, Hsr, lookup_insert_eq.
    eexists; split; [done|]. apply stored_not_Unknown.
Qed.


Lemma skinResults_set_fs f w : skinResults (set_fs f w) = skinResults w.
Proof. done. Qed.
Lemma fs_set_fs f w : fs (set_fs f w) = f (fs w).
Proof. done. Qed.
Lemma skinResults_set_flag b w :
  skinResults (set_anyRateLimitDetected b w) = skinResults w.
Proof. done. Qed.
Lemma fs_set_flag b w : fs (set_anyRateLimitDetected b w) = fs w.
Proof. done. Qed.

(** The worker reaches the end of its reconcile loop exactly when the
    chunk is not empty and the script file opens. *)
Lemma workerInstance_exit e chunk threadId total pass w :
  fst (workerInstance e chunk threadId total pass w) = Reconciled
  <-> chunk ≠ [] /\ script_opens e = true.
Proof.
  unfold workerInstance. destruct chunk as [|id chunk].
  - cbn. split; [discriminate|]. by intros [[] _].
  - destruct (script_opens e); cbn; split; try done.
    + by intros [_ ?].
Qed.

(** The state a worker leaves when it reconciles. *)
Lemma workerInstance_reconciled e chunk threadId total pass w :
  fst (workerInstance e chunk threadId total pass w) = Reconciled ->
  exists w1,
    skinResults w1 = skinResults w
    /\ snd (workerInstance e chunk threadId total pass w)
       = set_fs (cleanStagingFolder (clean_after e) (instance_dir threadId))
           (reconcile (moves e) (timed_out e)
              (parseSteamCmdLog (log_text e) chunk)
              (instance_dir threadId) 0 chunk w1).
Proof.
  unfold workerInstance. destruct chunk as [|id chunk]; [discriminate|].
  destruct (script_opens e); [|discriminate]. intros _. cbn [negb snd].
  eexists. split; [|reflexivity].
  destruct (ParsedLog.globalRateLimit _); done.
Qed.

(** C2 as stated fails: when the script file cannot be created the
    worker returns before the reconcile loop and records nothing. *)
Lemma worker_script_error_records_nothing :
  let mv := {| rename_throws := false; copy_throws := false;
               copy_left := None; remove_throws := false;
               remove_left := None |} in
  let e := {| script_opens := false; tool_run := fun fs : FS => fs;
              timed_out := false; log_text := None;
              clean_before := fun _ => None; clean_after := fun _ => None;
              moves := fun _ => mv |} in
  let w := mkWorld ∅ ∅ 0 0 0 0 0 0 0 0 0 false in
  let chunk := ["490217825"] in
  chunk ≠ []
  /\ "490217825" ∈ chunk
  /\ workerInstance e chunk 0 1 1 w = (ScriptError, w)
  /\ skinResults (snd (workerInstance e chunk 0 1 1 w)) !! "490217825" = None.
Proof.
  cbn zeta. split; [done|]. split; [set_solver|]. split; vm_compute; reflexivity.
Qed.

(** C2, amended -- for every non-empty chunk whose script file opens,
    when the worker returns every identifier of the chunk has an outcome
    in [skinResults]. *)
Theorem worker_records_every_identifier
    (e : worker_env) (chunk : list string) (threadId total pass : Z)
    (w : World) (id : string) :
  chunk ≠ [] -> script_opens e = true -> id ∈ chunk ->
  is_Some (skinResults
             (snd (workerInstance e chunk threadId total pass w)) !! id).
Proof.
  intros Hne Hs Hin.
  destruct (workerInstance_reconciled e chunk threadId total pass w)
    as (w1 & _ & ->); [by apply workerInstance_exit|].
  rewrite skinResults_set_fs.
  destruct (reconcile_records (moves e) (timed_out e)
              (parseSteamCmdLog (log_text e) chunk) (instance_dir threadId)
              chunk 0 w1 id Hin) as (r & -> & _).
  by eexists.
Qed.

Lemma worker_records_every_identifier_witness :
  is_Some (skinResults
             (snd (workerInstance one_item_worker ["490217825"] 0 1 1
                     fresh_world)) !! "490217825").
Proof.
  apply (worker_records_every_identifier one_item_worker ["490217825"] 0 1 1
           fresh_world "490217825");
    [discriminate | reflexivity | apply list_elem_of_here].
Defined.

End Worker.

Section WorkerOutcomes.
#[local] Set Warnings "-clear-no-such-hyp".
Import Str Downloader.

(** The staging clean-up leaves every destination alone. *)
Lemma cleanStagingFolder_frame e inst (fs : FS) id :
  is_identifier id = true ->
  cleanStagingFolder e inst fs !! dst_path id = fs !! dst_path id.
Proof.
  intros Hid. unfold cleanStagingFolder.
  assert (Hstep : forall subs (fs : FS),
    (forall sub, sub ∈ subs -> sub ∈ stagingSubdirs) ->
    fold_left
      (fun (fs : FS) sub =>
         let p := path_join inst sub in
         match fs !! p with
         | Some (Dir _) => <[p := Dir (default [] (e p))]> fs
         | _ => fs
         end) subs fs !! dst_path id = fs !! dst_path id).
  { induction subs as [|sub subs IH]; intros fs0 Hsub; [done|].
    cbn [fold_left]. rewrite IH by (intros; apply Hsub; set_solver).
    cbn zeta. destruct (fs0 !! path_join inst sub) as [[|es]|]; try done.
    rewrite lookup_insert_ne; [done|].
    intros E. eapply dst_staging_distinct; [exact Hid| |symmetry; exact E].
    apply Hsub. set_solver. }
  by apply Hstep.
Qed.

(** An identifier that is not in the chunk keeps its entry and its
    destination through the reconcile loop. *)
Lemma reconcile_frame e timedOut parsed threadId chunk id :
  is_identifier id = true ->
  Forall (fun id => is_identifier id = true) chunk ->
  id ∉ chunk ->
  forall k w,
    let w' := reconcile e timedOut parsed (instance_dir threadId) k chunk w in
    skinResults w' !! id = skinResults w !! id
    /\ fs w' !! dst_path id = fs w !! dst_path id.
Proof.
  intros Hid Hall Hnot. induction chunk as [|id0 chunk IH]; intros k w; [done|].
  cbn [reconcile]. cbn zeta.
  apply Forall_cons in Hall as [Hid0 Hall].
  apply not_elem_of_cons in Hnot as [Hne Hnot].
  destruct (IH Hall Hnot (S k)
              (reconcile_item (e k) timedOut parsed (instance_dir threadId) id0 w))
    as [-> ->].
  destruct (skinResults_reconcile_item (e k) timedOut parsed
              (instance_dir threadId) id0 w) as (sr & -> & _).
  rewrite fs_reconcile_item. split.
  - by rewrite lookup_insert_ne.
  - apply move_frame.
    + by apply dst_src_distinct.
    + intros E. apply Hne. by apply dst_path_inj.
Qed.

(** After the reconcile loop an identifier of the chunk is [Success]
    exactly when its destination has files. *)
Lemma reconcile_success_iff e timedOut parsed threadId chunk :
  Forall (fun id => is_identifier id = true) chunk ->
  forall k w id,
    id ∈ chunk ->
    let w' := reconcile e timedOut parsed (instance_dir threadId) k chunk w in
    skinResults w' !! id = Some Success
    <-> folderHasFiles (fs w') (dst_path id) = true.
Proof.
  induction chunk as [|id0 chunk IH]; intros Hall k w id Hin.
  - by apply elem_of_nil in Hin.
  - apply Forall_cons in Hall as [Hid0 Hall]. cbn [reconcile]. cbn zeta.
    destruct (decide (id ∈ chunk)) as [Hc|Hc]; [by apply IH|].
    apply elem_of_cons in Hin as [->|]; [|done].
    destruct (reconcile_frame e timedOut parsed threadId chunk id0 Hid0 Hall Hc
                (S k)
                (reconcile_item (e k) timedOut parsed (instance_dir threadId) id0 w))
      as [Hm Hf].
    rewrite Hm, (folderHasFiles_ext _ _ _ Hf).
    destruct (skinResults_reconcile_item (e k) timedOut parsed
                (instance_dir threadId) id0 w) as (sr & -> & <-).
    rewrite lookup_insert_eq. split.
    + intros [= H]. by apply stored_Success.
    + intros ->. done.
Qed.

(** C1 -- when a worker has gone through its chunk (the chunk is not empty
    and its script file opened), then for every identifier of the chunk
    [skinResults] holds [Success] if and only if the destination directory
    of the identifier in the shared tree satisfies [folderHasFiles]. *)
Theorem worker_success_iff_destination_has_files
    (e : worker_env) (chunk : list string) (threadId total pass : Z)
    (w : World) (id : string) :
  Forall (fun id => is_identifier id = true) chunk ->
  fst (workerInstance e chunk threadId total pass w) = Reconciled ->
  id ∈ chunk ->
  let w' := snd (workerInstance e chunk threadId total pass w) in
  skinResults w' !! id = Some Success
  <-> folderHasFiles (fs w') (dst_path id) = true.
Proof.
  intros Hall Hex Hin. cbn zeta.
  destruct (workerInstance_reconciled e chunk threadId total pass w Hex)
    as (w1 & _ & ->).
  rewrite skinResults_set_fs, fs_set_fs.
  assert (Hid : is_identifier id = true).
  { rewrite Forall_forall in Hall. by apply Hall. }
  rewrite (folderHasFiles_ext _ _ _
             (cleanStagingFolder_frame (clean_after e) (instance_dir threadId)
                _ id Hid)).
  by apply reconcile_success_iff.
Qed.

Lemma worker_success_iff_destination_has_files_witness :
  let w' := snd (workerInstance one_item_worker ["490217825"] 0 1 1
                   fresh_world) in
  skinResults w' !! "490217825" = Some Success
  <-> folderHasFiles (fs w') (dst_path "490217825") = true.
Proof.
  apply (worker_success_iff_destination_has_files one_item_worker
           ["490217825"] 0 1 1 fresh_world "490217825");
    [ repeat constructor | vm_compute; reflexivity | apply list_elem_of_here ].
Defined.

(** The run of the witness does move the item: it ends as [Success] with
    its file in the shared tree and nothing left in the instance tree. *)
Example one_item_run :
  let w' := snd (workerInstance one_item_worker ["490217825"] 0 1 1
                   fresh_world) in
  skinResults w' !! "490217825" = Some Success
  /\ fs w' !! dst_path "490217825" = Some (Dir [("skin.json", File 1)])
  /\ fs w' !! src_path (instance_dir 0) "490217825" = None
  /\ successCount w' = 1 /\ failedCount w' = 0 /\ totalProcessed w' = 1.
Proof. vm_compute. repeat split. Qed.

(** A run in which the tool downloads nothing and leaves no log: the
    identifier stays unclassified and is recorded as [Error]. *)
Example unclassified_item_run :
  let w' := snd (workerInstance idle_worker ["490217825"] 0 1 1 fresh_world) in
  skinResults w' !! "490217825" = Some Error
  /\ errorCount w' = 1 /\ failedCount w' = 1 /\ totalProcessed w' = 1
  /\ successCount w' = 0.
Proof. vm_compute. repeat split. Qed.

End WorkerOutcomes.

Section RetryController.
Import Str Downloader.

(** Every call the retry loop makes asks for [max 1 (maxInstances / 2)]
    instances. *)
Lemma retry_loop_instances e todo : forall retry toProcess maxInstances grandTotal w c,
  c ∈ fst (retry_loop e todo retry toProcess maxInstances grandTotal w) ->
  pc_instances c = Z.max 1 (Z.quot maxInstances 2).
Proof.
  induction todo as [|todo IH]; intros retry toProcess maxInstances grandTotal w c.
  - cbn. by intros ?%elem_of_nil.
  - cbn [retry_loop]. cbn zeta.
    destruct (collectFailed toProcess w) as [|id failed] eqn:Hf.
    + cbn. by intros ?%elem_of_nil.
    + destruct (retry_loop e todo (retry + 1) toProcess maxInstances grandTotal _)
        as [calls w'] eqn:Hloop.
      cbn [fst]. intros [-> | Hin]%elem_of_cons; [done|].
      eapply IH. rewrite Hloop. exact Hin.
Qed.

(** The retry loop makes at most as many calls as it has iterations. *)
Lemma retry_loop_length e todo : forall retry toProcess maxInstances grandTotal w,
  (length (fst (retry_loop e todo retry toProcess maxInstances grandTotal w))
   <= todo)%nat.
Proof.
  induction todo as [|todo IH]; intros retry toProcess maxInstances grandTotal w;
    [cbn; lia|].
  cbn [retry_loop]. cbn zeta.
  destruct (collectFailed toProcess w) as [|id failed]; [cbn; lia|].
  match goal with
  | |- context [retry_loop e todo ?r ?t ?m ?g ?w1] =>
      specialize (IH r t m g w1);
      destruct (retry_loop e todo r t m g w1) as [calls w']
  end.
  cbn in *. lia.
Qed.

(** C4 as stated fails: asked for 8 instances, with eight identifiers that
    keep failing, the passes run with 8, 4, 4 and 4 instances; pass 3 does
    not run with half the instances of pass 2. *)
Lemma retry_concurrency_not_halved_again :
  let calls := fst (main_passes idle_main eight_ids 8 fresh_world) in
  map pc_pass calls = [1; 2; 3; 4]
  /\ map pc_instances calls = [8; 4; 4; 4]
  /\ map (fun c => length (runPass_chunks (pc_toDownload c) (pc_instances c)))
       calls = [8; 4; 4; 4]%nat
  /\ (exists c2 c3,
        calls !! 1%nat = Some c2 /\ calls !! 2%nat = Some c3
        /\ pc_instances c3 ≠ Z.max 1 (Z.quot (pc_instances c2) 2)).
Proof.
  cbn zeta. repeat split; try (vm_compute; reflexivity).
  eexists _, _. split; [vm_compute; reflexivity|].
  split; [vm_compute; reflexivity|]. vm_compute. discriminate.
Qed.

(** C4, amended -- with something to download, the first pass runs with
    the requested number of instances (at least 1), and every retry pass
    is dispatched with half of that number, with a minimum of 1: the first
    retry halves the concurrency of the pass before it, the later ones
    reuse that value.  There are at most [MAX_RETRY_PASSES] retries. *)
Theorem retry_passes_use_half_of_initial
    (e : main_env) (toProcess : list string) (maxInstances : Z) (w : World) :
  toProcess ≠ [] ->
  exists first retries,
    fst (main_passes e toProcess maxInstances w) = first :: retries
    /\ pc_pass first = 1
    /\ pc_instances first = Z.max 1 maxInstances
    /\ (length retries <= Z.to_nat MAX_RETRY_PASSES)%nat
    /\ forall c, c ∈ retries ->
         pc_instances c = Z.max 1 (Z.quot (pc_instances first) 2).
Proof.
  intros Hne. unfold main_passes.
  destruct toProcess as [|id0 ids0]; [done|]. clear Hne.
  set (toProcess := id0 :: ids0).
  set (m := if maxInstances <? 1 then 1 else maxInstances).
  assert (Hm : m = Z.max 1 maxInstances).
  { unfold m. destruct (Z.ltb_spec maxInstances 1); lia. }
  cbn zeta.
  destruct (retry_loop e (Z.to_nat MAX_RETRY_PASSES) 1 toProcess m _ _)
    as [calls w'] eqn:Hloop.
  exists {| pc_toDownload := toProcess; pc_instances := m; pc_pass := 1 |}, calls.
  cbn [fst pc_pass pc_instances]. repeat split; [done| |].
  - pose proof (retry_loop_length e (Z.to_nat MAX_RETRY_PASSES) 1 toProcess m
                  (Z.of_nat (length toProcess))
                  (runPass (workers e 1) toProcess m 1
                     (Z.of_nat (length toProcess)) w)) as Hlen.
    rewrite Hloop in Hlen. exact Hlen.
  - intros c Hc. eapply retry_loop_instances. rewrite Hloop. exact Hc.
Qed.

Lemma retry_passes_use_half_of_initial_witness :
  exists first retries,
    fst (main_passes idle_main eight_ids 8 fresh_world) = first :: retries
    /\ pc_pass first = 1
    /\ pc_instances first = Z.max 1 8
    /\ (length retries <= Z.to_nat MAX_RETRY_PASSES)%nat
    /\ forall c, c ∈ retries ->
         pc_instances c = Z.max 1 (Z.quot (pc_instances first) 2).
Proof.
  apply (retry_passes_use_half_of_initial idle_main eight_ids 8 fresh_world).
  discriminate.
Defined.

End RetryController.

Section Partition.
Import Str Downloader.

Lemma fill_chunk_spec sz ids : forall idx chunk,
  fill_chunk sz ids idx chunk
  = ((chunk ++ take sz (drop idx ids))%list,
     (idx + Nat.min sz (length ids - idx))%nat).
Proof.
  induction sz as [|sz IH]; intros idx chunk.
  - cbn. rewrite app_nil_r. f_equal. lia.
  - cbn [fill_chunk]. destruct (ids !! idx) as [id|] eqn:Hid.
    + rewrite IH. pose proof (lookup_lt_Some _ _ _ Hid) as Hlt.
      rewrite (drop_S _ _ _ Hid). cbn [take].
      rewrite <- app_assoc. cbn [app]. f_equal. lia.
    + apply lookup_ge_None in Hid.
      rewrite drop_ge by lia. rewrite take_nil, app_nil_r. f_equal. lia.
Qed.

(** The loop of [partition], started where [i] chunks have taken the first
    [i * base + min i rem] identifiers, hands out the rest in chunks of
    [base] or [base + 1] identifiers. *)
Lemma partition_loop_spec ids base rem n :
  0 <= base -> 0 <= rem <= n -> n * base + rem = Z.of_nat (length ids) ->
  forall todo i idx,
    0 <= i -> i + Z.of_nat todo = n ->
    Z.of_nat idx = i * base + Z.min i rem ->
    let chunks := partition_loop todo i ids base rem idx in
    length chunks = todo
    /\ concat chunks = drop idx ids
    /\ Forall (fun c => Z.of_nat (length c) = base
                        \/ Z.of_nat (length c) = base + 1) chunks.
Proof.
  intros Hb Hr Hn. induction todo as [|todo IH]; intros i idx Hi Hin Hidx.
  - cbn. split; [done|]. split; [|constructor].
    rewrite drop_ge; [done|]. lia.
  - cbn [partition_loop]. cbn zeta. rewrite fill_chunk_spec. cbn [app].
    set (sz := Z.to_nat (base + (if i <? rem then 1 else 0))).
    assert (Hsz : Z.of_nat sz = base + (if i <? rem then 1 else 0)).
    { unfold sz. destruct (i <? rem); lia. }
    assert (Hfit : (idx + sz <= length ids)%nat).
    { destruct (Z.ltb_spec i rem); nia. }
    replace (Nat.min sz (length ids - idx)) with sz by lia.
    destruct (IH (i + 1) (idx + sz)%nat) as (Hl & Hc & Hf); [lia|lia| |].
    { destruct (Z.ltb_spec i rem); lia. }
    cbn [length concat]. rewrite Hl, Hc. split; [done|]. split.
    + rewrite <- (take_drop sz (drop idx ids)) at 2. by rewrite drop_drop.
    + constructor; [|done].
      rewrite length_take, length_drop.
      replace (Nat.min sz (length ids - idx)) with sz by lia.
      destruct (i <? rem); lia.
Qed.

Lemma partition_spec ids n :
  0 < n ->
  let chunks := partition ids n in
  length chunks = Z.to_nat n
  /\ concat chunks = ids
  /\ Forall (fun c =>
       Z.of_nat (length c) = Z.quot (Z.of_nat (length ids)) n
       \/ Z.of_nat (length c) = Z.quot (Z.of_nat (length ids)) n + 1) chunks.
Proof.
  intros Hn. unfold partition. cbn zeta.
  pose proof (Z.quot_rem' (Z.of_nat (length ids)) n) as Hqr.
  pose proof (Z.rem_bound_pos (Z.of_nat (length ids)) n ltac:(lia) Hn) as Hrem.
  pose proof (Z.quot_pos (Z.of_nat (length ids)) n ltac:(lia) Hn) as Hq.
  apply (partition_loop_spec ids _ _ n); try lia.
Qed.

(** C8 -- for a non-empty working set and a requested concurrency of at
    least 1, the pass scheduler cuts the working set into
    [min N (length workingSet)] chunks whose concatenation, in order, is the
    working set and whose sizes differ pairwise by at most one. *)
Theorem runPass_chunks_partition (workingSet : list string) (N : Z) :
  workingSet ≠ [] -> 1 <= N ->
  let chunks := runPass_chunks workingSet N in
  length chunks = Z.to_nat (Z.min N (Z.of_nat (length workingSet)))
  /\ concat chunks = workingSet
  /\ forall c1 c2, c1 ∈ chunks -> c2 ∈ chunks ->
       Z.abs (Z.of_nat (length c1) - Z.of_nat (length c2)) <= 1.
Proof.
  intros Hne HN. cbn zeta. unfold runPass_chunks.
  destruct workingSet as [|id ws]; [done|].
  set (ids := id :: ws) in *.
  destruct (partition_spec ids (Z.min N (Z.of_nat (length ids))))
    as (Hl & Hc & Hf).
  { cbn [ids length]. lia. }
  split; [exact Hl|]. split; [exact Hc|].
  intros c1 c2 H1 H2. rewrite Forall_forall in Hf.
  destruct (Hf c1 H1), (Hf c2 H2); lia.
Qed.

Lemma runPass_chunks_partition_witness :
  let chunks := runPass_chunks eight_ids 3 in
  length chunks = Z.to_nat (Z.min 3 (Z.of_nat (length eight_ids)))
  /\ concat chunks = eight_ids
  /\ forall c1 c2, c1 ∈ chunks -> c2 ∈ chunks ->
       Z.abs (Z.of_nat (length c1) - Z.of_nat (length c2)) <= 1.
Proof.
  apply (runPass_chunks_partition eight_ids 3); [discriminate | lia].
Defined.

End Partition.

(** * Properties of the manifest patcher *)

Section PatcherScan.
Import Str AcfPatcher.

(** An entry that is skipped leaves the queue as it is. *)
Lemma scan_entry_skip e acf toAdd entry :
  (isAllDigits (fst entry) = true -> folderHasFiles (snd entry) = true ->
   fst entry ∈ installedIds acf /\ fst entry ∈ detailsIds acf) ->
  scan_entry e acf toAdd entry = toAdd.
Proof.
  intros H. unfold scan_entry.
  destruct (isAllDigits (fst entry)); [|done].
  destruct (folderHasFiles (snd entry)); [|done]. cbn [negb].
  destruct H as [Hi Hd]; [done..|].
  by rewrite !bool_decide_eq_true_2.
Qed.

Lemma scan_all_skipped e acf entries : forall toAdd,
  (forall entry, entry ∈ entries -> scan_entry e acf toAdd entry = toAdd) ->
  fold_left (scan_entry e acf) entries toAdd = toAdd.
Proof.
  induction entries as [|entry entries IH]; intros toAdd H; [done|].
  cbn [fold_left]. rewrite (H entry) by apply list_elem_of_here.
  apply IH. intros en Hen. apply H. by apply list_elem_of_further.
Qed.

(** The entries the scan loop visits are the directories of the listing. *)
Lemma scanned_entries entries entry :
  entry ∈ merge_sort name_le (List.filter (fun en => is_dir (snd en)) entries) ->
  entry ∈ entries /\ is_dir (snd entry) = true.
Proof.
  rewrite merge_sort_Permutation. rewrite list_elem_of_In, filter_In.
  by rewrite <- list_elem_of_In.
Qed.

(** With every numeric, non-empty directory listed in both sections the
    scan queues nothing. *)
Lemma scan_content_all_listed e acf entries :
  (forall name dir,
     (name, dir) ∈ entries -> is_dir dir = true ->
     isAllDigits name = true -> folderHasFiles dir = true ->
     name ∈ installedIds acf /\ name ∈ detailsIds acf) ->
  scan_content e acf entries = [].
Proof.
  intros Hall. unfold scan_content. apply scan_all_skipped.
  intros [name dir] Hin. apply scanned_entries in Hin as [Hin Hdir].
  apply scan_entry_skip. cbn [fst snd] in *. intros Hd Hf. by eapply Hall.
Qed.

End PatcherScan.

Section PatcherSplice.
Import Str AcfPatcher.
Local Open Scope list_scope.

(** A run with nothing to add stops as up to date. *)
Example patcher_up_to_date_run :
  patch_main (patch_run content_111) (write_lines manifest_installed_first)
  = (UpToDate, write_lines manifest_installed_first).
Proof. vm_compute. reflexivity. Qed.

Lemma insert_at_nil idx lines : insert_at idx [] lines = lines.
Proof. unfold insert_at. cbn [app]. apply take_drop. Qed.

Lemma splitLines_empty : splitLines EmptyString = [].
Proof. reflexivity. Qed.

(** The two guarded insertions of a branch, the guards removed: inserting
    the lines of an empty string inserts nothing. *)
Lemma guarded_insert block idx lines :
  (if bool_decide (block = EmptyString) then lines
   else insert_at idx (splitLines block) lines)
  = insert_at idx (splitLines block) lines.
Proof.
  case_bool_decide as H; [|done]. by rewrite H, splitLines_empty, insert_at_nil.
Qed.

Lemma insert_before_none k i d iL dL lines :
  (i < k)%nat -> (d < k)%nat -> insert_before k i d iL dL lines = lines.
Proof.
  revert k. induction lines as [|line lines IH]; intros k Hi Hd; [done|].
  cbn [insert_before]. destruct (decide (k = i)); [lia|].
  destruct (decide (k = d)); [lia|]. cbn [app].
  f_equal. apply IH; lia.
Qed.

Lemma insert_before_details k i d iL dL lines :
  (i < k)%nat -> (k <= d)%nat -> (d - k < length lines)%nat ->
  insert_before k i d iL dL lines
  = take (d - k) lines ++ dL ++ drop (d - k) lines.
Proof.
  revert k. induction lines as [|line lines IH]; intros k Hi Hd Hlen.
  - cbn in Hlen. lia.
  - cbn [insert_before]. destruct (decide (k = i)); [lia|]. cbn [app].
    destruct (decide (k = d)) as [->|Hne].
    + rewrite Nat.sub_diag. cbn [take drop app]. f_equal. f_equal.
      apply insert_before_none; lia.
    + cbn [app]. replace (d - k)%nat with (S (d - S k)) by lia.
      cbn [take drop app]. f_equal. apply IH; cbn in Hlen; lia.
Qed.

(** With the installed closing line above the details closing line, the
    entries land immediately before the two closing lines. *)
Lemma insert_before_installed_first k i d iL dL lines :
  (k <= i)%nat -> (i < d)%nat -> (d - k < length lines)%nat ->
  insert_before k i d iL dL lines
  = take (i - k) lines ++ iL
    ++ drop (i - k) (take (d - k) lines) ++ dL ++ drop (d - k) lines.
Proof.
  revert k. induction lines as [|line lines IH]; intros k Hi Hd Hlen.
  - cbn in Hlen. lia.
  - cbn [insert_before]. destruct (decide (k = i)) as [->|Hne].
    + rewrite Nat.sub_diag. cbn [take drop app].
      destruct (decide (i = d)); [lia|]. cbn [app]. f_equal.
      replace (d - i)%nat with (S (d - S i)) by lia. cbn [take drop app].
      f_equal. apply insert_before_details; cbn in Hlen; lia.
    + destruct (decide (k = d)); [lia|]. cbn [app].
      replace (i - k)%nat with (S (i - S k)) by lia.
      replace (d - k)%nat with (S (d - S k)) by lia.
      cbn [take drop app]. f_equal. apply IH; cbn in Hlen; lia.
Qed.

(** The closing indices [parseAcf] reports are -1 or indices of lines. *)
Lemma parse_loop_idx_bound lines : forall i st,
  0 <= i ->
  -1 <= installedCloseLineIdx (info st) < i ->
  -1 <= detailsCloseLineIdx (info st) < i ->
  let st' := parse_loop i lines st in
  -1 <= installedCloseLineIdx (info st') < i + Z.of_nat (length lines)
  /\ -1 <= detailsCloseLineIdx (info st') < i + Z.of_nat (length lines).
Proof.
  induction lines as [|line lines IH]; intros i st Hi H1 H2; cbn zeta.
  - cbn. lia.
  - cbn [parse_loop length].
    assert (Hstep :
      -1 <= installedCloseLineIdx (info (parse_step i line st)) < i + 1
      /\ -1 <= detailsCloseLineIdx (info (parse_step i line st)) < i + 1).
    { unfold parse_step.
      repeat (case_bool_decide || case_match || cbn
              [info installedCloseLineIdx detailsCloseLineIdx]);
        simplify_eq; cbn [info installedCloseLineIdx detailsCloseLineIdx];
        lia. }
    destruct Hstep as [Ha Hb].
    destruct (IH (i + 1) (parse_step i line st)) as [Hc Hd]; lia.
Qed.

Lemma parseAcf_idx_bound lines :
  -1 <= installedCloseLineIdx (parseAcf lines) < Z.of_nat (length lines)
  /\ -1 <= detailsCloseLineIdx (parseAcf lines) < Z.of_nat (length lines).
Proof.
  unfold parseAcf.
  destruct (parse_loop_idx_bound lines 0 parse_init) as [H1 H2];
    cbn; try lia.
Qed.

End PatcherSplice.

Section PatcherSpliceOrder.
Import Str AcfPatcher.
Local Open Scope list_scope.

(** What [patch_main] writes when it patches. *)
Lemma patch_main_patched e acf_text :
  fst (patch_main e acf_text) = Patched ->
  exists entries,
    content_entries e = Some entries
    /\ 0 <= installedCloseLineIdx (parseAcf (read_lines acf_text))
    /\ 0 <= detailsCloseLineIdx (parseAcf (read_lines acf_text))
    /\ snd (patch_main e acf_text)
       = write_lines
           (splice (parseAcf (read_lines acf_text))
              (scan_content e (parseAcf (read_lines acf_text)) entries)
              (read_lines acf_text)).
Proof.
  unfold patch_main. cbn zeta.
  destruct (installedCloseLineIdx _ <? 0) eqn:Hi; [discriminate|].
  destruct (detailsCloseLineIdx _ <? 0) eqn:Hd; [discriminate|]. cbn [orb].
  destruct (content_entries e) as [entries|]; [|discriminate].
  destruct (scan_content e _ entries) as [|si toAdd] eqn:Hs; [discriminate|].
  destruct (negb (confirm_patch e)); [discriminate|].
  destruct (negb (backup_ok e) && negb (confirm_without_backup e));
    [discriminate|].
  destruct (negb (write_opens e)); [discriminate|].
  intros _. exists entries. rewrite Hs. cbn [snd].
  apply Z.ltb_ge in Hi, Hd. done.
Qed.

(** With the installed section closing above the details section, the
    patcher writes every input line unchanged, the installed entries
    immediately before the installed closing line and the details entries
    immediately before the details closing line. *)
Lemma splice_installed_first acf toAdd lines :
  0 <= installedCloseLineIdx acf < detailsCloseLineIdx acf ->
  detailsCloseLineIdx acf < Z.of_nat (length lines) ->
  splice acf toAdd lines = expected_splice acf toAdd lines.
Proof.
  intros Hi Hd. unfold splice, expected_splice. cbn zeta.
  replace (installedCloseLineIdx acf <? detailsCloseLineIdx acf) with true
    by (symmetry; apply Z.ltb_lt; lia).
  rewrite (guarded_insert (detailsInsert acf toAdd)).
  rewrite (guarded_insert (installedInsert acf toAdd)).
  set (iL := splitLines (installedInsert acf toAdd)).
  set (dL := splitLines (detailsInsert acf toAdd)).
  set (i := Z.to_nat (installedCloseLineIdx acf)).
  set (d := Z.to_nat (detailsCloseLineIdx acf)).
  assert (Hid : (i < d)%nat) by (unfold i, d; lia).
  assert (Hdl : (d < length lines)%nat) by (unfold d; lia).
  rewrite (insert_before_installed_first 0 i d) by lia.
  rewrite !Nat.sub_0_r. unfold insert_at. fold i d.
  rewrite take_app_le by (rewrite length_take; lia).
  rewrite take_take. replace (i `min` d)%nat with i by lia.
  rewrite drop_app_le by (rewrite length_take; lia).
  by rewrite <- ?app_assoc.
Qed.

(** The layout in which the splice is right -- when the patcher writes
    and the installed section closes above the details section, the
    manifest written is the input with the entries spliced in immediately
    before the two closing lines, every input line unchanged. *)
Theorem patch_main_installed_first e acf_text :
  fst (patch_main e acf_text) = Patched ->
  installedCloseLineIdx (parseAcf (read_lines acf_text))
  < detailsCloseLineIdx (parseAcf (read_lines acf_text)) ->
  exists entries,
    content_entries e = Some entries
    /\ snd (patch_main e acf_text)
       = write_lines
           (expected_splice (parseAcf (read_lines acf_text))
              (scan_content e (parseAcf (read_lines acf_text)) entries)
              (read_lines acf_text)).
Proof.
  intros (entries & He & Hi & Hd & ->)%patch_main_patched Hlt.
  exists entries. split; [done|].
  rewrite splice_installed_first; [done|lia|].
  apply parseAcf_idx_bound.
Qed.

Lemma patch_main_installed_first_witness :
  let e := patch_run (("333", skin_dir) :: content_111) in
  let text := write_lines manifest_installed_first in
  exists entries,
    content_entries e = Some entries
    /\ snd (patch_main e text)
       = write_lines
           (expected_splice (parseAcf (read_lines text))
              (scan_content e (parseAcf (read_lines text)) entries)
              (read_lines text)).
Proof.
  apply (patch_main_installed_first
           (patch_run (("333", skin_dir) :: content_111))
           (write_lines manifest_installed_first));
    vm_compute; reflexivity.
Defined.

(** C3, the failing layout -- in a manifest whose details section stands
    above its installed section ([manifest_details_first], closing lines 5
    and 8) with one new item 333, the patcher inserts the six installed
    lines before line 8 and then the eight details lines at index
    5 + 6 = 11, inside the installed entry it has just inserted: the details
    section stays empty, and the manifest written differs from the input
    with the entries spliced in before the two closing lines. *)
Theorem splice_details_first_misplaced :
  let lines := manifest_details_first in
  let text := write_lines lines in
  let acf := parseAcf (read_lines text) in
  let toAdd := scan_content (patch_run content_333) acf content_333 in
  let iL := splitLines (installedInsert acf toAdd) in
  let dL := splitLines (detailsInsert acf toAdd) in
  let out := read_lines (snd (patch_main (patch_run content_333) text)) in
  read_lines text = lines
  /\ detailsCloseLineIdx acf = 5 /\ installedCloseLineIdx acf = 8
  /\ length iL = 6%nat /\ length dL = 8%nat
  /\ fst (patch_main (patch_run content_333) text) = Patched
  /\ out = take 8 lines ++ take 3 iL ++ dL ++ drop 3 iL ++ drop 8 lines
  /\ expected_splice acf toAdd lines
     = take 5 lines ++ dL ++ drop 5 (take 8 lines) ++ iL ++ drop 8 lines
  /\ out ≠ expected_splice acf toAdd lines
  /\ detailsIds (parseAcf out) = ∅
  /\ detailsIds (parseAcf (expected_splice acf toAdd lines)) = {[ "333" ]}.
Proof.
  cbn zeta. repeat split; try (vm_compute; reflexivity).
  vm_compute. discriminate.
Qed.

(** C9, the failing layout -- a run in which every numeric, non-empty
    directory of the content folder is already listed in both sections
    queues nothing and leaves the manifest file as it was, byte for byte;
    but a first run does not always establish that.  On the manifest whose
    details section stands above its installed section, with the one item
    333 on disk and nothing new between the runs, the first run misplaces
    the details entry (the slip of the splice), so 333 is still missing
    from the details section; the second run queues it again and rewrites
    the file, which grows from 24 to 32 lines; only the third run finds
    the manifest up to date. *)
Theorem patcher_second_run_rewrites_details_first :
  (forall (e : patch_env) (acf_text : string) (entries : list (string * node)),
     content_entries e = Some entries ->
     (forall name dir,
        (name, dir) ∈ entries -> is_dir dir = true ->
        isAllDigits name = true -> folderHasFiles dir = true ->
        name ∈ installedIds (parseAcf (read_lines acf_text))
        /\ name ∈ detailsIds (parseAcf (read_lines acf_text))) ->
     scan_content e (parseAcf (read_lines acf_text)) entries = []
     /\ snd (patch_main e acf_text) = acf_text
     /\ (fst (patch_main e acf_text) = UpToDate
         \/ fst (patch_main e acf_text) = SectionsNotFound))
  /\ (let e := patch_run content_333 in
      let text0 := write_lines manifest_details_first in
      let run1 := patch_main e text0 in
      let run2 := patch_main e (snd run1) in
      let run3 := patch_main e (snd run2) in
      fst run1 = Patched
      /\ installedIds (parseAcf (read_lines (snd run1))) = {[ "333" ]}
      /\ detailsIds (parseAcf (read_lines (snd run1))) = ∅
      /\ fst run2 = Patched
      /\ snd run2 ≠ snd run1
      /\ length (read_lines text0) = 10%nat
      /\ length (read_lines (snd run1)) = 24%nat
      /\ length (read_lines (snd run2)) = 32%nat
      /\ run3 = (UpToDate, snd run2)).
Proof.
  split.
  - intros e acf_text entries Hentries Hall.
    pose proof (scan_content_all_listed e _ entries Hall) as Hscan.
    split; [exact Hscan|].
    unfold patch_main. rewrite Hentries. cbn zeta. rewrite Hscan.
    destruct (_ || _); cbn; auto.
  - cbn zeta. repeat split; try (vm_compute; reflexivity).
    vm_compute. discriminate.
Qed.

End PatcherSpliceOrder.

(** * Properties of the input parser *)

Section Matching.
Import Str Downloader.

Lemma lit_spec p : forall s r, lit p s = Some r <-> s = p +:+ r.
Proof.
  induction p as [|a p IH]; intros s r; cbn [lit].
  - rewrite append_nil_l. split; [by intros [= ->] | by intros ->].
  - rewrite append_cons. destruct s as [|b s].
    + split; discriminate.
    + destruct (Ascii.eqb_spec a b) as [->|Hne].
      * rewrite IH. split; [by intros -> | by intros [= ->]].
      * split; [discriminate|]. intros [= <- _]. done.
Qed.

Lemma lit_append p r : lit p (p +:+ r) = Some r.
Proof. by apply lit_spec. Qed.

Lemma all_chars_digits s : all_chars is_digit s = all_digits s.
Proof. induction s as [|c s IH]; [done|]. cbn. by rewrite IH. Qed.

Lemma span_spec f s d r :
  span f s = (d, r) -> s = d +:+ r /\ all_chars f d = true /\ stops f r.
Proof.
  revert d r. induction s as [|c s IH]; intros d r; cbn [span].
  - intros [= <- <-]. done.
  - destruct (f c) eqn:Hc.
    + destruct (span f s) as [d' r'] eqn:Hs. intros [= <- <-].
      destruct (IH d' r' eq_refl) as (-> & Hall & Hstop).
      rewrite append_cons. cbn [all_chars]. by rewrite Hc, Hall.
    + intros [= <- <-]. rewrite append_nil_l. done.
Qed.

Lemma span_append f d r :
  all_chars f d = true -> stops f r -> span f (d +:+ r) = (d, r).
Proof.
  induction d as [|c d IH]; intros Hall Hstop.
  - rewrite append_nil_l. destruct r as [|c r]; [done|].
    cbn [span]. cbn in Hstop. by rewrite Hstop.
  - rewrite append_cons. cbn [span]. cbn [all_chars] in Hall.
    apply andb_prop in Hall as [-> Hall]. by rewrite IH.
Qed.

(** The anchored pattern of [parseIds] matches exactly a quoted run at the
    head of the subject, and returns the run and what follows its closing
    quote. *)
Lemma idRe_at_spec s d rest :
  idRe_at s = Some (d, rest) <-> quoted_run_at s EmptyString d rest.
Proof.
  unfold idRe_at, quoted_run_at, is_identifier. rewrite append_nil_l.
  rewrite <- all_chars_digits. split.
  - destruct (lit (String QUOTE EmptyString) s) as [r1|] eqn:H1; [|done].
    cbn [mbind option_bind]. apply lit_spec in H1 as ->.
    destruct (span is_digit r1) as [d' r2] eqn:Hs.
    apply span_spec in Hs as (-> & Hall & _).
    destruct (_ && _) eqn:Hlen; [|done].
    destruct (lit (String QUOTE EmptyString) r2) as [r3|] eqn:H3; [|done].
    cbn [mbind option_bind]. apply lit_spec in H3 as ->.
    intros [= <- <-]. by rewrite Hlen, Hall.
  - intros [-> H]. apply andb_prop in H as [Hlen Hall].
    fold Q. rewrite lit_append. cbn [mbind option_bind].
    rewrite span_append by done. rewrite Hlen.
    by rewrite lit_append.
Qed.

(** [search] returns the match at the leftmost position that has one. *)
Lemma search_Some {A} (m : string -> option A) s r :
  search m s = Some r ->
  exists pre suf,
    s = pre +:+ suf /\ m suf = Some r
    /\ forall pre' suf',
         s = pre' +:+ suf' -> is_Some (m suf') ->
         (String.length pre <= String.length pre')%nat.
Proof.
  induction s as [|c s IH]; cbn [search].
  - destruct (m EmptyString) as [r'|] eqn:Hm; [|done]. intros [= ->].
    exists EmptyString, EmptyString. repeat split; [done|]. intros; cbn; lia.
  - destruct (m (String c s)) as [r'|] eqn:Hm.
    + intros [= ->]. exists EmptyString, (String c s).
      repeat split; [done|]. intros; cbn; lia.
    + intros (pre & suf & -> & Hsuf & Hleft)%IH.
      exists (String c pre), suf. rewrite append_cons. repeat split; [done|].
      intros pre' suf' E Hs. destruct pre' as [|c' pre'].
      * rewrite append_nil_l in E. subst suf'. rewrite Hm in Hs.
        by destruct Hs.
      * rewrite append_cons in E. injection E as -> E.
        cbn [String.length]. apply le_n_S. by eapply Hleft.
Qed.

Lemma search_None {A} (m : string -> option A) s :
  search m s = None -> forall pre suf, s = pre +:+ suf -> m suf = None.
Proof.
  induction s as [|c s IH]; cbn [search].
  - destruct (m EmptyString) eqn:Hm; [done|]. intros _ pre suf E.
    destruct pre; [|discriminate]. rewrite append_nil_l in E. by subst.
  - destruct (m (String c s)) eqn:Hm; [done|]. intros Hs pre suf E.
    destruct pre as [|c' pre].
    + rewrite append_nil_l in E. by subst.
    + rewrite append_cons in E. injection E as -> E. by eapply IH.
Qed.

(** A quoted run anywhere in the line is a match of the anchored pattern
    at its opening quote. *)
Lemma quoted_run_at_shift line pre id post :
  quoted_run_at line pre id post <->
  exists suf, line = pre +:+ suf /\ idRe_at suf = Some (id, post).
Proof.
  split.
  - intros [-> Hid]. eexists. split; [reflexivity|].
    apply idRe_at_spec. split; [|done]. by rewrite append_nil_l.
  - intros (suf & -> & [-> Hid]%idRe_at_spec).
    rewrite append_nil_l. by split.
Qed.

End Matching.

Section InputParser.
#[local] Set Warnings "-clear-no-such-hyp".
Import Str Downloader.

Lemma stops_quote r : stops is_digit (Q +:+ r).
Proof. reflexivity. Qed.

(** The loop of [parseIds] over one line yields the quoted runs of the line
    from left to right, as long as the fuel exceeds the length. *)
Lemma scan_fuel_quoted_runs n : forall s,
  (String.length s < n)%nat -> quoted_runs s (scan_fuel n s).
Proof.
  induction n as [|n IH]; intros s Hlen; [lia|].
  cbn [scan_fuel]. destruct (search idRe_at s) as [[d rest]|] eqn:Hs.
  - apply search_Some in Hs as (pre & suf & -> & Hm & Hleft).
    pose proof Hm as [E Hid]%idRe_at_spec. rewrite append_nil_l in E. subst suf.
    eapply (quoted_runs_next _ pre d rest).
    + by split.
    + intros pre' id' post' (suf' & E & Hm')%quoted_run_at_shift.
      eapply Hleft; [exact E|]. by rewrite Hm'.
    + apply IH. revert Hlen. rewrite !length_append. cbn. lia.
  - apply quoted_runs_none.
    intros pre id post (suf & E & Hm)%quoted_run_at_shift.
    by rewrite (search_None _ _ Hs pre suf E) in Hm.
Qed.

Lemma scan_fuel_stable n : forall m s,
  (String.length s < n)%nat -> (String.length s < m)%nat ->
  scan_fuel n s = scan_fuel m s.
Proof.
  induction n as [|n IH]; intros m s Hn Hm; [lia|].
  destruct m as [|m]; [lia|]. cbn [scan_fuel].
  destruct (search idRe_at s) as [[d rest]|] eqn:Hs; [|done].
  f_equal.
  apply search_Some in Hs as (pre & suf & -> & [E _]%idRe_at_spec & _).
  rewrite append_nil_l in E. subst suf.
  revert Hn Hm. rewrite !length_append. cbn. intros Hn Hm.
  apply IH; lia.
Qed.

(** The number of iterations [scan_line] allows is never exhausted: any
    larger bound gives the same list. *)
Lemma scan_fuel_enough n s :
  (String.length s < n)%nat -> scan_fuel n s = scan_line s.
Proof. intros Hn. apply scan_fuel_stable; lia. Qed.

Lemma scan_line_quoted_runs s : quoted_runs s (scan_line s).
Proof. apply scan_fuel_quoted_runs. lia. Qed.

Lemma append_length_inj (a a' b b' : string) :
  a +:+ b = a' +:+ b' -> String.length a = String.length a' ->
  a = a' /\ b = b'.
Proof.
  revert a'. induction a as [|c a IH]; intros [|c' a'] E Hl; try discriminate.
  - by rewrite !append_nil_l in E.
  - rewrite !append_cons in E. injection E as -> E.
    destruct (IH a' E) as [-> ->]; [by injection Hl|]. done.
Qed.

(** Two quoted runs that open at the same place are the same run. *)
Lemma quoted_run_at_unique line pre id post pre' id' post' :
  quoted_run_at line pre id post -> quoted_run_at line pre' id' post' ->
  String.length pre = String.length pre' ->
  pre = pre' /\ id = id' /\ post = post'.
Proof.
  intros [-> Hid] [E Hid'] Hl.
  apply append_length_inj in E as [<- E]; [|done].
  split; [done|]. apply append_inj_l in E.
  assert (Hs : span is_digit (id +:+ Q +:+ post) = (id, Q +:+ post)).
  { apply span_append; [|apply stops_quote].
    rewrite all_chars_digits. unfold is_identifier in Hid.
    by apply andb_prop in Hid as [_ ?]. }
  assert (Hs' : span is_digit (id' +:+ Q +:+ post') = (id', Q +:+ post')).
  { apply span_append; [|apply stops_quote].
    rewrite all_chars_digits. unfold is_identifier in Hid'.
    by apply andb_prop in Hid' as [_ ?]. }
  rewrite E, Hs' in Hs. injection Hs as -> Hq.
  by apply append_inj_l in Hq.
Qed.

(** A line has one list of quoted runs. *)
Lemma quoted_runs_functional line ids :
  quoted_runs line ids -> forall ids', quoted_runs line ids' -> ids = ids'.
Proof.
  induction 1 as [line Hnone | line pre id post ids Hrun Hleft Hrest IH];
    intros ids' H'.
  - destruct H' as [|line pre' id' post' ids' Hrun' _ _]; [done|].
    by destruct (Hnone _ _ _ Hrun').
  - destruct H' as [line Hnone |line pre' id' post' ids' Hrun' Hleft' Hrest'].
    + by destruct (Hnone _ _ _ Hrun).
    + pose proof (Hleft _ _ _ Hrun') as H1.
      pose proof (Hleft' _ _ _ Hrun) as H2.
      destruct (quoted_run_at_unique _ _ _ _ _ _ _ Hrun Hrun')
        as (-> & -> & ->); [lia|].
      f_equal. by apply IH.
Qed.

(** *** Keeping first occurrences *)

Lemma dedup_first_elem seen l x :
  x ∈ dedup_first seen l <-> x ∈ l /\ x ∉ seen.
Proof.
  revert seen. induction l as [|y l IH]; intros seen; cbn [dedup_first].
  - set_solver.
  - destruct (decide (y ∈ seen)) as [Hy|Hy].
    + rewrite IH. set_solver.
    + rewrite elem_of_cons, IH. split.
      * intros [->|[H1 H2]]; set_solver.
      * intros [[->|H1]%elem_of_cons H2]; [by left|].
        destruct (decide (x = y)) as [->|Hne]; [by left|].
        right. set_solver.
Qed.

Lemma dedup_first_NoDup seen l : NoDup (dedup_first seen l).
Proof.
  revert seen. induction l as [|y l IH]; intros seen; cbn [dedup_first].
  - constructor.
  - destruct (decide (y ∈ seen)); [apply IH|].
    constructor; [|apply IH]. rewrite dedup_first_elem. set_solver.
Qed.

Lemma first_index_elem x l : x ∈ l -> is_Some (first_index x l).
Proof.
  induction l as [|y l IH]; [by intros ?%elem_of_nil|].
  cbn [first_index]. destruct (decide (x = y)); [by eexists|].
  intros [->|H]%elem_of_cons; [done|].
  destruct (IH H) as [i ->]. by eexists.
Qed.

(** The identifiers kept stand in the order of their first occurrences. *)
Lemma dedup_first_order l : forall seen i j a b,
  dedup_first seen l !! i = Some a -> dedup_first seen l !! j = Some b ->
  (i < j)%nat ->
  exists ia ib,
    first_index a l = Some ia /\ first_index b l = Some ib /\ (ia < ib)%nat.
Proof.
  induction l as [|y l IH]; intros seen i j a b Ha Hb Hij; [done|].
  cbn [dedup_first] in Ha, Hb. cbn [first_index].
  destruct (decide (y ∈ seen)) as [Hy|Hy].
  - destruct (IH seen i j a b Ha Hb Hij) as (ia & ib & Hia & Hib & Hlt).
    assert (a ≠ y).
    { apply list_elem_of_lookup_2, dedup_first_elem in Ha. set_solver. }
    assert (b ≠ y).
    { apply list_elem_of_lookup_2, dedup_first_elem in Hb. set_solver. }
    rewrite !decide_False by done. rewrite Hia, Hib.
    exists (S ia), (S ib). repeat split; lia.
  - destruct j as [|j]; [lia|]. cbn in Hb.
    assert (Hby : b ≠ y).
    { apply list_elem_of_lookup_2, dedup_first_elem in Hb. set_solver. }
    rewrite (decide_False (P := b = y)) by done.
    destruct i as [|i].
    + cbn in Ha. injection Ha as <-. rewrite decide_True by done.
      destruct (first_index_elem b l) as [ib Hib].
      { apply list_elem_of_lookup_2, dedup_first_elem in Hb. tauto. }
      rewrite Hib. exists O, (S ib). repeat split; lia.
    + cbn in Ha.
      destruct (IH _ i j a b Ha Hb ltac:(lia)) as (ia & ib & Hia & Hib & Hlt).
      assert (a ≠ y).
      { apply list_elem_of_lookup_2, dedup_first_elem in Ha. set_solver. }
      rewrite decide_False by done. rewrite Hia, Hib.
      exists (S ia), (S ib). repeat split; lia.
Qed.

End InputParser.

Section InputParserMain.
#[local] Set Warnings "-clear-no-such-hyp".
Import Str Downloader.

(** C7 as stated fails: in the one-line text [shared_quote_text] the run
    654321 stands between two double quotes, yet only 123456 is returned:
    the quote that closes 123456 is consumed with it and cannot open the run
    that follows. *)
Lemma parseIds_misses_run_sharing_a_quote :
  getlines shared_quote_text = [shared_quote_text]
  /\ quoted_run_at shared_quote_text (Q +:+ "123456") "654321" EmptyString
  /\ parseIds (Some shared_quote_text) = ["123456"]
  /\ "654321" ∉ parseIds (Some shared_quote_text).
Proof.
  split; [vm_compute; reflexivity|]. split; [split; vm_compute; reflexivity|].
  assert (E : parseIds (Some shared_quote_text) = ["123456"])
    by (vm_compute; reflexivity).
  split; [exact E|]. rewrite E. intros Hin.
  apply list_elem_of_singleton in Hin. discriminate.
Qed.

(** Every identifier returned is a run of six to twelve digits that stands
    between double quotes in a line of the text. *)
Lemma quoted_runs_sound line ids :
  quoted_runs line ids ->
  forall id, id ∈ ids -> exists pre post, quoted_run_at line pre id post.
Proof.
  induction 1 as [line Hnone | line pre id0 post ids Hrun Hleft Hrest IH];
    intros id Hin.
  - by apply elem_of_nil in Hin.
  - apply elem_of_cons in Hin as [->|Hin]; [by eauto|].
    destruct (IH id Hin) as (pre' & post' & [-> Hid]).
    destruct Hrun as [-> _].
    exists (pre +:+ Q +:+ id0 +:+ Q +:+ pre'), post'. split; [|done].
    by rewrite !append_assoc.
Qed.

Lemma parseIds_sound text id :
  id ∈ parseIds (Some text) ->
  exists line pre post,
    line ∈ getlines text /\ quoted_run_at line pre id post.
Proof.
  cbn [parseIds]. intros [Hin _]%dedup_first_elem.
  apply list_elem_of_In, in_concat in Hin as (ids & Hids & Hin).
  apply in_map_iff in Hids as (line & <- & Hline).
  apply list_elem_of_In in Hin, Hline.
  destruct (quoted_runs_sound _ _ (scan_line_quoted_runs line) id Hin)
    as (pre & post & Hrun).
  by exists line, pre, post.
Qed.

(** What [parseIds] returns are identifiers. *)
Lemma parseIds_identifiers text :
  Forall (fun id => is_identifier id = true) (parseIds (Some text)).
Proof.
  apply Forall_forall. intros id (line & pre & post & _ & [_ Hid])%parseIds_sound.
  exact Hid.
Qed.

Lemma append_split (a b a' b' : string) :
  a +:+ b = a' +:+ b' -> (String.length a <= String.length a')%nat ->
  exists x, a' = a +:+ x /\ b = x +:+ b'.
Proof.
  revert a'. induction a as [|c a IH]; intros a' E Hl.
  - rewrite append_nil_l in E. exists a'. by rewrite append_nil_l.
  - destruct a' as [|c' a']; [cbn in Hl; lia|].
    rewrite !append_cons in E. injection E as -> E.
    destruct (IH a' E) as (x & -> & ->); [cbn in Hl; lia|].
    exists x. by rewrite append_cons.
Qed.

Lemma all_chars_append f (a b : string) :
  all_chars f (a +:+ b) = all_chars f a && all_chars f b.
Proof.
  induction a as [|c a IH]; [done|].
  rewrite append_cons. cbn [all_chars]. by rewrite IH, andb_assoc.
Qed.

(** A quoted run whose opening quote closes no other run is among the
    quoted runs of its line. *)
Lemma quoted_runs_complete line ids :
  quoted_runs line ids ->
  forall pre id post,
    quoted_run_at line pre id post -> opens_afresh pre -> id ∈ ids.
Proof.
  induction 1 as [line Hnone | line pre1 id1 post1 ids Hrun1 Hleft Hrest IH];
    intros pre id post Hrun Hfresh.
  - by destruct (Hnone _ _ _ Hrun).
  - pose proof (Hleft _ _ _ Hrun) as Hle.
    destruct (decide (String.length pre1 = String.length pre)) as [Heq|Hne].
    { destruct (quoted_run_at_unique _ _ _ _ _ _ _ Hrun1 Hrun Heq)
        as (_ & -> & _). apply list_elem_of_here. }
    apply list_elem_of_further.
    destruct Hrun1 as [-> Hid1]. destruct Hrun as [E Hid].
    destruct (append_split _ _ _ _ E Hle) as (x & -> & E1).
    destruct x as [|c x].
    { rewrite append_nil_r in Hne. done. }
    change (Q +:+ id1 +:+ Q +:+ post1) with (String QUOTE (id1 +:+ Q +:+ post1)) in E1.
    rewrite append_cons in E1. injection E1 as Hc E1. subst c.
    assert (Hd1 : all_chars is_digit id1 = true).
    { rewrite all_chars_digits. unfold is_identifier in Hid1.
      by apply andb_prop in Hid1 as [_ ?]. }
    destruct (le_lt_dec (String.length id1) (String.length x)) as [Hl|Hl].
    + destruct (append_split _ _ _ _ E1 Hl) as (z & -> & E2).
      destruct z as [|c z].
      { rewrite append_nil_r in Hfresh.
        specialize (Hfresh pre1 id1 eq_refl). congruence. }
      change (Q +:+ post1) with (String QUOTE post1) in E2.
      rewrite append_cons in E2. injection E2 as Hc E2. subst c post1.
      eapply (IH z id post); [by split|].
      intros pre0 id0 ->. apply (Hfresh (pre1 +:+ Q +:+ id1 +:+ Q +:+ pre0)).
      change (String QUOTE (id1 +:+ String QUOTE (pre0 +:+ Q +:+ id0)))
        with (Q +:+ id1 +:+ Q +:+ pre0 +:+ Q +:+ id0).
      by rewrite !append_assoc.
    + symmetry in E1.
      destruct (append_split _ _ _ _ E1 ltac:(lia)) as (y & -> & E2).
      destruct y as [|c y].
      { rewrite append_nil_r in Hl. lia. }
      change (Q +:+ id +:+ Q +:+ post) with (String QUOTE (id +:+ Q +:+ post)) in E2.
      rewrite append_cons in E2. injection E2 as Hc _. subst c.
      rewrite all_chars_append in Hd1. cbn in Hd1.
      by rewrite andb_false_r in Hd1.
Qed.

(** Every quoted run of the text whose opening quote closes no other run
    is returned. *)
Lemma parseIds_complete text line pre id post :
  line ∈ getlines text -> quoted_run_at line pre id post ->
  opens_afresh pre -> id ∈ parseIds (Some text).
Proof.
  intros Hline Hrun Hfresh. cbn [parseIds].
  apply dedup_first_elem. split; [|set_solver].
  apply list_elem_of_In, in_concat. exists (scan_line line). split.
  - apply in_map. by apply list_elem_of_In.
  - apply list_elem_of_In.
    eapply quoted_runs_complete; [apply scan_line_quoted_runs|done..].
Qed.

Lemma last_char_append (a b : string) :
  b ≠ EmptyString -> last_char (a +:+ b) = last_char b.
Proof.
  intros Hb. induction a as [|c a IH]; [done|].
  rewrite append_cons. cbn [last_char]. rewrite IH.
  destruct (a +:+ b) eqn:E; [|done].
  destruct a; [|discriminate]. rewrite append_nil_l in E. done.
Qed.

Lemma last_char_all_chars f s c :
  all_chars f s = true -> last_char s = Some c -> f c = true.
Proof.
  induction s as [|a s IH]; [done|]. cbn [all_chars last_char].
  intros [Ha Hs]%andb_prop. destruct s as [|a' s]; [by intros [= <-]|].
  by apply IH.
Qed.

(** After a character that is no digit a quote opens afresh. *)
Lemma opens_afresh_nondigit p c :
  is_digit c = false -> opens_afresh (p +:+ String c EmptyString).
Proof.
  intros Hc pre0 id0 E.
  destruct (is_identifier id0) eqn:Hid; [|reflexivity]. exfalso.
  unfold is_identifier in Hid. apply andb_prop in Hid as [Hlen Hd].
  apply andb_prop in Hlen as [Hlen _].
  rewrite <- all_chars_digits in Hd.
  assert (Hne : id0 ≠ EmptyString) by (intros ->; discriminate).
  apply (f_equal last_char) in E.
  rewrite last_char_append in E by discriminate.
  rewrite <- append_assoc, last_char_append in E by done.
  cbn [last_char] in E. symmetry in E.
  by rewrite (last_char_all_chars _ _ _ Hd E) in Hc.
Qed.

(** A run after a comma and a blank is found although a run stands before
    it on the line. *)
Example parseIds_second_run_found :
  "654321"
  ∈ parseIds (Some (Q +:+ "123456" +:+ Q +:+ ", " +:+ Q +:+ "654321" +:+ Q)).
Proof.
  apply (parseIds_complete _
           (Q +:+ "123456" +:+ Q +:+ ", " +:+ Q +:+ "654321" +:+ Q)
           (Q +:+ "123456" +:+ Q +:+ ", ") "654321" EmptyString).
  - vm_compute. apply list_elem_of_here.
  - split; vm_compute; reflexivity.
  - exact (opens_afresh_nondigit (Q +:+ "123456" +:+ Q +:+ ",") " " eq_refl).
Qed.

(** C7, amended -- for every input text the input parser returns runs of
    six to twelve digits that stand between double quotes in a line of the
    text, each exactly once; every such run whose opening quote is not at
    the same time the closing quote of another such run is returned; and
    there are lists [runs], one per line, each the quoted runs of its line
    taken from left to right without overlap (the leftmost quoted run, then
    the runs of what follows its closing quote, so that a quote never
    closes one run and opens the next), such that the identifiers returned
    are those of these lists, in the order in which they first appear from
    the first line to the last. *)
Theorem parseIds_quoted_runs_once_in_order (text : string) :
  NoDup (parseIds (Some text))
  /\ (forall id,
        id ∈ parseIds (Some text) ->
        exists line pre post,
          line ∈ getlines text /\ quoted_run_at line pre id post)
  /\ (forall line pre id post,
        line ∈ getlines text -> quoted_run_at line pre id post ->
        opens_afresh pre -> id ∈ parseIds (Some text))
  /\ exists runs : list (list string),
       Forall2 quoted_runs (getlines text) runs
       /\ (forall id, id ∈ parseIds (Some text) <-> id ∈ concat runs)
       /\ (forall i j a b,
             parseIds (Some text) !! i = Some a ->
             parseIds (Some text) !! j = Some b ->
             (i < j)%nat ->
             exists ia ib,
               first_index a (concat runs) = Some ia
               /\ first_index b (concat runs) = Some ib
               /\ (ia < ib)%nat).
Proof.
  split; [apply dedup_first_NoDup|].
  split; [apply parseIds_sound|].
  split; [apply parseIds_complete|].
  exists (map scan_line (getlines text)). cbn [parseIds]. repeat split.
  - induction (getlines text) as [|line lines IH]; cbn [map]; constructor;
      [apply scan_line_quoted_runs | exact IH].
  - intros [H _]%dedup_first_elem. exact H.
  - intros H. apply dedup_first_elem. split; [exact H|]. set_solver.
  - intros i j a b. apply dedup_first_order.
Qed.

End InputParserMain.

(** * Two runs of the manifest patcher *)

Section Lines.
Import Str AcfPatcher.
Local Open Scope list_scope.

Lemma write_lines_cons l ls : write_lines (l :: ls) = l +:+ nl +:+ write_lines ls.
Proof. reflexivity. Qed.

Lemma write_lines_app ls ls' :
  write_lines (ls ++ ls') = write_lines ls +:+ write_lines ls'.
Proof.
  induction ls as [|l ls IH]; [done|].
  cbn [app]. rewrite !write_lines_cons, IH. by rewrite !append_assoc.
Qed.

Lemma getlines_line a rest :
  no_lf a = true -> getlines (a +:+ nl +:+ rest) = a :: getlines rest.
Proof.
  induction a as [|c a IH]; intros Ha.
  - rewrite append_nil_l. unfold nl. rewrite append_cons, append_nil_l.
    cbn [getlines]. by rewrite Ascii.eqb_refl.
  - rewrite append_cons. cbn [getlines]. cbn in Ha.
    apply andb_prop in Ha as [Hc Ha]. apply negb_true_iff in Hc.
    rewrite Hc, (IH Ha). done.
Qed.

(** Lines written and read back are the same lines. *)
Lemma getlines_write_lines ls :
  Forall (fun l => no_lf l = true) ls -> getlines (write_lines ls) = ls.
Proof.
  induction 1 as [|l ls Hl _ IH]; [done|].
  by rewrite write_lines_cons, getlines_line, IH.
Qed.

Lemma getlines_no_lf s : Forall (fun l => no_lf l = true) (getlines s).
Proof.
  induction s as [|c s IH]; [constructor|]. cbn [getlines].
  destruct (Ascii.eqb c LF) eqn:Hc; [by constructor|].
  destruct (getlines s) as [|l ls]; constructor.
  - cbn. by rewrite Hc.
  - constructor.
  - cbn. rewrite Hc. cbn. by apply Forall_cons in IH as [? _].
  - by apply Forall_cons in IH as [_ ?].
Qed.

Lemma strip_cr_no_lf l : no_lf l = true -> no_lf (strip_cr l) = true.
Proof.
  induction l as [|c l IH]; [done|]. cbn [strip_cr]. intros H.
  cbn in H. apply andb_prop in H as [Hc H].
  destruct l as [|c' l].
  - destruct (Ascii.eqb c CR); [done|]. cbn. by rewrite Hc.
  - cbn [no_lf all_chars] in *. rewrite Hc. cbn [andb]. by apply IH.
Qed.

Lemma read_lines_no_lf text : Forall (fun l => no_lf l = true) (read_lines text).
Proof.
  unfold read_lines. apply Forall_fmap.
  eapply Forall_impl; [apply getlines_no_lf|]. intros l. apply strip_cr_no_lf.
Qed.

(** *** Trimming does not see a stripped carriage return *)

Lemma trim_right_strip_cr s : trim_right (strip_cr s) = trim_right s.
Proof.
  induction s as [|c s IH]; [done|]. destruct s as [|c' s].
  - cbn [strip_cr]. destruct (Ascii.eqb_spec c CR) as [->|Hc]; [|done].
    reflexivity.
  - change (strip_cr (String c (String c' s)))
      with (String c (strip_cr (String c' s))).
    cbn [trim_right] in *. by rewrite IH.
Qed.

Lemma is_space_CR : is_space CR = true.
Proof. reflexivity. Qed.

Lemma trim_left_strip_cr s : trim_left (strip_cr s) = strip_cr (trim_left s).
Proof.
  induction s as [|c s IH]; [done|]. destruct s as [|c' s].
  - cbn [strip_cr trim_left].
    destruct (Ascii.eqb_spec c CR) as [->|Hc].
    + reflexivity.
    + cbn [trim_left]. destruct (is_space c); [done|].
      cbn [strip_cr]. by rewrite (proj2 (Ascii.eqb_neq _ _) Hc).
  - change (strip_cr (String c (String c' s)))
      with (String c (strip_cr (String c' s))).
    cbn [trim_left]. destruct (is_space c) eqn:Hc.
    + exact IH.
    + reflexivity.
Qed.

Lemma trimStr_strip_cr s : trimStr (strip_cr s) = trimStr s.
Proof.
  unfold trimStr. by rewrite trim_left_strip_cr, trim_right_strip_cr.
Qed.

Lemma parse_step_strip_cr i l st :
  parse_step i (strip_cr l) st = parse_step i l st.
Proof. unfold parse_step. by rewrite trimStr_strip_cr. Qed.

Lemma parse_loop_strip_cr ls : forall i st,
  parse_loop i (map strip_cr ls) st = parse_loop i ls st.
Proof.
  induction ls as [|l ls IH]; intros i st; [done|].
  cbn [map parse_loop]. by rewrite parse_step_strip_cr, IH.
Qed.

Lemma parse_loop_app ls ls' : forall i st,
  parse_loop i (ls ++ ls') st
  = parse_loop (i + Z.of_nat (length ls)) ls' (parse_loop i ls st).
Proof.
  induction ls as [|l ls IH]; intros i st.
  - cbn. by rewrite Z.add_0_r.
  - cbn [app parse_loop length]. rewrite IH. f_equal. lia.
Qed.

End Lines.

Section ParserStates.
Import Str AcfPatcher.
Local Open Scope list_scope.
#[local] Set Warnings "-clear-no-such-hyp".

Lemma state_le_refl st : state_le st st.
Proof. unfold state_le. set_solver. Qed.

(** Section and depth evolve in the same way whatever the identifiers
    known and the line numbers are. *)
Lemma parse_step_mono i i' l st st' :
  state_le st st' -> state_le (parse_step i l st) (parse_step i' l st').
Proof.
  unfold state_le. intros (Hc & Hd & H1 & H2).
  unfold parse_step. rewrite <- Hc, <- Hd.
  repeat (case_bool_decide || case_match
          || cbn [info cur depth installedIds detailsIds]);
    simplify_eq; cbn [info cur depth installedIds detailsIds];
    repeat split; try done; try congruence; set_solver.
Qed.

Lemma parse_loop_mono ls : forall i i' st st',
  state_le st st' -> state_le (parse_loop i ls st) (parse_loop i' ls st').
Proof.
  induction ls as [|l ls IH]; intros i i' st st' H; [done|].
  cbn [parse_loop]. apply IH. by apply parse_step_mono.
Qed.

(** The parser never forgets an identifier. *)
Lemma parse_step_grows i l st :
  installedIds (info st) ⊆ installedIds (info (parse_step i l st))
  /\ detailsIds (info st) ⊆ detailsIds (info (parse_step i l st)).
Proof.
  unfold parse_step.
  repeat (case_bool_decide || case_match
          || cbn [info cur depth installedIds detailsIds]);
    simplify_eq; cbn [info cur depth installedIds detailsIds];
    split; set_solver.
Qed.

Lemma parse_loop_grows ls : forall i st,
  installedIds (info st) ⊆ installedIds (info (parse_loop i ls st))
  /\ detailsIds (info st) ⊆ detailsIds (info (parse_loop i ls st)).
Proof.
  induction ls as [|l ls IH]; intros i st; [done|].
  cbn [parse_loop]. destruct (IH (i + 1) (parse_step i l st)) as [H1 H2].
  destruct (parse_step_grows i l st) as [H3 H4]. split; set_solver.
Qed.

(** A closing index is recorded at a closing brace met at depth 2 in the
    section. *)
Lemma parse_step_close i l st :
  (installedCloseLineIdx (info (parse_step i l st))
   = installedCloseLineIdx (info st)
   \/ installedCloseLineIdx (info (parse_step i l st)) = i
      /\ cur st = Sec.Installed /\ depth st = 2 /\ trimStr l = "}")
  /\ (detailsCloseLineIdx (info (parse_step i l st))
      = detailsCloseLineIdx (info st)
      \/ detailsCloseLineIdx (info (parse_step i l st)) = i
         /\ cur st = Sec.Details /\ depth st = 2 /\ trimStr l = "}").
Proof.
  unfold parse_step.
  repeat (case_bool_decide || case_match
          || cbn [info cur depth installedCloseLineIdx detailsCloseLineIdx]);
    simplify_eq;
    cbn [info cur depth installedCloseLineIdx detailsCloseLineIdx];
    split; auto; right; repeat split; try done; lia.
Qed.

Lemma parse_step_sets_close i l st :
  trimStr l = "}" -> depth st = 2 ->
  (cur st = Sec.Installed ->
   installedCloseLineIdx (info (parse_step i l st)) = i)
  /\ (cur st = Sec.Details ->
      detailsCloseLineIdx (info (parse_step i l st)) = i).
Proof.
  intros Ht Hd. unfold parse_step. rewrite Ht, Hd.
  rewrite (bool_decide_eq_false_2 ("}" = "{")) by discriminate.
  rewrite (bool_decide_eq_true_2 ("}" = "}")) by done.
  change (2 =? 2) with true. cbn iota.
  split; intros ->; reflexivity.
Qed.

(** A closing index that is set stays set. *)
Lemma parse_loop_idx_nonneg ls : forall k st,
  0 <= k ->
  (0 <= installedCloseLineIdx (info st) ->
   0 <= installedCloseLineIdx (info (parse_loop k ls st)))
  /\ (0 <= detailsCloseLineIdx (info st) ->
      0 <= detailsCloseLineIdx (info (parse_loop k ls st))).
Proof.
  induction ls as [|l ls IH]; intros k st Hk; [done|].
  cbn [parse_loop]. destruct (IH (k + 1) (parse_step k l st)) as [Hi Hd]; [lia|].
  destruct (parse_step_close k l st) as [Si Sd].
  split; intros H0; [apply Hi | apply Hd].
  - destruct Si as [-> | (-> & _)]; lia.
  - destruct Sd as [-> | (-> & _)]; lia.
Qed.

Lemma parse_loop_close ls : forall k st,
  (installedCloseLineIdx (info (parse_loop k ls st))
   = installedCloseLineIdx (info st)
   \/ exists j l, ls !! j = Some l /\ trimStr l = "}"
        /\ installedCloseLineIdx (info (parse_loop k ls st)) = k + Z.of_nat j
        /\ cur (parse_loop k (take j ls) st) = Sec.Installed
        /\ depth (parse_loop k (take j ls) st) = 2)
  /\ (detailsCloseLineIdx (info (parse_loop k ls st))
      = detailsCloseLineIdx (info st)
      \/ exists j l, ls !! j = Some l /\ trimStr l = "}"
           /\ detailsCloseLineIdx (info (parse_loop k ls st)) = k + Z.of_nat j
           /\ cur (parse_loop k (take j ls) st) = Sec.Details
           /\ depth (parse_loop k (take j ls) st) = 2).
Proof.
  induction ls as [|l ls IH]; intros k st; [by split; left|].
  cbn [parse_loop length].
  destruct (IH (k + 1) (parse_step k l st)) as [Hi Hd].
  destruct (parse_step_close k l st) as [Si Sd]. split.
  - destruct Hi as [Hi | (j & l' & Hj & Ht & Hidx & Hc & Hdp)].
    + rewrite Hi. destruct Si as [Si | (Si & Hc & Hdp & Ht)]; [by left|].
      right. exists O, l. cbn [take parse_loop].
      repeat split; [done | lia | done | done].
    + right. exists (S j), l'. cbn [take parse_loop].
      repeat split; [done | done | lia | done | done].
  - destruct Hd as [Hd | (j & l' & Hj & Ht & Hidx & Hc & Hdp)].
    + rewrite Hd. destruct Sd as [Sd | (Sd & Hc & Hdp & Ht)]; [by left|].
      right. exists O, l. cbn [take parse_loop].
      repeat split; [done | lia | done | done].
    + right. exists (S j), l'. cbn [take parse_loop].
      repeat split; [done | done | lia | done | done].
Qed.

(** The line and the state in which [parseAcf] meets the closing lines it
    reports. *)
Lemma parseAcf_close_states lines :
  (0 <= installedCloseLineIdx (parseAcf lines) ->
   let i := Z.to_nat (installedCloseLineIdx (parseAcf lines)) in
   let st := parse_loop 0 (take i lines) parse_init in
   cur st = Sec.Installed /\ depth st = 2
   /\ exists l, lines !! i = Some l /\ trimStr l = "}")
  /\ (0 <= detailsCloseLineIdx (parseAcf lines) ->
      let d := Z.to_nat (detailsCloseLineIdx (parseAcf lines)) in
      let st := parse_loop 0 (take d lines) parse_init in
      cur st = Sec.Details /\ depth st = 2
      /\ exists l, lines !! d = Some l /\ trimStr l = "}").
Proof.
  unfold parseAcf.
  destruct (parse_loop_close lines 0 parse_init) as [Hi Hd]. split.
  - intros H0. destruct Hi as [Hi | (j & l & Hj & Ht & Hidx & Hc & Hdp)].
    + rewrite Hi in H0. cbn in H0. lia.
    + rewrite Hidx. cbn zeta. replace (Z.to_nat (0 + Z.of_nat j)) with j by lia.
      eauto.
  - intros H0. destruct Hd as [Hd | (j & l & Hj & Ht & Hidx & Hc & Hdp)].
    + rewrite Hd in H0. cbn in H0. lia.
    + rewrite Hidx. cbn zeta. replace (Z.to_nat (0 + Z.of_nat j)) with j by lia.
      eauto.
Qed.

End ParserStates.

Section EntryLines.
Import Str AcfPatcher.
Local Open Scope list_scope.

Lemma all_chars_impl (f g : ascii -> bool) s :
  (forall c, f c = true -> g c = true) ->
  all_chars f s = true -> all_chars g s = true.
Proof.
  intros Hfg. induction s as [|c s IH]; [done|]. cbn [all_chars].
  intros [Hc Hs]%andb_prop. by rewrite (Hfg c Hc), IH.
Qed.

Lemma no_lf_append a b : no_lf (a +:+ b) = no_lf a && no_lf b.
Proof. apply all_chars_append. Qed.

Lemma digit_not_lf c : is_digit c = true -> negb (Ascii.eqb c LF) = true.
Proof.
  intros H. destruct (Ascii.eqb_spec c LF) as [->|]; [|done].
  vm_compute in H. discriminate.
Qed.

Lemma isAllDigits_all_digits s : isAllDigits s = true -> all_digits s = true.
Proof. unfold isAllDigits. by intros [_ ?]%andb_prop. Qed.

Lemma digits_no_lf s : all_digits s = true -> no_lf s = true.
Proof.
  rewrite <- all_chars_digits. apply all_chars_impl, digit_not_lf.
Qed.

Lemma pretty_N_char_number x : is_number_char (pretty_N_char x) = true.
Proof. unfold pretty_N_char. by repeat case_match. Qed.

Lemma pretty_N_go_number x : forall s,
  all_chars is_number_char s = true ->
  all_chars is_number_char (pretty_N_go x s) = true.
Proof.
  induction (N.lt_wf_0 x) as [x _ IH]; intros s Hs.
  destruct (decide (x = 0)%N) as [->|Hx]; [by rewrite pretty_N_go_0|].
  rewrite pretty_N_go_step by lia. apply IH.
  - apply N.div_lt; lia.
  - cbn [all_chars]. by rewrite pretty_N_char_number.
Qed.

Lemma pretty_Z_number (z : Z) : all_chars is_number_char (pretty z) = true.
Proof.
  destruct z as [|p|p].
  - reflexivity.
  - unfold pretty, pretty_Z, pretty, pretty_positive, pretty, pretty_N.
    case_decide; [done|]. by apply pretty_N_go_number.
  - unfold pretty, pretty_Z. rewrite all_chars_append.
    unfold pretty, pretty_positive, pretty, pretty_N.
    case_decide; [done|]. by rewrite pretty_N_go_number.
Qed.

Lemma pretty_Z_no_lf (z : Z) : no_lf (pretty z) = true.
Proof.
  eapply all_chars_impl; [|apply pretty_Z_number].
  intros c Hc. destruct (Ascii.eqb_spec c LF) as [->|]; [|done].
  vm_compute in Hc. discriminate.
Qed.

Lemma no_lf_quoted s : no_lf s = true -> no_lf (quoted s) = true.
Proof.
  intros H. unfold quoted. rewrite append_cons. cbn [no_lf all_chars].
  fold (no_lf (s +:+ String QUOTE "")). rewrite no_lf_append, H. reflexivity.
Qed.

(** The lines of an entry hold no line feed. *)
Lemma installed_entry_lines_no_lf si :
  isAllDigits (id si) = true ->
  Forall (fun l => no_lf l = true) (installed_entry_lines si).
Proof.
  intros Hid%isAllDigits_all_digits%digits_no_lf.
  unfold installed_entry_lines.
  repeat constructor;
    rewrite ?no_lf_append, ?no_lf_quoted; auto using pretty_Z_no_lf.
Qed.

Lemma details_entry_lines_no_lf si :
  isAllDigits (id si) = true ->
  Forall (fun l => no_lf l = true) (details_entry_lines si).
Proof.
  intros Hid%isAllDigits_all_digits%digits_no_lf.
  unfold details_entry_lines.
  repeat constructor;
    rewrite ?no_lf_append, ?no_lf_quoted; auto using pretty_Z_no_lf.
Qed.

(** The builders write the lines of the entry. *)
Lemma buildInstalledEntry_lines si :
  buildInstalledEntry si = write_lines (installed_entry_lines si).
Proof.
  unfold buildInstalledEntry, installed_entry_lines.
  cbn [write_lines fold_right]. by rewrite ?append_assoc, ?append_nil_r.
Qed.

Lemma buildDetailsEntry_lines si :
  buildDetailsEntry si = write_lines (details_entry_lines si).
Proof.
  unfold buildDetailsEntry, details_entry_lines.
  cbn [write_lines fold_right]. by rewrite ?append_assoc, ?append_nil_r.
Qed.

End EntryLines.

Section EntryParsing.
Import Str AcfPatcher.
Local Open Scope list_scope.
#[local] Set Warnings "-clear-no-such-hyp".

Lemma trim_left_tab2 s : trim_left (tab2 +:+ s) = trim_left s.
Proof. reflexivity. Qed.

Lemma trim_left_tab3 s : trim_left (tab3 +:+ s) = trim_left s.
Proof. reflexivity. Qed.

Lemma trim_left_quoted s r : trim_left (quoted s +:+ r) = quoted s +:+ r.
Proof. reflexivity. Qed.

Lemma trim_right_head c s :
  is_space c = false -> exists s', trim_right (String c s) = String c s'.
Proof.
  intros Hc. cbn [trim_right]. rewrite Hc.
  destruct (trim_right s); by eexists.
Qed.

Lemma trim_right_last s c :
  is_space c = false ->
  trim_right (s +:+ String c EmptyString) = s +:+ String c EmptyString.
Proof.
  intros Hc. induction s as [|a s IH].
  - rewrite append_nil_l. cbn. by rewrite Hc.
  - rewrite append_cons. cbn [trim_right]. rewrite IH.
    destruct s; reflexivity.
Qed.

Lemma digit_not_quote c : is_digit c = true -> Ascii.eqb c QUOTE = false.
Proof.
  intros H. destruct (Ascii.eqb_spec c QUOTE) as [->|]; [|done].
  vm_compute in H. discriminate.
Qed.

Lemma before_quote_digits name r :
  all_digits name = true ->
  before_quote (name +:+ String QUOTE r) = Some name.
Proof.
  induction name as [|c name IH]; intros H.
  - rewrite append_nil_l. cbn. by rewrite Ascii.eqb_refl.
  - rewrite append_cons. cbn [before_quote]. cbn in H.
    apply andb_prop in H as [Hc H]. rewrite (digit_not_quote c Hc), (IH H).
    reflexivity.
Qed.

Lemma trimStr_key_line name : trimStr (tab2 +:+ quoted name) = quoted name.
Proof.
  unfold trimStr. rewrite trim_left_tab2.
  rewrite <- (append_nil_r (quoted name)) at 1. rewrite trim_left_quoted.
  rewrite append_nil_r. unfold quoted.
  change (String QUOTE name +:+ String QUOTE EmptyString)
    with ((String QUOTE name) +:+ String QUOTE EmptyString).
  by apply trim_right_last.
Qed.

Lemma firstQuotedToken_quoted name :
  all_digits name = true -> firstQuotedToken (quoted name) = name.
Proof.
  intros H. unfold firstQuotedToken, quoted. rewrite append_cons.
  cbn [after_quote]. rewrite Ascii.eqb_refl.
  by rewrite before_quote_digits.
Qed.

(** The first line of an entry, met at depth 2, adds the identifier to the
    set of the current section. *)
Lemma parse_step_key_line i name st :
  depth st = 2 -> isAllDigits name = true ->
  parse_step i (tab2 +:+ quoted name) st
  = match cur st with
    | Sec.Installed =>
        mkParse
          (mkAcfInfo ({[name]} ∪ installedIds (info st)) (detailsIds (info st))
             (installedCloseLineIdx (info st)) (detailsCloseLineIdx (info st)))
          (cur st) (depth st)
    | Sec.Details =>
        mkParse
          (mkAcfInfo (installedIds (info st)) ({[name]} ∪ detailsIds (info st))
             (installedCloseLineIdx (info st)) (detailsCloseLineIdx (info st)))
          (cur st) (depth st)
    | _ => st
    end.
Proof.
  intros Hd Hname. unfold parse_step. rewrite trimStr_key_line.
  rewrite firstQuotedToken_quoted by by apply isAllDigits_all_digits.
  rewrite Hname, Hd.
  assert (Hne : name ≠ EmptyString).
  { intros ->. discriminate. }
  rewrite (bool_decide_eq_false_2 (quoted name = "{")) by (unfold quoted; discriminate).
  rewrite (bool_decide_eq_false_2 (quoted name = "}")) by (unfold quoted; discriminate).
  rewrite (bool_decide_eq_false_2 (name = EmptyString)) by done.
  unfold quoted. rewrite append_cons. rewrite Ascii.eqb_refl.
  reflexivity.
Qed.

Lemma parse_step_open_line i st :
  parse_step i (tab2 +:+ "{") st = mkParse (info st) (cur st) (depth st + 1).
Proof. reflexivity. Qed.

Lemma parse_step_close_line i st :
  depth st = 3 ->
  parse_step i (tab2 +:+ "}") st = mkParse (info st) (cur st) 2.
Proof.
  intros Hd. unfold parse_step.
  change (trimStr (tab2 +:+ "}")) with "}".
  rewrite (bool_decide_eq_false_2 ("}" = "{")) by discriminate.
  rewrite (bool_decide_eq_true_2 ("}" = "}")) by done.
  rewrite Hd. reflexivity.
Qed.

(** A key-value line inside an item block changes nothing. *)
Lemma parse_step_kv_line i key rest st :
  depth st = 3 ->
  parse_step i (tab3 +:+ quoted key +:+ rest) st = st.
Proof.
  intros Hd. unfold parse_step.
  assert (Ht : exists s',
    trimStr (tab3 +:+ quoted key +:+ rest) = String QUOTE s').
  { unfold trimStr. rewrite trim_left_tab3, trim_left_quoted.
    unfold quoted. rewrite !append_cons. by apply trim_right_head. }
  destruct Ht as [s' ->].
  rewrite (bool_decide_eq_false_2 (String QUOTE s' = "{")) by discriminate.
  rewrite (bool_decide_eq_false_2 (String QUOTE s' = "}")) by discriminate.
  rewrite Ascii.eqb_refl. cbn [negb]. rewrite Hd.
  case_bool_decide; [done|]. reflexivity.
Qed.

(** An installed entry met at depth 2 in the installed section adds its
    identifier there and leaves section and depth as they were. *)
Lemma parse_installed_entry k si st :
  depth st = 2 -> cur st = Sec.Installed -> isAllDigits (id si) = true ->
  let st' := parse_loop k (installed_entry_lines si) st in
  depth st' = 2 /\ cur st' = Sec.Installed
  /\ id si ∈ installedIds (info st')
  /\ installedIds (info st) ⊆ installedIds (info st')
  /\ detailsIds (info st') = detailsIds (info st).
Proof.
  intros Hd Hc Hid. unfold installed_entry_lines. cbn [parse_loop]. cbn zeta.
  rewrite (parse_step_key_line k (id si) st Hd Hid), Hc.
  rewrite parse_step_open_line. cbn [info cur depth]. rewrite Hd.
  repeat match goal with
  | |- context [parse_step ?i (tab3 +:+ quoted ?key +:+ ?rest)
                  (mkParse ?a ?b ?c)] =>
      rewrite (parse_step_kv_line i key rest (mkParse a b c)) by reflexivity
  end.
  rewrite parse_step_close_line by reflexivity.
  cbn [info cur depth installedIds detailsIds].
  repeat split; set_solver.
Qed.

Lemma parse_details_entry k si st :
  depth st = 2 -> cur st = Sec.Details -> isAllDigits (id si) = true ->
  let st' := parse_loop k (details_entry_lines si) st in
  depth st' = 2 /\ cur st' = Sec.Details
  /\ id si ∈ detailsIds (info st')
  /\ detailsIds (info st) ⊆ detailsIds (info st')
  /\ installedIds (info st') = installedIds (info st).
Proof.
  intros Hd Hc Hid. unfold details_entry_lines. cbn [parse_loop]. cbn zeta.
  rewrite (parse_step_key_line k (id si) st Hd Hid), Hc.
  rewrite parse_step_open_line. cbn [info cur depth]. rewrite Hd.
  repeat match goal with
  | |- context [parse_step ?i (tab3 +:+ quoted ?key +:+ ?rest)
                  (mkParse ?a ?b ?c)] =>
      rewrite (parse_step_kv_line i key rest (mkParse a b c)) by reflexivity
  end.
  rewrite parse_step_close_line by reflexivity.
  cbn [info cur depth installedIds detailsIds].
  repeat split; set_solver.
Qed.

End EntryParsing.

Section InsertedLines.
Import Str AcfPatcher.
Local Open Scope list_scope.
#[local] Set Warnings "-clear-no-such-hyp".

(** The insertion strings are the inserted lines, written out. *)
Lemma installedInsert_lines acf toAdd :
  installedInsert acf toAdd = write_lines (installed_lines acf toAdd).
Proof.
  unfold installedInsert, installed_lines.
  rewrite <- (append_nil_l (write_lines _)). generalize EmptyString.
  induction toAdd as [|si toAdd IH]; intros acc.
  - cbn. by rewrite append_nil_r.
  - cbn [fold_left map concat]. rewrite IH, write_lines_app.
    case_bool_decide; [done|].
    by rewrite buildInstalledEntry_lines, append_assoc.
Qed.

Lemma detailsInsert_lines acf toAdd :
  detailsInsert acf toAdd = write_lines (details_lines acf toAdd).
Proof.
  unfold detailsInsert, details_lines.
  rewrite <- (append_nil_l (write_lines _)). generalize EmptyString.
  induction toAdd as [|si toAdd IH]; intros acc.
  - cbn. by rewrite append_nil_r.
  - cbn [fold_left map concat]. rewrite IH, write_lines_app.
    case_bool_decide; [done|].
    by rewrite buildDetailsEntry_lines, append_assoc.
Qed.

Lemma installed_lines_no_lf acf toAdd :
  Forall (fun si => isAllDigits (id si) = true) toAdd ->
  Forall (fun l => no_lf l = true) (installed_lines acf toAdd).
Proof.
  unfold installed_lines. induction 1 as [|si toAdd Hsi _ IH]; [constructor|].
  cbn [map concat]. apply Forall_app. split; [|exact IH].
  case_bool_decide; [constructor|]. by apply installed_entry_lines_no_lf.
Qed.

Lemma details_lines_no_lf acf toAdd :
  Forall (fun si => isAllDigits (id si) = true) toAdd ->
  Forall (fun l => no_lf l = true) (details_lines acf toAdd).
Proof.
  unfold details_lines. induction 1 as [|si toAdd Hsi _ IH]; [constructor|].
  cbn [map concat]. apply Forall_app. split; [|exact IH].
  case_bool_decide; [constructor|]. by apply details_entry_lines_no_lf.
Qed.

Lemma splitLines_installedInsert acf toAdd :
  Forall (fun si => isAllDigits (id si) = true) toAdd ->
  splitLines (installedInsert acf toAdd)
  = map strip_cr (installed_lines acf toAdd).
Proof.
  intros H. unfold splitLines, read_lines.
  by rewrite installedInsert_lines, getlines_write_lines
    by by apply installed_lines_no_lf.
Qed.

Lemma splitLines_detailsInsert acf toAdd :
  Forall (fun si => isAllDigits (id si) = true) toAdd ->
  splitLines (detailsInsert acf toAdd)
  = map strip_cr (details_lines acf toAdd).
Proof.
  intros H. unfold splitLines, read_lines.
  by rewrite detailsInsert_lines, getlines_write_lines
    by by apply details_lines_no_lf.
Qed.

(** The installed lines, met at depth 2 in the installed section, add the
    identifiers the section lacked. *)
Lemma parse_installed_lines acf toAdd : forall k st,
  depth st = 2 -> cur st = Sec.Installed ->
  Forall (fun si => isAllDigits (id si) = true) toAdd ->
  let st' := parse_loop k (installed_lines acf toAdd) st in
  depth st' = 2 /\ cur st' = Sec.Installed
  /\ (forall si, si ∈ toAdd -> id si ∉ installedIds acf ->
      id si ∈ installedIds (info st'))
  /\ installedIds (info st) ⊆ installedIds (info st')
  /\ detailsIds (info st') = detailsIds (info st).
Proof.
  unfold installed_lines.
  induction toAdd as [|si toAdd IH]; intros k st Hd Hc Hall; cbn zeta.
  - cbn. repeat split; [done|done|set_solver|done].
  - apply Forall_cons in Hall as [Hsi Hall].
    cbn [map concat]. rewrite parse_loop_app.
    set (mid := parse_loop k
                  (if bool_decide (id si ∈ installedIds acf) then []
                   else installed_entry_lines si) st).
    assert (Hmid : depth mid = 2 /\ cur mid = Sec.Installed
                   /\ (id si ∉ installedIds acf -> id si ∈ installedIds (info mid))
                   /\ installedIds (info st) ⊆ installedIds (info mid)
                   /\ detailsIds (info mid) = detailsIds (info st)).
    { unfold mid. case_bool_decide as Hin.
      - cbn. repeat split; done.
      - destruct (parse_installed_entry k si st Hd Hc Hsi)
          as (? & ? & ? & ? & ?). repeat split; done. }
    destruct Hmid as (Hd' & Hc' & Hin & Hsub & Hdet).
    destruct (IH (k + Z.of_nat (length
                (if bool_decide (id si ∈ installedIds acf) then []
                 else installed_entry_lines si))) mid Hd' Hc' Hall)
      as (Hd'' & Hc'' & Hall'' & Hsub'' & Hdet'').
    repeat split; [done|done| |set_solver|congruence].
    intros si' [->|Hsi']%elem_of_cons Hnot; [|by apply Hall''].
    apply Hsub''. by apply Hin.
Qed.

Lemma parse_details_lines acf toAdd : forall k st,
  depth st = 2 -> cur st = Sec.Details ->
  Forall (fun si => isAllDigits (id si) = true) toAdd ->
  let st' := parse_loop k (details_lines acf toAdd) st in
  depth st' = 2 /\ cur st' = Sec.Details
  /\ (forall si, si ∈ toAdd -> id si ∉ detailsIds acf ->
      id si ∈ detailsIds (info st'))
  /\ detailsIds (info st) ⊆ detailsIds (info st')
  /\ installedIds (info st') = installedIds (info st).
Proof.
  unfold details_lines.
  induction toAdd as [|si toAdd IH]; intros k st Hd Hc Hall; cbn zeta.
  - cbn. repeat split; [done|done|set_solver|done].
  - apply Forall_cons in Hall as [Hsi Hall].
    cbn [map concat]. rewrite parse_loop_app.
    set (mid := parse_loop k
                  (if bool_decide (id si ∈ detailsIds acf) then []
                   else details_entry_lines si) st).
    assert (Hmid : depth mid = 2 /\ cur mid = Sec.Details
                   /\ (id si ∉ detailsIds acf -> id si ∈ detailsIds (info mid))
                   /\ detailsIds (info st) ⊆ detailsIds (info mid)
                   /\ installedIds (info mid) = installedIds (info st)).
    { unfold mid. case_bool_decide as Hin.
      - cbn. repeat split; done.
      - destruct (parse_details_entry k si st Hd Hc Hsi)
          as (? & ? & ? & ? & ?). repeat split; done. }
    destruct Hmid as (Hd' & Hc' & Hin & Hsub & Hdet).
    destruct (IH (k + Z.of_nat (length
                (if bool_decide (id si ∈ detailsIds acf) then []
                 else details_entry_lines si))) mid Hd' Hc' Hall)
      as (Hd'' & Hc'' & Hall'' & Hsub'' & Hdet'').
    repeat split; [done|done| |set_solver|congruence].
    intros si' [->|Hsi']%elem_of_cons Hnot; [|by apply Hall''].
    apply Hsub''. by apply Hin.
Qed.

End InsertedLines.

Section ScanQueue.
Import Str AcfPatcher.
Local Open Scope list_scope.
#[local] Set Warnings "-clear-no-such-hyp".

(** What the scan loop queues: the items of the entries it visits that are
    numeric, hold a file and miss in a section. *)
Lemma scan_fold e acf l : forall acc si,
  si ∈ fold_left (scan_entry e acf) l acc <->
  si ∈ acc
  \/ exists entry, entry ∈ l
       /\ isAllDigits (fst entry) = true
       /\ folderHasFiles (snd entry) = true
       /\ ¬ (fst entry ∈ installedIds acf /\ fst entry ∈ detailsIds acf)
       /\ si = readSkinInfo e (fst entry) (snd entry).
Proof.
  induction l as [|entry l IH]; intros acc si; cbn [fold_left].
  - split; [by left|]. intros [H | (en & Hen & _)]; [done|].
    by apply elem_of_nil in Hen.
  - rewrite IH. unfold scan_entry at 1.
    destruct (isAllDigits (fst entry)) eqn:Hd; cbn [negb].
    2:{ split; intros [H | (en & Hen & Hq)]; auto.
        - right. exists en. split; [by apply list_elem_of_further|done].
        - apply elem_of_cons in Hen as [->|Hen]; [|by eauto].
          destruct Hq as (Hq & _). congruence. }
    destruct (folderHasFiles (snd entry)) eqn:Hf; cbn [negb].
    2:{ split; intros [H | (en & Hen & Hq)]; auto.
        - right. exists en. split; [by apply list_elem_of_further|done].
        - apply elem_of_cons in Hen as [->|Hen]; [|by eauto].
          destruct Hq as (_ & Hq & _). congruence. }
    destruct (bool_decide (fst entry ∈ installedIds acf)
              && bool_decide (fst entry ∈ detailsIds acf)) eqn:Hb.
    + apply andb_prop in Hb as [Hi%bool_decide_eq_true_1 Hdt%bool_decide_eq_true_1].
      split; intros [H | (en & Hen & Hq)]; auto.
      * right. exists en. split; [by apply list_elem_of_further|done].
      * apply elem_of_cons in Hen as [->|Hen]; [|by eauto].
        destruct Hq as (_ & _ & Hq & _). by destruct Hq.
    + assert (Hnot : ¬ (fst entry ∈ installedIds acf
                        /\ fst entry ∈ detailsIds acf)).
      { intros [Hi Hdt].
        by rewrite !bool_decide_eq_true_2 in Hb by done. }
      rewrite elem_of_app, list_elem_of_singleton. split.
      * intros [[H | ->] | (en & Hen & Hq)]; auto.
        -- right. exists entry. split; [apply list_elem_of_here|done].
        -- right. exists en. split; [by apply list_elem_of_further|done].
      * intros [H | (en & Hen & Hq)]; auto.
        apply elem_of_cons in Hen as [->|Hen]; [|by eauto].
        left. right. by destruct Hq as (_ & _ & _ & ->).
Qed.

(** The queued items carry numeric identifiers. *)
Lemma scan_content_digits e acf entries :
  Forall (fun si => isAllDigits (id si) = true) (scan_content e acf entries).
Proof.
  apply Forall_forall. intros si Hsi. unfold scan_content in Hsi.
  apply scan_fold in Hsi as [Hsi | (en & _ & Hd & _ & _ & ->)].
  - by apply elem_of_nil in Hsi.
  - exact Hd.
Qed.

(** Every numeric, non-empty directory is listed in both sections or
    queued. *)
Lemma scan_content_covers e acf entries name dir :
  (name, dir) ∈ entries -> is_dir dir = true ->
  isAllDigits name = true -> folderHasFiles dir = true ->
  (name ∈ installedIds acf /\ name ∈ detailsIds acf)
  \/ exists si, si ∈ scan_content e acf entries /\ id si = name.
Proof.
  intros Hin Hdir Hd Hf.
  destruct (decide (name ∈ installedIds acf /\ name ∈ detailsIds acf))
    as [Hboth|Hnot]; [by left|].
  right. exists (readSkinInfo e name dir). split; [|done].
  unfold scan_content. apply scan_fold. right. exists (name, dir).
  cbn [fst snd]. repeat split; try done.
  rewrite merge_sort_Permutation.
  apply list_elem_of_In, filter_In. split; [by apply list_elem_of_In|done].
Qed.

End ScanQueue.

Section SecondRun.
Import Str AcfPatcher.
Local Open Scope list_scope.
#[local] Set Warnings "-clear-no-such-hyp".

Lemma state_le_trans st1 st2 st3 :
  state_le st1 st2 -> state_le st2 st3 -> state_le st1 st3.
Proof. unfold state_le. intros (?&?&?&?) (?&?&?&?). repeat split; try congruence; set_solver. Qed.

(** The parse of a manifest patched in the installed-first layout: both
    closing lines are found again, nothing known before is lost, and every
    queued identifier is listed in both sections. *)
Lemma parse_spliced lines toAdd :
  let acf := parseAcf lines in
  let i := Z.to_nat (installedCloseLineIdx acf) in
  let d := Z.to_nat (detailsCloseLineIdx acf) in
  0 <= installedCloseLineIdx acf < detailsCloseLineIdx acf ->
  Forall (fun si => isAllDigits (id si) = true) toAdd ->
  let fin :=
    parse_loop 0
      (take i lines ++ map strip_cr (installed_lines acf toAdd)
       ++ drop i (take d lines) ++ map strip_cr (details_lines acf toAdd)
       ++ drop d lines) parse_init in
  0 <= installedCloseLineIdx (info fin)
  /\ 0 <= detailsCloseLineIdx (info fin)
  /\ installedIds acf ⊆ installedIds (info fin)
  /\ detailsIds acf ⊆ detailsIds (info fin)
  /\ forall si, si ∈ toAdd ->
       id si ∈ installedIds (info fin) /\ id si ∈ detailsIds (info fin).
Proof.
  intros acf i d Hid Hdigits.
  destruct (parseAcf_idx_bound lines) as [_ Hdb]. fold acf in Hdb.
  destruct (parseAcf_close_states lines) as [Hci Hcd].
  destruct Hci as (Hc1 & Hd1 & li & Hli & Hti); [fold acf; lia|].
  destruct Hcd as (Hc3 & Hd3 & ld & Hld & Htd); [fold acf; lia|].
  fold acf in Hc1, Hd1, Hli, Hc3, Hd3, Hld. fold i in Hc1, Hd1, Hli.
  fold d in Hc3, Hd3, Hld.
  assert (Hilt : (i < d)%nat) by (unfold i, d; lia).
  assert (Hdlt : (d < length lines)%nat) by (unfold d; lia).
  set (s1 := parse_loop 0 (take i lines) parse_init) in *.
  set (r3 := parse_loop 0 (take d lines) parse_init) in *.
  (* the middle segment starts with the installed closing line *)
  assert (HB : drop i (take d lines) = li :: drop (S i) (take d lines)).
  { apply drop_S. rewrite lookup_take_lt by lia. exact Hli. }
  assert (HC : drop d lines = ld :: drop (S d) lines) by by apply drop_S.
  assert (Hr3 : r3 = parse_loop (Z.of_nat i) (drop i (take d lines)) s1).
  { unfold r3, s1. rewrite <- (take_drop i (take d lines)) at 1.
    rewrite parse_loop_app, take_take, length_take.
    replace (i `min` d)%nat with i by lia.
    replace (i `min` length lines)%nat with i by lia. done. }
  assert (Hacf : acf = info (parse_loop (Z.of_nat d) (drop d lines) r3)).
  { unfold acf, parseAcf, r3. rewrite <- (take_drop d lines) at 1.
    rewrite parse_loop_app, length_take.
    replace (d `min` length lines)%nat with d by lia. done. }
  cbn zeta. rewrite !parse_loop_app, !parse_loop_strip_cr. fold s1.
  set (k1 := 0 + Z.of_nat (length (take i lines))).
  destruct (parse_installed_lines acf toAdd k1 s1 Hd1 Hc1 Hdigits)
    as (Hd2 & Hc2 & Hin2 & Hsub2 & Hdet2).
  set (s2 := parse_loop k1 (installed_lines acf toAdd) s1) in *.
  set (k2 := k1 + Z.of_nat (length (map strip_cr (installed_lines acf toAdd)))).
  assert (Hle12 : state_le s1 s2).
  { unfold state_le. repeat split; [congruence|congruence|done|set_solver]. }
  set (s3 := parse_loop k2 (drop i (take d lines)) s2).
  assert (Hle3 : state_le r3 s3).
  { rewrite Hr3. by apply parse_loop_mono. }
  destruct Hle3 as (Hc3' & Hd3' & Hs3i & Hs3d).
  assert (Hk2 : 0 <= k2) by (unfold k2, k1; lia).
  assert (Hidx3 : 0 <= installedCloseLineIdx (info s3)).
  { unfold s3. rewrite HB. cbn [parse_loop].
    apply parse_loop_idx_nonneg; [lia|].
    destruct (parse_step_sets_close k2 li s2 Hti Hd2) as [-> _]; [lia|done]. }
  assert (Hgrow3 : installedIds (info s2) ⊆ installedIds (info s3)).
  { apply parse_loop_grows. }
  set (k3 := k2 + Z.of_nat (length (drop i (take d lines)))).
  destruct (parse_details_lines acf toAdd k3 s3) as (Hd4 & Hc4 & Hin4 & Hsub4 & Hdet4);
    [congruence | congruence | done |].
  set (s4 := parse_loop k3 (details_lines acf toAdd) s3) in *.
  set (k4 := k3 + Z.of_nat (length (map strip_cr (details_lines acf toAdd)))).
  assert (Hk4 : 0 <= k4) by (unfold k4, k3; lia).
  assert (Hidx4 : 0 <= installedCloseLineIdx (info s4)).
  { unfold s4. apply parse_loop_idx_nonneg; [unfold k3; lia | done]. }
  assert (Hle4 : state_le r3 s4).
  { unfold state_le. repeat split; [congruence|congruence|set_solver|set_solver]. }
  set (s5 := parse_loop k4 (drop d lines) s4).
  assert (Hle5 : state_le (parse_loop (Z.of_nat d) (drop d lines) r3) s5).
  { by apply parse_loop_mono. }
  destruct Hle5 as (_ & _ & Hs5i & Hs5d). rewrite <- Hacf in Hs5i, Hs5d.
  assert (Hgrow5 : installedIds (info s4) ⊆ installedIds (info s5)
                   /\ detailsIds (info s4) ⊆ detailsIds (info s5)).
  { apply parse_loop_grows. }
  destruct Hgrow5 as [Hg5i Hg5d].
  split; [by apply parse_loop_idx_nonneg|]. split.
  { unfold s5. rewrite HC. cbn [parse_loop].
    apply parse_loop_idx_nonneg; [lia|].
    destruct (parse_step_sets_close k4 ld s4 Htd Hd4) as [_ ->]; [lia|done]. }
  split; [done|]. split; [done|].
  intros si Hsi. split.
  - destruct (decide (id si ∈ installedIds acf)) as [Hold|Hnew]; [set_solver|].
    apply Hg5i. rewrite Hdet4. apply Hgrow3. by apply Hin2.
  - destruct (decide (id si ∈ detailsIds acf)) as [Hold|Hnew]; [set_solver|].
    apply Hg5d. by apply Hin4.
Qed.

(** Idempotence in the installed-first layout -- when the patcher has
    written a manifest whose installed section closes above its details
    section, a second run over the same content folder finds every item
    listed in both sections, queues nothing and leaves the manifest as the
    first run wrote it. *)
Theorem patcher_second_run_up_to_date (e e2 : patch_env) (acf_text : string) :
  fst (patch_main e acf_text) = Patched ->
  installedCloseLineIdx (parseAcf (read_lines acf_text))
  < detailsCloseLineIdx (parseAcf (read_lines acf_text)) ->
  content_entries e2 = content_entries e ->
  patch_main e2 (snd (patch_main e acf_text))
  = (UpToDate, snd (patch_main e acf_text)).
Proof.
  intros (entries & He & Hi & Hd & Hsnd)%patch_main_patched Hlt He2.
  rewrite Hsnd.
  set (lines := read_lines acf_text) in *.
  set (acf := parseAcf lines) in *.
  set (toAdd := scan_content e acf entries) in *.
  pose proof (scan_content_digits e acf entries) as Hdigits. fold toAdd in Hdigits.
  destruct (parseAcf_idx_bound lines) as [_ Hdb]. fold acf in Hdb.
  rewrite splice_installed_first by lia.
  unfold expected_splice.
  rewrite (insert_before_installed_first 0) by lia.
  rewrite !Nat.sub_0_r.
  rewrite splitLines_installedInsert, splitLines_detailsInsert by done.
  set (out := take _ lines ++ _).
  assert (Hout : Forall (fun l => no_lf l = true) out).
  { pose proof (read_lines_no_lf acf_text) as HL. fold lines in HL.
    unfold out. repeat apply Forall_app_2;
      try (apply Forall_take || apply Forall_drop); try done.
    - apply Forall_fmap. eapply Forall_impl;
        [by apply installed_lines_no_lf|]. intros l. apply strip_cr_no_lf.
    - by apply Forall_take.
    - apply Forall_fmap. eapply Forall_impl;
        [by apply details_lines_no_lf|]. intros l. apply strip_cr_no_lf. }
  destruct (parse_spliced lines toAdd) as (Hfi & Hfd & Hsi & Hsd & Hall);
    [fold acf; lia | done |].
  fold acf in Hfi, Hfd, Hsi, Hsd, Hall. fold out in Hfi, Hfd, Hsi, Hsd, Hall.
  assert (Hparse : parseAcf (read_lines (write_lines out))
                   = info (parse_loop 0 out parse_init)).
  { unfold read_lines, parseAcf.
    by rewrite getlines_write_lines, parse_loop_strip_cr. }
  unfold patch_main. cbn zeta. rewrite Hparse.
  replace (installedCloseLineIdx (info (parse_loop 0 out parse_init)) <? 0)
    with false by (symmetry; apply Z.ltb_ge; lia).
  replace (detailsCloseLineIdx (info (parse_loop 0 out parse_init)) <? 0)
    with false by (symmetry; apply Z.ltb_ge; lia).
  cbn [orb]. rewrite He2, He.
  rewrite scan_content_all_listed; [done|].
  intros name dir Hin Hdir Hdg Hf.
  destruct (scan_content_covers e acf entries name dir Hin Hdir Hdg Hf)
    as [[H1 H2] | (si & Hsi' & <-)].
  - split; [by apply Hsi | by apply Hsd].
  - by apply Hall.
Qed.

(** A first run that patches a manifest in the installed-first layout and a
    second run that finds nothing to do. *)
Lemma patcher_second_run_up_to_date_witness :
  let text := write_lines manifest_installed_first in
  let e := patch_run (("333", skin_dir) :: content_111) in
  patch_main e (snd (patch_main e text)) = (UpToDate, snd (patch_main e text)).
Proof.
  apply (patcher_second_run_up_to_date
           (patch_run (("333", skin_dir) :: content_111))
           (patch_run (("333", skin_dir) :: content_111))
           (write_lines manifest_installed_first));
    [vm_compute; reflexivity | vm_compute; reflexivity | reflexivity].
Defined.

End SecondRun.

(** * Further properties of the orchestrator *)

Section ChunkSizes.
Import Str Downloader.

(** Chunk [i + j] of the loop of [partition] takes [base + 1] identifiers
    while [i + j < rem], and [base] after that. *)
Lemma partition_loop_sizes ids base rem n :
  0 <= base -> 0 <= rem <= n -> n * base + rem = Z.of_nat (length ids) ->
  forall todo i idx,
    0 <= i -> i + Z.of_nat todo = n ->
    Z.of_nat idx = i * base + Z.min i rem ->
    forall (j : nat) c,
      partition_loop todo i ids base rem idx !! j = Some c ->
      Z.of_nat (length c)
      = base + (if i + Z.of_nat j <? rem then 1 else 0).
Proof.
  intros Hb Hr Hn. induction todo as [|todo IH]; intros i idx Hi Hin Hidx j c.
  - cbn. done.
  - cbn [partition_loop]. cbn zeta. rewrite fill_chunk_spec. cbn [app].
    set (sz := Z.to_nat (base + (if i <? rem then 1 else 0))).
    assert (Hsz : Z.of_nat sz = base + (if i <? rem then 1 else 0)).
    { unfold sz. destruct (i <? rem); lia. }
    assert (Hfit : (idx + sz <= length ids)%nat).
    { destruct (Z.ltb_spec i rem); nia. }
    replace (Nat.min sz (length ids - idx)) with sz by lia.
    clearbody sz. destruct j as [|j].
    + cbn [lookup list_lookup]. intros [= <-].
      rewrite length_take, length_drop.
      replace (i + Z.of_nat 0) with i by lia. lia.
    + cbn [lookup list_lookup]. intros Hc.
      apply (IH (i + 1) (idx + sz)%nat) in Hc; [| lia | lia |].
      * rewrite Hc. replace (i + 1 + Z.of_nat j) with (i + Z.of_nat (S j)) by lia.
        done.
      * destruct (Z.ltb_spec i rem); lia.
Qed.

(** For a non-empty working set and a requested concurrency of at least 1,
    with [n = min N (length workingSet)] workers: chunk [i] (counted from 0)
    holds [length workingSet / n] identifiers, and one more when
    [i < length workingSet mod n]; so the larger chunks come first and no
    worker is started on an empty chunk. *)
Theorem runPass_chunks_sizes (workingSet : list string) (N : Z) :
  workingSet ≠ [] -> 1 <= N ->
  let size := Z.of_nat (length workingSet) in
  let n := Z.min N size in
  forall (i : nat) c,
    runPass_chunks workingSet N !! i = Some c ->
    Z.of_nat (length c)
    = Z.quot size n + (if Z.of_nat i <? Z.rem size n then 1 else 0)
    /\ c ≠ [].
Proof.
  intros Hne HN. cbn zeta. intros i c Hc. unfold runPass_chunks in Hc.
  destruct workingSet as [|id ws]; [done|]. clear Hne.
  set (ids := id :: ws) in *.
  set (n := Z.min N (Z.of_nat (length ids))) in *.
  assert (Hn : 0 < n <= Z.of_nat (length ids)) by (unfold n; cbn [ids length]; lia).
  pose proof (Z.quot_rem' (Z.of_nat (length ids)) n) as Hqr.
  pose proof (Z.rem_bound_pos (Z.of_nat (length ids)) n ltac:(lia) ltac:(lia))
    as Hrem.
  pose proof (Z.quot_pos (Z.of_nat (length ids)) n ltac:(lia) ltac:(lia)) as Hq.
  assert (Hq1 : 1 <= Z.quot (Z.of_nat (length ids)) n).
  { apply Z.quot_le_lower_bound; lia. }
  unfold partition in Hc.
  apply (partition_loop_sizes ids _ _ n) in Hc; try lia.
  replace (0 + Z.of_nat i) with (Z.of_nat i) in Hc by lia.
  split; [exact Hc|].
  intros ->. cbn [length] in Hc. destruct (Z.of_nat i <? _); lia.
Qed.

Lemma runPass_chunks_sizes_witness :
  let size := Z.of_nat (length eight_ids) in
  let n := Z.min 3 size in
  Z.of_nat (length ["100004"; "100005"; "100006"])
  = Z.quot size n + (if Z.of_nat 1 <? Z.rem size n then 1 else 0)
  /\ ["100004"; "100005"; "100006"] ≠ [].
Proof.
  apply (runPass_chunks_sizes eight_ids 3 ltac:(discriminate) ltac:(lia) 1%nat
           ["100004"; "100005"; "100006"]).
  vm_compute. reflexivity.
Defined.

(** The run of the witness: eight identifiers for three workers go out in
    chunks of three, three and two. *)
Example eight_ids_in_three_chunks :
  map length (runPass_chunks eight_ids 3) = [3; 3; 2]%nat.
Proof. vm_compute. reflexivity. Qed.

End ChunkSizes.

Section LogInvariants.
Import Str Downloader.

Lemma assign_if_present_is_Some id sr m k :
  is_Some (assign_if_present id sr m !! k) <-> is_Some (m !! k).
Proof.
  unfold assign_if_present. destruct (m !! id) eqn:E; [|done].
  destruct (decide (k = id)) as [->|Hne].
  - rewrite lookup_insert_eq, E. split; eauto.
  - by rewrite lookup_insert_ne.
Qed.

Lemma upgrade_last_is_Some lastId sr m k :
  is_Some (upgrade_last lastId sr m !! k) <-> is_Some (m !! k).
Proof.
  unfold upgrade_last. destruct lastId as [|c l]; [done|].
  destruct (m !! String c l) as [r|] eqn:E; [|done].
  assert (H : is_Some (<[String c l := sr]> m !! k) <-> is_Some (m !! k)).
  { destruct (decide (k = String c l)) as [->|Hne].
    - rewrite lookup_insert_eq, E. split; eauto.
    - by rewrite lookup_insert_ne. }
  destruct r; done.
Qed.

(** A line never adds or removes a key of [perItem]. *)
Lemma parse_line_keys st line k :
  is_Some (ParsedLog.perItem (fst (parse_line st line)) !! k)
  <-> is_Some (ParsedLog.perItem (fst st) !! k).
Proof.
  destruct st as [result lastId]. unfold parse_line, classify_result_reason,
    classify_error_reason.
  repeat (case_match; simplify_eq);
    cbn [fst ParsedLog.set_perItem ParsedLog.perItem
         ParsedLog.set_globalRateLimit ParsedLog.set_globalTimeout
         ParsedLog.set_globalLockFailed ParsedLog.set_globalValidationFail
         ParsedLog.incr_successCount ParsedLog.incr_failureCount];
    rewrite ?assign_if_present_is_Some, ?upgrade_last_is_Some; try done.
  match goal with
  | |- context [<[?i := Success]> _ !! k] =>
      destruct (decide (k = i)) as [->|Hne]
  end.
  - rewrite lookup_insert_eq. split; eauto.
  - by rewrite lookup_insert_ne.
Qed.

Lemma parse_lines_keys lines : forall st k,
  is_Some (ParsedLog.perItem (fst (fold_left parse_line lines st)) !! k)
  <-> is_Some (ParsedLog.perItem (fst st) !! k).
Proof.
  induction lines as [|l lines IH]; intros st k; [done|].
  cbn [fold_left]. rewrite IH. apply parse_line_keys.
Qed.

Lemma init_perItem_lookup chunk k :
  init_perItem chunk !! k = if decide (k ∈ chunk) then Some Unknown else None.
Proof.
  unfold init_perItem.
  assert (H : forall (m : gmap string SkinResult),
    fold_left (fun m id => <[id := Unknown]> m) chunk m !! k
    = if decide (k ∈ chunk) then Some Unknown else m !! k).
  { induction chunk as [|id chunk IH]; intros m.
    - cbn. by rewrite decide_False by apply not_elem_of_nil.
    - cbn [fold_left]. rewrite IH.
      destruct (decide (k ∈ chunk)) as [Hin|Hnin].
      + by rewrite decide_True by (by right).
      + destruct (decide (k = id)) as [->|Hne].
        * rewrite lookup_insert_eq. by rewrite decide_True by (by left).
        * rewrite lookup_insert_ne by done.
          by rewrite decide_False by (by intros [?|?]%elem_of_cons). }
  rewrite H. by destruct (decide _).
Qed.

(** The classifier reports on the identifiers of the chunk and on no
    other: when the log opens, [perItem] has an entry for an identifier
    exactly when the identifier is in the chunk, whatever the log says
    about other items; when the log does not open, [perItem] is empty. *)
Theorem parseSteamCmdLog_keys (log : option string) (chunk : list string)
    (id : string) :
  is_Some (ParsedLog.perItem (parseSteamCmdLog log chunk) !! id)
  <-> is_Some log /\ id ∈ chunk.
Proof.
  destruct log as [text|]; cbn [parseSteamCmdLog].
  - rewrite parse_lines_keys. cbn [fst ParsedLog.set_perItem ParsedLog.perItem].
    rewrite init_perItem_lookup. destruct (decide (id ∈ chunk)); split.
    + intros _. eauto.
    + eauto.
    + by intros [? ?].
    + by intros [_ ?].
  - cbn. rewrite lookup_empty. split; [by intros [? ?] | by intros [[? ?] _]].
Qed.


Lemma category_flagged_mono sr r r' :
  flags_le r r' -> category_flagged sr r -> category_flagged sr r'.
Proof. intros (H1 & H2 & H3 & H4). destruct sr; cbn; auto. Qed.

Lemma assign_if_present_cases id sr m k :
  assign_if_present id sr m !! k = m !! k
  \/ assign_if_present id sr m !! k = Some sr.
Proof.
  unfold assign_if_present. destruct (m !! id); [|by left].
  destruct (decide (k = id)) as [->|Hne].
  - right. apply lookup_insert_eq.
  - left. by apply lookup_insert_ne.
Qed.

Lemma upgrade_last_cases lastId sr m k :
  upgrade_last lastId sr m !! k = m !! k
  \/ upgrade_last lastId sr m !! k = Some sr.
Proof.
  unfold upgrade_last. destruct lastId as [|c l]; [by left|].
  assert (H : <[String c l := sr]> m !! k = m !! k
              \/ <[String c l := sr]> m !! k = Some sr).
  { destruct (decide (k = String c l)) as [->|Hne].
    - right. apply lookup_insert_eq.
    - left. by apply lookup_insert_ne. }
  destruct (m !! String c l) as [[]|]; auto.
Qed.

Lemma insert_cases (id : string) (sr : SkinResult) (m : gmap string SkinResult) k :
  <[id := sr]> m !! k = m !! k \/ <[id := sr]> m !! k = Some sr.
Proof.
  destruct (decide (k = id)) as [->|Hne].
  - right. apply lookup_insert_eq.
  - left. by apply lookup_insert_ne.
Qed.

(** A step that stores at most the outcome [sr], raises the flag of [sr]
    and lowers no flag keeps every stored outcome flagged. *)
Lemma flagged_step (r r' : ParsedLog.t) sr :
  (forall k s, ParsedLog.perItem r !! k = Some s -> category_flagged s r) ->
  flags_le r r' ->
  category_flagged sr r' ->
  (forall k, ParsedLog.perItem r' !! k = ParsedLog.perItem r !! k
             \/ ParsedLog.perItem r' !! k = Some sr) ->
  forall k s, ParsedLog.perItem r' !! k = Some s -> category_flagged s r'.
Proof.
  intros Hinv Hle Hsr Hm k s Hk. destruct (Hm k) as [E|E]; rewrite E in Hk.
  - eapply category_flagged_mono; [exact Hle|]. by eapply Hinv.
  - by simplify_eq.
Qed.

Ltac flagged_by Hinv sr :=
  eapply (flagged_step _ _ sr);
  [ exact Hinv
  | unfold flags_le; cbn; tauto
  | first [exact I | reflexivity]
  | let k := fresh "k" in
    intros k; cbn;
    first [ apply assign_if_present_cases | apply upgrade_last_cases
          | apply insert_cases | by left ] ].

Lemma parse_line_flagged st line :
  (forall k s, ParsedLog.perItem (fst st) !! k = Some s ->
               category_flagged s (fst st)) ->
  forall k s, ParsedLog.perItem (fst (parse_line st line)) !! k = Some s ->
              category_flagged s (fst (parse_line st line)).
Proof.
  destruct st as [result lastId]. cbn [fst]. intros Hinv.
  unfold parse_line, classify_result_reason, classify_error_reason.
  repeat (case_match; simplify_eq); cbn [fst];
    first
      [ exact Hinv
      | flagged_by Hinv Success | flagged_by Hinv LockFailed
      | flagged_by Hinv Timeout | flagged_by Hinv RateLimit
      | flagged_by Hinv ValidationFailed | flagged_by Hinv Error ].
Qed.

Lemma parse_lines_flagged lines : forall st,
  (forall k s, ParsedLog.perItem (fst st) !! k = Some s ->
               category_flagged s (fst st)) ->
  forall k s,
    ParsedLog.perItem (fst (fold_left parse_line lines st)) !! k = Some s ->
    category_flagged s (fst (fold_left parse_line lines st)).
Proof.
  induction lines as [|l lines IH]; intros st Hinv; [exact Hinv|].
  cbn [fold_left]. apply IH. by apply parse_line_flagged.
Qed.

(** Whatever outcome the classifier gives an identifier, the global flag
    of that outcome is raised in the same result: [RateLimit] comes with
    [globalRateLimit], [Timeout] with [globalTimeout], [LockFailed] with
    [globalLockFailed], [ValidationFailed] with [globalValidationFail]; and
    the classifier never gives [Skipped]. *)
Theorem parseSteamCmdLog_flags (log : option string) (chunk : list string)
    (id : string) (sr : SkinResult) :
  ParsedLog.perItem (parseSteamCmdLog log chunk) !! id = Some sr ->
  category_flagged sr (parseSteamCmdLog log chunk).
Proof.
  destruct log as [text|]; cbn [parseSteamCmdLog]; [|done].
  apply parse_lines_flagged. cbn [fst ParsedLog.set_perItem ParsedLog.perItem].
  intros k s. rewrite init_perItem_lookup. destruct (decide _); [|done].
  by intros [= <-].
Qed.


Lemma parseSteamCmdLog_flags_witness :
  category_flagged ValidationFailed
    (parseSteamCmdLog (Some scenario3_log) ["999"]).
Proof.
  apply (parseSteamCmdLog_flags (Some scenario3_log) ["999"] "999").
  vm_compute. reflexivity.
Defined.

End LogInvariants.

Section WorkerTable.
#[local] Set Warnings "-clear-no-such-hyp".
Import Str Downloader.

Lemma stored_reconciled cls moved inShared timedOut :
  stored (reconciled (default Unknown cls) moved inShared timedOut)
  = outcome cls (moved || inShared) timedOut.
Proof.
  unfold reconciled, outcome. destruct (moved || inShared).
  - by destruct timedOut.
  - destruct cls as [[]|], timedOut; reflexivity.
Qed.

Lemma reconcile_item_outcome e timedOut parsed inst id w :
  let w' := reconcile_item e timedOut parsed inst id w in
  skinResults w'
  = <[id := outcome (ParsedLog.perItem parsed !! id)
              (folderHasFiles (fs w') (dst_path id)) timedOut]>
      (skinResults w).
Proof.
  cbn zeta. rewrite fs_reconcile_item. unfold reconcile_item.
  pose proof (move_true_hasFiles e inst id (fs w)) as Hmv.
  destruct (moveSkinToShared e inst id (fs w)) as [moved fs1].
  cbn [fst snd] in *. rewrite skinResults_record_result, stored_reconciled.
  destruct moved; cbn [orb]; [|done]. by rewrite Hmv.
Qed.

Lemma reconcile_outcome e timedOut parsed threadId chunk :
  Forall (fun id => is_identifier id = true) chunk ->
  forall k w id,
    id ∈ chunk ->
    let w' := reconcile e timedOut parsed (instance_dir threadId) k chunk w in
    skinResults w' !! id
    = Some (outcome (ParsedLog.perItem parsed !! id)
              (folderHasFiles (fs w') (dst_path id)) timedOut).
Proof.
  induction chunk as [|id0 chunk IH]; intros Hall k w id Hin.
  - by apply elem_of_nil in Hin.
  - apply Forall_cons in Hall as [Hid0 Hall]. cbn [reconcile]. cbn zeta.
    destruct (decide (id ∈ chunk)) as [Hc|Hc]; [by apply IH|].
    apply elem_of_cons in Hin as [->|]; [|done].
    destruct (reconcile_frame e timedOut parsed threadId chunk id0 Hid0 Hall Hc
                (S k)
                (reconcile_item (e k) timedOut parsed (instance_dir threadId) id0 w))
      as [Hm Hf].
    rewrite Hm, (folderHasFiles_ext _ _ _ Hf).
    rewrite (reconcile_item_outcome (e k) timedOut parsed
               (instance_dir threadId) id0 w).
    by rewrite lookup_insert_eq.
Qed.

(** The outcome table of the worker: when a worker has gone through its
    chunk, the outcome recorded for an identifier of the chunk is [Success]
    when its destination in the shared tree has files; otherwise [Timeout]
    when the hard timeout fired; otherwise what the classifier gave it,
    with [ValidationFailed] for a reported success that left no files and
    [Error] for an identifier the log does not classify (or classifies as
    [Error]). *)
Theorem worker_outcome_table
    (e : worker_env) (chunk : list string) (threadId total pass : Z)
    (w : World) (id : string) :
  Forall (fun id => is_identifier id = true) chunk ->
  fst (workerInstance e chunk threadId total pass w) = Reconciled ->
  id ∈ chunk ->
  let w' := snd (workerInstance e chunk threadId total pass w) in
  skinResults w' !! id
  = Some (outcome
            (ParsedLog.perItem (parseSteamCmdLog (log_text e) chunk) !! id)
            (folderHasFiles (fs w') (dst_path id)) (timed_out e)).
Proof.
  intros Hall Hex Hin. cbn zeta.
  destruct (workerInstance_reconciled e chunk threadId total pass w Hex)
    as (w1 & _ & ->).
  rewrite skinResults_set_fs, fs_set_fs.
  assert (Hid : is_identifier id = true).
  { rewrite Forall_forall in Hall. by apply Hall. }
  rewrite (folderHasFiles_ext _ _ _
             (cleanStagingFolder_frame (clean_after e) (instance_dir threadId)
                _ id Hid)).
  by apply reconcile_outcome.
Qed.

Lemma worker_outcome_table_witness :
  let w' := snd (workerInstance one_item_worker ["490217825"] 0 1 1
                   fresh_world) in
  skinResults w' !! "490217825"
  = Some (outcome
            (ParsedLog.perItem
               (parseSteamCmdLog (log_text one_item_worker) ["490217825"])
             !! "490217825")
            (folderHasFiles (fs w') (dst_path "490217825"))
            (timed_out one_item_worker)).
Proof.
  apply (worker_outcome_table one_item_worker ["490217825"] 0 1 1
           fresh_world "490217825");
    [ repeat constructor | vm_compute; reflexivity | apply list_elem_of_here ].
Defined.

(** *** Counters *)

Lemma record_result_counters id sr w :
  let w' := record_result id sr w in
  totalProcessed w' = totalProcessed w + 1
  /\ successCount w' + failedCount w' = successCount w + failedCount w + 1
  /\ skippedCount w' = skippedCount w
  /\ anyRateLimitDetected w' = anyRateLimitDetected w
  /\ (tally_consistent w -> tally_consistent w').
Proof.
  unfold tally_consistent. destruct sr; cbn; repeat apply conj;
    first [reflexivity | lia].
Qed.

Lemma reconcile_item_counters e timedOut parsed inst id w :
  let w' := reconcile_item e timedOut parsed inst id w in
  totalProcessed w' = totalProcessed w + 1
  /\ successCount w' + failedCount w' = successCount w + failedCount w + 1
  /\ skippedCount w' = skippedCount w
  /\ anyRateLimitDetected w' = anyRateLimitDetected w
  /\ (tally_consistent w -> tally_consistent w').
Proof.
  cbn zeta. unfold reconcile_item.
  destruct (moveSkinToShared e inst id (fs w)) as [moved fs1].
  apply (record_result_counters id _ (set_fs (fun _ => fs1) w)).
Qed.

Lemma reconcile_counters e timedOut parsed inst chunk : forall k w,
  let w' := reconcile e timedOut parsed inst k chunk w in
  totalProcessed w' = totalProcessed w + Z.of_nat (length chunk)
  /\ successCount w' + failedCount w'
     = successCount w + failedCount w + Z.of_nat (length chunk)
  /\ skippedCount w' = skippedCount w
  /\ anyRateLimitDetected w' = anyRateLimitDetected w
  /\ (tally_consistent w -> tally_consistent w').
Proof.
  induction chunk as [|id chunk IH]; intros k w; cbn zeta.
  - cbn. repeat apply conj; try lia; done.
  - cbn [reconcile length].
    destruct (reconcile_item_counters (e k) timedOut parsed inst id w)
      as (H1 & H2 & H3 & H4 & H5).
    destruct (IH (S k) (reconcile_item (e k) timedOut parsed inst id w))
      as (I1 & I2 & I3 & I4 & I5).
    repeat apply conj; try lia; try congruence. auto.
Qed.

Lemma workerInstance_counters e chunk threadId total pass w :
  let w' := snd (workerInstance e chunk threadId total pass w) in
  let n := match fst (workerInstance e chunk threadId total pass w) with
           | Reconciled => Z.of_nat (length chunk)
           | _ => 0
           end in
  totalProcessed w' = totalProcessed w + n
  /\ successCount w' + failedCount w' = successCount w + failedCount w + n
  /\ skippedCount w' = skippedCount w
  /\ (tally_consistent w -> tally_consistent w').
Proof.
  cbn zeta. unfold workerInstance. destruct chunk as [|id chunk].
  - cbn. repeat apply conj; try lia; done.
  - destruct (script_opens e); cbn [negb fst snd].
    + match goal with
      | |- context [reconcile ?a ?b ?c ?d ?k ?ch ?w0] =>
          destruct (reconcile_counters a b c d ch k w0) as (H1 & H2 & H3 & H4 & H5);
          set (w1 := w0) in *
      end.
      assert (Hw1 : totalProcessed w1 = totalProcessed w
                    /\ successCount w1 = successCount w
                    /\ failedCount w1 = failedCount w
                    /\ skippedCount w1 = skippedCount w
                    /\ (tally_consistent w -> tally_consistent w1)).
      { unfold w1. destruct (ParsedLog.globalRateLimit _); cbn; done. }
      destruct Hw1 as (J1 & J2 & J3 & J4 & J5).
      cbn [set_fs totalProcessed successCount failedCount skippedCount].
      repeat apply conj; try lia.
      intros Hc. specialize (H5 (J5 Hc)). exact H5.
    + cbn. repeat apply conj; try lia; done.
Qed.


End WorkerTable.

Section Session.
#[local] Set Warnings "-clear-no-such-hyp".
Import Str Downloader.

(** *** What a pass changes in [skinResults] *)

Lemma reconcile_results_frame e timedOut parsed inst chunk id :
  id ∉ chunk ->
  forall k w,
    skinResults (reconcile e timedOut parsed inst k chunk w) !! id
    = skinResults w !! id.
Proof.
  induction chunk as [|id0 chunk IH]; intros Hnot k w; [done|].
  apply not_elem_of_cons in Hnot as [Hne Hnot].
  cbn [reconcile]. rewrite IH by done.
  destruct (skinResults_reconcile_item (e k) timedOut parsed inst id0 w)
    as (sr & -> & _).
  by rewrite lookup_insert_ne.
Qed.

Lemma workerInstance_results_frame e chunk threadId total pass w id :
  id ∉ chunk ->
  skinResults (snd (workerInstance e chunk threadId total pass w)) !! id
  = skinResults w !! id.
Proof.
  intros Hnot. unfold workerInstance. destruct chunk as [|id0 chunk]; [done|].
  destruct (script_opens e); cbn [negb snd]; [|done].
  rewrite skinResults_set_fs, reconcile_results_frame by done.
  by destruct (ParsedLog.globalRateLimit _).
Qed.

(** An entry other than [Unknown] is not lost and does not become
    [Unknown] in a worker. *)
Lemma workerInstance_keeps_known e chunk threadId total pass w id :
  (exists r, skinResults w !! id = Some r /\ r ≠ Unknown) ->
  exists r, skinResults (snd (workerInstance e chunk threadId total pass w)) !! id
            = Some r /\ r ≠ Unknown.
Proof.
  intros Hk. destruct (decide (id ∈ chunk)) as [Hin|Hnot].
  - unfold workerInstance. destruct chunk as [|id0 chunk]; [done|].
    destruct (script_opens e); cbn [negb snd]; [|done].
    rewrite skinResults_set_fs. by apply reconcile_records.
  - by rewrite workerInstance_results_frame.
Qed.

Lemma workerInstance_records e chunk threadId total pass w id :
  script_opens e = true -> id ∈ chunk ->
  exists r, skinResults (snd (workerInstance e chunk threadId total pass w)) !! id
            = Some r /\ r ≠ Unknown.
Proof.
  intros Hs Hin. unfold workerInstance. destruct chunk as [|id0 chunk].
  - by apply elem_of_nil in Hin.
  - rewrite Hs. cbn [negb snd]. rewrite skinResults_set_fs.
    by apply reconcile_records.
Qed.

Lemma run_workers_results_frame env chunks id : forall i total pass w,
  id ∉ concat chunks ->
  skinResults (run_workers env i chunks total pass w) !! id
  = skinResults w !! id.
Proof.
  induction chunks as [|chunk chunks IH]; intros i total pass w Hnot; [done|].
  cbn [concat] in Hnot. apply not_elem_of_app in Hnot as [H1 H2].
  cbn [run_workers]. rewrite IH by done.
  by apply workerInstance_results_frame.
Qed.

Lemma run_workers_keeps_known env chunks id : forall i total pass w,
  (exists r, skinResults w !! id = Some r /\ r ≠ Unknown) ->
  exists r, skinResults (run_workers env i chunks total pass w) !! id = Some r
            /\ r ≠ Unknown.
Proof.
  induction chunks as [|chunk chunks IH]; intros i total pass w Hk; [done|].
  cbn [run_workers]. apply IH. by apply workerInstance_keeps_known.
Qed.

Lemma run_workers_records env chunks id : forall i total pass w,
  (forall j, script_opens (env j) = true) ->
  id ∈ concat chunks ->
  exists r, skinResults (run_workers env i chunks total pass w) !! id = Some r
            /\ r ≠ Unknown.
Proof.
  induction chunks as [|chunk chunks IH]; intros i total pass w Hs Hin.
  - by apply elem_of_nil in Hin.
  - cbn [concat] in Hin. cbn [run_workers].
    destruct (decide (id ∈ concat chunks)) as [Hc|Hc]; [by apply IH|].
    apply elem_of_app in Hin as [Hin|]; [|done].
    apply run_workers_keeps_known. by apply workerInstance_records.
Qed.

(** The chunks of a pass hold identifiers of its working set only, and
    all of them when at least one instance is asked for. *)
Lemma runPass_chunks_elem toDownload instances id :
  id ∈ concat (runPass_chunks toDownload instances) -> id ∈ toDownload.
Proof.
  unfold runPass_chunks. destruct toDownload as [|id0 ids]; [done|].
  set (l := id0 :: ids).
  destruct (Z.lt_ge_cases 0 (Z.min instances (Z.of_nat (length l)))) as [Hn|Hn].
  - destruct (partition_spec l _ Hn) as (_ & -> & _). done.
  - unfold partition. replace (Z.to_nat _) with O by lia. cbn.
    by intros ?%elem_of_nil.
Qed.

Lemma runPass_chunks_concat toDownload instances :
  1 <= instances -> concat (runPass_chunks toDownload instances) = toDownload.
Proof.
  intros Hi. unfold runPass_chunks. destruct toDownload as [|id0 ids]; [done|].
  set (l := id0 :: ids).
  destruct (partition_spec l (Z.min instances (Z.of_nat (length l))))
    as (_ & -> & _); [|done].
  cbn [l length]. lia.
Qed.

Lemma runPass_results_frame env toDownload instances pass grandTotal w id :
  id ∉ toDownload ->
  skinResults (runPass env toDownload instances pass grandTotal w) !! id
  = skinResults w !! id.
Proof.
  intros Hnot. unfold runPass. destruct toDownload as [|id0 ids]; [done|].
  rewrite run_workers_results_frame; [done|].
  intros Hin. apply Hnot. by apply runPass_chunks_elem in Hin.
Qed.

Lemma runPass_keeps_known env toDownload instances pass grandTotal w id :
  (exists r, skinResults w !! id = Some r /\ r ≠ Unknown) ->
  exists r, skinResults (runPass env toDownload instances pass grandTotal w) !! id
            = Some r /\ r ≠ Unknown.
Proof.
  intros Hk. unfold runPass. destruct toDownload as [|id0 ids]; [done|].
  by apply run_workers_keeps_known.
Qed.

Lemma runPass_records env toDownload instances pass grandTotal w id :
  1 <= instances -> (forall j, script_opens (env j) = true) ->
  id ∈ toDownload ->
  exists r, skinResults (runPass env toDownload instances pass grandTotal w) !! id
            = Some r /\ r ≠ Unknown.
Proof.
  intros Hi Hs Hin. unfold runPass.
  destruct toDownload as [|id0 ids] eqn:E; [by apply elem_of_nil in Hin|].
  rewrite <- E in *. apply run_workers_records; [done|].
  by rewrite runPass_chunks_concat.
Qed.

(** *** The reset before a retry *)

Lemma collectFailed_elem ids w id :
  id ∈ collectFailed ids w
  <-> id ∈ ids
      /\ exists r, skinResults w !! id = Some r /\ r ≠ Success /\ r ≠ Skipped.
Proof.
  unfold collectFailed. rewrite list_elem_of_In, filter_In, <- list_elem_of_In.
  destruct (skinResults w !! id) as [r|]; split.
  - intros [Hin H]. split; [done|]. exists r.
    apply andb_prop in H as [H1 H2].
    apply negb_true_iff, bool_decide_eq_false in H1.
    apply negb_true_iff, bool_decide_eq_false in H2. done.
  - intros [Hin (r' & [= <-] & H1 & H2)]. split; [done|].
    by rewrite !bool_decide_eq_false_2.
  - by intros [_ ?].
  - by intros [_ (r & ? & _)].
Qed.

Lemma skinResults_reset_one w id :
  skinResults (reset_one w id)
  = match skinResults w !! id with
    | Some _ => <[id := Unknown]> (skinResults w)
    | None => skinResults w
    end.
Proof. unfold reset_one. by destruct (skinResults w !! id) as [[]|]. Qed.

Lemma reset_one_other w id : 
  fs (reset_one w id) = fs w
  /\ successCount (reset_one w id) = successCount w
  /\ skippedCount (reset_one w id) = skippedCount w
  /\ anyRateLimitDetected (reset_one w id) = anyRateLimitDetected w
  /\ (tally_consistent w -> tally_consistent (reset_one w id)).
Proof.
  unfold reset_one, tally_consistent.
  destruct (skinResults w !! id) as [[]|]; cbn; repeat apply conj;
    first [reflexivity | lia].
Qed.

Lemma resetCountersForRetry_lookup ids : forall w id,
  skinResults (resetCountersForRetry ids w) !! id
  = if decide (id ∈ ids)
    then (match skinResults w !! id with
          | Some _ => Some Unknown
          | None => None
          end)
    else skinResults w !! id.
Proof.
  unfold resetCountersForRetry.
  induction ids as [|id0 ids IH]; intros w id.
  - cbn. by rewrite decide_False by apply not_elem_of_nil.
  - cbn [fold_left]. rewrite IH, skinResults_reset_one.
    destruct (decide (id = id0)) as [->|Hne].
    + rewrite (decide_True (P := id0 ∈ id0 :: ids)) by (by left).
      destruct (skinResults w !! id0) eqn:E.
      * rewrite lookup_insert_eq. by destruct (decide _).
      * rewrite E. by destruct (decide _).
    + assert (Hl : (match skinResults w !! id0 with
                    | Some _ => <[id0 := Unknown]> (skinResults w)
                    | None => skinResults w
                    end) !! id = skinResults w !! id).
      { destruct (skinResults w !! id0); [by rewrite lookup_insert_ne|done]. }
      rewrite Hl. destruct (decide (id ∈ ids)) as [Hin|Hnin].
      * by rewrite decide_True by (by right).
      * by rewrite decide_False by (by intros [?|?]%elem_of_cons).
Qed.

Lemma resetCountersForRetry_tally ids : forall w,
  tally_consistent w -> tally_consistent (resetCountersForRetry ids w).
Proof.
  unfold resetCountersForRetry.
  induction ids as [|id0 ids IH]; intros w Hw; [done|].
  cbn [fold_left]. apply IH. by apply reset_one_other.
Qed.

(** *** The counters through a session *)

Lemma run_workers_tally env chunks : forall i total pass w,
  tally_consistent w ->
  tally_consistent (run_workers env i chunks total pass w).
Proof.
  induction chunks as [|chunk chunks IH]; intros i total pass w Hw; [done|].
  cbn [run_workers]. apply IH.
  by apply (workerInstance_counters (env i) chunk i total pass w).
Qed.

Lemma runPass_tally env toDownload instances pass grandTotal w :
  tally_consistent w ->
  tally_consistent (runPass env toDownload instances pass grandTotal w).
Proof.
  intros Hw. unfold runPass. destruct toDownload as [|id0 ids]; [done|].
  by apply run_workers_tally.
Qed.

Lemma retry_loop_tally e todo : forall retry toProcess maxInstances grandTotal w,
  tally_consistent w ->
  tally_consistent
    (snd (retry_loop e todo retry toProcess maxInstances grandTotal w)).
Proof.
  induction todo as [|todo IH]; intros retry toProcess maxInstances grandTotal w Hw;
    [done|].
  cbn [retry_loop]. cbn zeta.
  destruct (collectFailed toProcess w) as [|id failed] eqn:Hf; [done|].
  match goal with
  | |- context [retry_loop e todo ?r ?t ?m ?g ?w1] =>
      specialize (IH r t m g w1);
      destruct (retry_loop e todo r t m g w1) as [calls w']
  end.
  cbn [snd] in *. apply IH. apply runPass_tally, resetCountersForRetry_tally.
  by destruct (anyRateLimitDetected _).
Qed.

(** The counters of the summary add up at the end of a session whenever
    they did at its start (as they do when all are zero): the failed total
    is the sum of the timeout, error, rate-limit, lock-failed and
    validation-failed counters, and the processed total is the sum of the
    successes and the failures -- after every pass, every reset before a
    retry and every early return of a worker. *)
Theorem main_passes_tally
    (e : main_env) (toProcess : list string) (maxInstances : Z) (w : World) :
  tally_consistent w ->
  tally_consistent (snd (main_passes e toProcess maxInstances w)).
Proof.
  intros Hw. unfold main_passes. destruct toProcess as [|id0 ids]; [done|].
  cbn zeta.
  match goal with
  | |- context [retry_loop e ?n ?r ?t ?m ?g ?w1] =>
      pose proof (retry_loop_tally e n r t m g w1) as H;
      destruct (retry_loop e n r t m g w1) as [calls w']
  end.
  cbn [snd] in *. apply H. by apply runPass_tally.
Qed.

Lemma main_passes_tally_witness :
  tally_consistent (snd (main_passes idle_main eight_ids 8 fresh_world)).
Proof.
  apply (main_passes_tally idle_main eight_ids 8 fresh_world).
  split; reflexivity.
Defined.

(** The session of the witness: eight identifiers that fail in all four
    passes are counted as eight errors. *)
Example idle_session_counters :
  let w' := snd (main_passes idle_main eight_ids 8 fresh_world) in
  successCount w' = 0 /\ failedCount w' = 8 /\ errorCount w' = 8
  /\ totalProcessed w' = 8.
Proof. vm_compute. repeat split. Qed.

(** *** Outcomes at the end of a session *)

Lemma retry_loop_no_Unknown e todo toProcess :
  (forall pass thread, script_opens (workers e pass thread) = true) ->
  forall retry maxInstances grandTotal w,
    (forall id, id ∈ toProcess ->
       exists r, skinResults w !! id = Some r /\ r ≠ Unknown) ->
    forall id, id ∈ toProcess ->
      exists r,
        skinResults
          (snd (retry_loop e todo retry toProcess maxInstances grandTotal w))
        !! id = Some r /\ r ≠ Unknown.
Proof.
  intros Hs. induction todo as [|todo IH];
    intros retry maxInstances grandTotal w Hw; [exact Hw|].
  cbn [retry_loop]. cbn zeta.
  destruct (collectFailed toProcess w) as [|id0 failed] eqn:Hf; [exact Hw|].
  rewrite <- Hf.
  match goal with
  | |- context [retry_loop e todo ?r ?t ?m ?g ?w1] =>
      specialize (IH r m g w1);
      destruct (retry_loop e todo r t m g w1) as [calls w']
  end.
  cbn [snd] in *. apply IH. clear IH. intros id Hin.
  destruct (decide (id ∈ collectFailed toProcess w)) as [Hc|Hc].
  - apply runPass_records; [lia|done|done].
  - rewrite runPass_results_frame by done.
    rewrite resetCountersForRetry_lookup, decide_False by done.
    destruct (anyRateLimitDetected _); by apply Hw.
Qed.

(** When every script file can be created, a session leaves no work-list
    identifier without a final outcome: at the end of the passes every
    identifier of the work list has an entry in [skinResults], and none is
    [Unknown] -- although every retry first resets the failed ones to
    [Unknown]. *)
Theorem session_leaves_no_Unknown
    (e : main_env) (toProcess : list string) (maxInstances : Z) (w : World)
    (id : string) :
  (forall pass thread, script_opens (workers e pass thread) = true) ->
  id ∈ toProcess ->
  exists r,
    skinResults (snd (main_passes e toProcess maxInstances w)) !! id = Some r
    /\ r ≠ Unknown.
Proof.
  intros Hs Hin. unfold main_passes.
  destruct toProcess as [|id0 ids] eqn:E; [by apply elem_of_nil in Hin|].
  rewrite <- E in *. cbn zeta.
  match goal with
  | |- context [retry_loop e ?n ?r ?t ?m ?g ?w1] =>
      pose proof (retry_loop_no_Unknown e n t Hs r m g w1) as H;
      destruct (retry_loop e n r t m g w1) as [calls w']
  end.
  cbn [snd] in *. apply H; [|done].
  intros id' Hin'. apply runPass_records; [|done|done].
  destruct (Z.ltb_spec maxInstances 1); lia.
Qed.

Lemma session_leaves_no_Unknown_witness :
  exists r,
    skinResults (snd (main_passes idle_main eight_ids 8 fresh_world))
    !! "100003" = Some r
    /\ r ≠ Unknown.
Proof.
  apply (session_leaves_no_Unknown idle_main eight_ids 8 fresh_world "100003").
  - intros pass thread. reflexivity.
  - apply (bool_decide_unpack _). vm_compute. exact I.
Defined.

(** *** The working sets of the retries *)

Lemma collectFailed_sublist ids w : sublist (collectFailed ids w) ids.
Proof.
  induction ids as [|id ids IH]; [constructor|].
  unfold collectFailed in *. cbn [List.filter].
  destruct (match skinResults w !! id with Some _ => _ | None => _ end).
  - by apply sublist_skip.
  - by apply sublist_cons.
Qed.

(** The retries re-download failed identifiers only: the [k]-th call of
    the retry loop (counted from 0) is numbered [retry + 1 + k], and its
    working set is not empty, is a sub-list of the work list in work-list
    order, and holds no identifier that was [Success] or [Skipped] when the
    loop started; the outcome of such an identifier is the same at the end
    of the loop. *)
Theorem retry_working_sets
    (e : main_env) (todo : nat) (retry : Z) (toProcess : list string)
    (maxInstances grandTotal : Z) (w : World) :
  let calls :=
    fst (retry_loop e todo retry toProcess maxInstances grandTotal w) in
  let w' := snd (retry_loop e todo retry toProcess maxInstances grandTotal w) in
  (forall (k : nat) c,
     calls !! k = Some c ->
     pc_pass c = retry + 1 + Z.of_nat k
     /\ pc_toDownload c ≠ []
     /\ sublist (pc_toDownload c) toProcess)
  /\ (forall id,
        skinResults w !! id = Some Success
        \/ skinResults w !! id = Some Skipped ->
        skinResults w' !! id = skinResults w !! id
        /\ forall c, c ∈ calls -> id ∉ pc_toDownload c).
Proof.
  cbn zeta. revert retry w.
  induction todo as [|todo IH]; intros retry w.
  - cbn. split; [done|]. intros id _. split; [done|].
    by intros c ?%elem_of_nil.
  - cbn [retry_loop]. cbn zeta.
    destruct (collectFailed toProcess w) as [|id0 failed] eqn:Hf.
    { cbn. split; [done|]. intros id _. split; [done|].
      by intros c ?%elem_of_nil. }
    rewrite <- Hf.
    match goal with
    | |- context [retry_loop e todo ?r ?t ?m ?g ?w1] =>
        set (w2 := w1) in *; specialize (IH r w2);
        destruct (retry_loop e todo r t m g w2) as [calls w']
    end.
    cbv beta iota. cbn [fst snd] in *. destruct IH as [IH1 IH2].
    assert (Hkeep : forall id,
      skinResults w !! id = Some Success \/ skinResults w !! id = Some Skipped ->
      (id ∉ collectFailed toProcess w)
      /\ skinResults w2 !! id = skinResults w !! id).
    { intros id Hid.
      assert (Hn : id ∉ collectFailed toProcess w).
      { rewrite collectFailed_elem. intros [_ (r & Hr & H1 & H2)].
        destruct Hid as [Hid|Hid]; rewrite Hid in Hr; by simplify_eq. }
      split; [done|]. unfold w2.
      rewrite runPass_results_frame by done.
      rewrite resetCountersForRetry_lookup, decide_False by done.
      by destruct (anyRateLimitDetected _). }
    split.
    + intros [|k] c; cbn [lookup list_lookup].
      * intros [= <-]. cbn [pc_pass pc_toDownload].
        split; [lia|]. split; [by rewrite Hf|]. apply collectFailed_sublist.
      * intros Hc. destruct (IH1 k c Hc) as (H1 & H2 & H3).
        split; [lia|done].
    + intros id Hid. destruct (Hkeep id Hid) as [Hn Hw2].
      destruct (IH2 id) as [H1 H2]; [by rewrite Hw2|].
      split; [by rewrite H1|].
      intros c [->|Hc]%elem_of_cons; [done|by apply H2].
Qed.

(** *** Undoing a tally *)

(** The reset before a retry undoes the tally of a failed item: recording
    an outcome other than [Success] and resetting the item afterwards
    gives back every counter; all that is left is the entry of the item,
    now [Unknown]. *)
Theorem reset_undoes_record (id : string) (sr : SkinResult) (w : World) :
  sr ≠ Success ->
  reset_one (record_result id sr w) id
  = mkWorld (fs w) (<[id := Unknown]> (skinResults w))
      (successCount w) (failedCount w) (skippedCount w) (timeoutCount w)
      (errorCount w) (ratelimitCount w) (lockFailCount w)
      (validationFailCount w) (totalProcessed w) (anyRateLimitDetected w).
Proof.
  intros Hne. unfold reset_one. rewrite skinResults_record_result.
  rewrite lookup_insert_eq.
  destruct sr; try done; cbn; rewrite insert_insert_eq; f_equal; lia.
Qed.

Lemma reset_undoes_record_witness :
  reset_one (record_result "490217825" LockFailed fresh_world) "490217825"
  = mkWorld (fs fresh_world)
      (<["490217825" := Unknown]> (skinResults fresh_world))
      (successCount fresh_world) (failedCount fresh_world)
      (skippedCount fresh_world) (timeoutCount fresh_world)
      (errorCount fresh_world) (ratelimitCount fresh_world)
      (lockFailCount fresh_world) (validationFailCount fresh_world)
      (totalProcessed fresh_world) (anyRateLimitDetected fresh_world).
Proof.
  apply (reset_undoes_record "490217825" LockFailed fresh_world).
  discriminate.
Defined.

End Session.

Section WorkList.
#[local] Set Warnings "-clear-no-such-hyp".
Import Str Downloader.
Local Open Scope list_scope.

Lemma work_list_fold onlyPrev prevFailed skipExisting allIds :
  forall toProcess w,
    let keep id :=
      negb (onlyPrev && negb (bool_decide (id ∈ prevFailed)))
      && negb (skipExisting && folderHasFiles (fs w) (dst_path id)) in
    let res :=
      fold_left (work_list_step onlyPrev prevFailed skipExisting) allIds
        (toProcess, w) in
    fst res = toProcess ++ List.filter keep allIds
    /\ fs (snd res) = fs w
    /\ skippedCount (snd res)
       = skippedCount w + Z.of_nat (length allIds)
         - Z.of_nat (length (List.filter keep allIds))
    /\ (forall id,
          skinResults (snd res) !! id
          = if bool_decide (id ∈ allIds) && negb (keep id) then Some Skipped
            else skinResults w !! id)
    /\ successCount (snd res) = successCount w
    /\ failedCount (snd res) = failedCount w
    /\ totalProcessed (snd res) = totalProcessed w.
Proof.
  induction allIds as [|id0 ids IH]; intros toProcess w; cbn zeta.
  - cbn. rewrite app_nil_r. repeat apply conj; try done; lia.
  - cbn [fold_left work_list_step List.filter length].
    set (k0 := negb (onlyPrev && negb (bool_decide (id0 ∈ prevFailed)))
               && negb (skipExisting && folderHasFiles (fs w) (dst_path id0))).
    assert (Hstep :
      work_list_step onlyPrev prevFailed skipExisting (toProcess, w) id0
      = if k0 then (toProcess ++ [id0], w) else (toProcess, mark_skipped id0 w)).
    { unfold work_list_step, k0.
      destruct (onlyPrev && negb (bool_decide (id0 ∈ prevFailed))); [done|].
      by destruct (skipExisting && folderHasFiles (fs w) (dst_path id0)). }
    cbn [work_list_step] in Hstep. rewrite Hstep. clear Hstep.
    destruct k0 eqn:Hk0.
    + destruct (IH (toProcess ++ [id0]) w) as (H1 & H2 & H3 & H4 & H5 & H6 & H7).
      cbn zeta in *. rewrite H1, <- app_assoc. cbn [app length].
      repeat apply conj; try done; try lia.
      intros id. rewrite H4.
      destruct (decide (id = id0)) as [->|Hne].
      * fold k0 in Hk0. unfold k0 in Hk0. rewrite Hk0. cbn [negb].
        by rewrite !andb_false_r.
      * rewrite (bool_decide_ext (id ∈ id0 :: ids) (id ∈ ids)); [done|].
        rewrite elem_of_cons. naive_solver.
    + destruct (IH toProcess (mark_skipped id0 w))
        as (H1 & H2 & H3 & H4 & H5 & H6 & H7).
      cbn zeta in *. cbn [mark_skipped fs skippedCount skinResults successCount
                          failedCount totalProcessed] in *.
      rewrite H1. repeat apply conj; try done; try lia.
      intros id. rewrite H4.
      destruct (decide (id = id0)) as [->|Hne].
      * rewrite (bool_decide_eq_true_2 (id0 ∈ id0 :: ids)) by (by left).
        unfold k0 in Hk0. rewrite Hk0. cbn [negb andb].
        rewrite lookup_insert_eq. by destruct (bool_decide _ && _).
      * rewrite lookup_insert_ne by done.
        rewrite (bool_decide_ext (id ∈ id0 :: ids) (id ∈ ids)); [done|].
        rewrite elem_of_cons. naive_solver.
Qed.

(** The work list of [main]: with [skipped id] for the two tests of the
    loop (the identifier is outside the previously failed ones while only
    those are wanted, or it is to be skipped because its destination has
    files), the work list is the list of all identifiers without the
    skipped ones, in the same order; every skipped identifier is recorded
    as [Skipped] and counted once per occurrence; the entries of the
    identifiers of the work list, the filesystem and the other counters are
    left alone. *)
Theorem build_work_list_splits
    (allIds : list string) (onlyPrev : bool) (prevFailed : gset string)
    (skipExisting : bool) (w : World) :
  let toProcess :=
    fst (build_work_list allIds onlyPrev prevFailed skipExisting w) in
  let w' := snd (build_work_list allIds onlyPrev prevFailed skipExisting w) in
  let skipped id :=
    onlyPrev && negb (bool_decide (id ∈ prevFailed))
    || skipExisting && folderHasFiles (fs w) (dst_path id) in
  toProcess = List.filter (fun id => negb (skipped id)) allIds
  /\ (forall id, id ∈ allIds -> skipped id = true ->
        skinResults w' !! id = Some Skipped)
  /\ (forall id, id ∈ toProcess -> skinResults w' !! id = skinResults w !! id)
  /\ skippedCount w'
     = skippedCount w + Z.of_nat (length allIds) - Z.of_nat (length toProcess)
  /\ fs w' = fs w
  /\ successCount w' = successCount w
  /\ failedCount w' = failedCount w
  /\ totalProcessed w' = totalProcessed w.
Proof.
  cbn zeta. unfold build_work_list.
  destruct (work_list_fold onlyPrev prevFailed skipExisting allIds [] w)
    as (H1 & H2 & H3 & H4 & H5 & H6 & H7).
  cbn zeta in *. cbn [app] in H1.
  assert (Hf : List.filter
                 (fun id =>
                    negb (onlyPrev && negb (bool_decide (id ∈ prevFailed)))
                    && negb (skipExisting
                             && folderHasFiles (fs w) (dst_path id))) allIds
               = List.filter
                   (fun id =>
                      negb (onlyPrev && negb (bool_decide (id ∈ prevFailed))
                            || skipExisting
                               && folderHasFiles (fs w) (dst_path id))) allIds).
  { apply filter_ext. intros id. by rewrite negb_orb. }
  rewrite Hf in *. repeat apply conj; try done; try (rewrite H1; lia).
  - intros id Hin Hs. rewrite H4, bool_decide_eq_true_2 by done.
    rewrite <- negb_orb, Hs. done.
  - intros id Hin. rewrite H4. rewrite H1 in Hin.
    apply list_elem_of_In, filter_In in Hin as [_ Hk].
    rewrite <- negb_orb, Hk. cbn [negb]. by rewrite andb_false_r.
Qed.

(** *** The file of failed identifiers *)

Lemma writeReport_failFile w ids : forall out,
  snd (fold_left (report_item w) ids out)
  = snd out +:+ AcfPatcher.write_lines (collectFailed ids w).
Proof.
  induction ids as [|id ids IH]; intros out.
  - cbn. by rewrite append_nil_r.
  - cbn [fold_left]. rewrite IH. unfold collectFailed. cbn [List.filter].
    unfold report_item.
    destruct (skinResults w !! id) as [r|]; [|done].
    destruct (negb (bool_decide (r = Success))
              && negb (bool_decide (r = Skipped))); [|done].
    cbn [snd]. rewrite write_lines_cons. unfold AcfPatcher.nl.
    by rewrite !append_assoc.
Qed.

Lemma identifier_line id :
  is_identifier id = true -> no_lf id = true /\ id ≠ EmptyString.
Proof.
  intros H. split.
  - apply digits_no_lf. unfold is_identifier in H.
    by apply andb_prop in H as [_ H].
  - by intros ->.
Qed.

Lemma read_prevFailed_written now allIds w :
  Forall (fun id => is_identifier id = true) allIds ->
  read_prevFailed (Some (snd (writeReport now allIds w)))
  = list_to_set (collectFailed allIds w).
Proof.
  intros Hall. unfold read_prevFailed, writeReport.
  rewrite writeReport_failFile. cbn [snd]. rewrite append_nil_l.
  assert (Hf : Forall (fun id => is_identifier id = true)
                 (collectFailed allIds w)).
  { rewrite Forall_forall in *. intros id [Hin _]%collectFailed_elem. auto. }
  rewrite getlines_write_lines.
  - f_equal. induction Hf as [|id ids Hid _ IH]; [done|].
    cbn [List.filter]. apply identifier_line in Hid as [_ Hne].
    rewrite bool_decide_eq_false_2 by done. cbn [negb]. by rewrite IH.
  - eapply Forall_impl; [exact Hf|]. intros id Hid.
    by apply identifier_line in Hid as [? _].
Qed.

(** The file of failed identifiers round-trips into the next session: read
    back, the file [writeReport] writes gives exactly the set of the
    identifiers that ended neither [Success] nor [Skipped]; so when at
    least one failed and the user asks to retry only those (without
    skipping existing items), the work list of the next session over the
    same identifiers is the list of the failed ones, in order; and when
    none failed the file is empty, the answer is ignored, and every
    identifier is on the work list again. *)
Theorem failed_ids_round_trip
    (now : string) (allIds : list string) (w w2 : World) (answer : ascii) :
  Forall (fun id => is_identifier id = true) allIds ->
  let file := Some (snd (writeReport now allIds w)) in
  read_prevFailed file = list_to_set (collectFailed allIds w)
  /\ (collectFailed allIds w ≠ [] -> is_yes answer = true ->
      fst (build_work_list allIds (onlyPrevFailed file answer)
             (read_prevFailed file) false w2)
      = collectFailed allIds w)
  /\ (collectFailed allIds w = [] ->
      fst (build_work_list allIds (onlyPrevFailed file answer)
             (read_prevFailed file) false w2)
      = allIds).
Proof.
  intros Hall. cbn zeta.
  pose proof (read_prevFailed_written now allIds w Hall) as Hr.
  split; [exact Hr|].
  unfold build_work_list.
  destruct (work_list_fold
              (onlyPrevFailed (Some (snd (writeReport now allIds w))) answer)
              (read_prevFailed (Some (snd (writeReport now allIds w))))
              false allIds [] w2) as (H1 & _).
  cbn zeta in H1. cbn [app] in H1. rewrite H1. clear H1.
  unfold onlyPrevFailed. rewrite Hr. split.
  - intros Hne Hy. rewrite Hy.
    rewrite bool_decide_eq_false_2.
    2:{ destruct (collectFailed allIds w) as [|id0 l]; [done|].
        cbn [list_to_set]. set_solver. }
    cbn [negb andb]. unfold collectFailed at 2.
    apply filter_ext_in. intros id Hin. apply list_elem_of_In in Hin.
    rewrite andb_true_r, negb_involutive.
    destruct (bool_decide (id ∈ _)) eqn:Hb.
    + apply bool_decide_eq_true in Hb. rewrite elem_of_list_to_set in Hb.
      apply collectFailed_elem in Hb as [_ (r & -> & H1 & H2)].
      by rewrite !bool_decide_eq_false_2.
    + apply bool_decide_eq_false in Hb. rewrite elem_of_list_to_set in Hb.
      rewrite collectFailed_elem in Hb.
      destruct (skinResults w !! id) as [r|]; [|done].
      destruct (decide (r = Success)) as [->|H1]; [done|].
      destruct (decide (r = Skipped)) as [->|H2]; [done|].
      exfalso. apply Hb. eauto.
  - intros ->. cbn [list_to_set]. rewrite bool_decide_eq_true_2 by done.
    cbn [negb andb]. clear. induction allIds as [|id ids IH]; [done|].
    cbn [List.filter]. cbn. by rewrite IH.
Qed.

Lemma failed_ids_round_trip_witness :
  let w := snd (workerInstance idle_worker ["490217825"] 0 1 1 fresh_world) in
  let file := Some (snd (writeReport "12:00:00" ["490217825"] w)) in
  read_prevFailed file = list_to_set (collectFailed ["490217825"] w)
  /\ (collectFailed ["490217825"] w ≠ [] -> is_yes "y" = true ->
      fst (build_work_list ["490217825"] (onlyPrevFailed file "y")
             (read_prevFailed file) false fresh_world)
      = collectFailed ["490217825"] w)
  /\ (collectFailed ["490217825"] w = [] ->
      fst (build_work_list ["490217825"] (onlyPrevFailed file "y")
             (read_prevFailed file) false fresh_world)
      = ["490217825"]).
Proof.
  intros w.
  apply (failed_ids_round_trip "12:00:00" ["490217825"] w fresh_world "y").
  repeat constructor.
Defined.

(** The run of the witness: the item that failed is written to the file
    of failed identifiers and is the work list of the next session. *)
Example failed_item_reported :
  let w := snd (workerInstance idle_worker ["490217825"] 0 1 1 fresh_world) in
  let out := writeReport "12:00:00" ["490217825"] w in
  snd out = "490217825" +:+ String LF EmptyString
  /\ fst (build_work_list ["490217825"] (onlyPrevFailed (Some (snd out)) "y")
            (read_prevFailed (Some (snd out))) false fresh_world)
     = ["490217825"].
Proof. vm_compute. split; reflexivity. Qed.

End WorkList.

Section MoveFrame.
#[local] Set Warnings "-clear-no-such-hyp".
Import Str Downloader.

(** Two paths that end in a separator and a run of digits are equal only
    when the runs are. *)
Lemma slash_digits_inj (a a' id id' : string) :
  all_digits id = true -> all_digits id' = true ->
  a +:+ "/" +:+ id = a' +:+ "/" +:+ id' -> id = id'.
Proof.
  intros Hid Hid'.
  change (a +:+ String "/" id = a' +:+ String "/" id' -> id = id').
  assert (Hno : forall b s r, all_digits s = true -> s ≠ b +:+ String "/" r).
  { induction b as [|x b IH]; intros s r Hs E.
    - rewrite append_nil_l in E. subst s. cbn in Hs. discriminate.
    - rewrite append_cons in E. subst s. cbn in Hs.
      apply andb_prop in Hs as [_ Hs]. exact (IH _ _ Hs eq_refl). }
  revert a'. induction a as [|x a IH]; intros [|x' a'] E.
  - rewrite !append_nil_l in E. by injection E.
  - rewrite append_nil_l, append_cons in E. injection E as _ E.
    exfalso. exact (Hno a' id id' Hid E).
  - rewrite append_nil_l, append_cons in E. injection E as _ E.
    exfalso. exact (Hno a id' id Hid' (eq_sym E)).
  - rewrite !append_cons in E. injection E as _ E. by eapply IH.
Qed.

Lemma identifier_digits id : is_identifier id = true -> all_digits id = true.
Proof. unfold is_identifier. by intros [_ ?]%andb_prop. Qed.

(** Distinct identifiers have distinct sources, in whatever instance
    directories. *)
Lemma src_path_distinct inst inst' id id' :
  is_identifier id = true -> is_identifier id' = true -> id' ≠ id ->
  src_path inst' id' ≠ src_path inst id.
Proof.
  intros H H' Hne E. rewrite !src_path_relative in E by done.
  apply Hne. eapply slash_digits_inj; [| |exact E]; by apply identifier_digits.
Qed.

(** No source is a staging directory. *)
Lemma src_staging_distinct threadId inst sub id :
  is_identifier id = true -> sub ∈ stagingSubdirs ->
  path_join inst sub ≠ src_path (instance_dir threadId) id.
Proof.
  intros H Hs E. rewrite src_path_relative in E by done.
  unfold stagingSubdirs in Hs.
  repeat (apply elem_of_cons in Hs as [-> | Hs];
          [unfold instance_dir in E; vm_compute in E; discriminate|]).
  by apply elem_of_nil in Hs.
Qed.

(** Moving one item leaves the directories of every other item alone,
    whatever the filesystem answers (a rename, a copy that succeeds or
    breaks off, a removal that fails): the destination of another
    identifier in the shared tree, the source of another identifier in any
    instance directory, and the staging directories are as they were. *)
Theorem moveSkinToShared_leaves_other_items
    (e : move_env) (threadId : Z) (skinId : string) (fs : FS) :
  is_identifier skinId = true ->
  let fs' := snd (moveSkinToShared e (instance_dir threadId) skinId fs) in
  (forall id', is_identifier id' = true -> id' ≠ skinId ->
     fs' !! dst_path id' = fs !! dst_path id')
  /\ (forall id' threadId', is_identifier id' = true -> id' ≠ skinId ->
        fs' !! src_path (instance_dir threadId') id'
        = fs !! src_path (instance_dir threadId') id')
  /\ (forall inst sub, sub ∈ stagingSubdirs ->
        fs' !! path_join inst sub = fs !! path_join inst sub).
Proof.
  intros Hid. cbn zeta. repeat apply conj.
  - intros id' Hid' Hne. apply move_frame.
    + by apply dst_src_distinct.
    + intros E. apply Hne. by apply dst_path_inj.
  - intros id' threadId' Hid' Hne. apply move_frame.
    + by apply src_path_distinct.
    + intros E. symmetry in E. revert E. by apply dst_src_distinct.
  - intros inst sub Hsub. apply move_frame.
    + by apply src_staging_distinct.
    + intros E. symmetry in E. revert E. by apply dst_staging_distinct.
Qed.

Lemma moveSkinToShared_leaves_other_items_witness :
  let fs0 : FS :=
    <[src_path (instance_dir 0) "490217825" := Dir [("skin.json", File 1)]]>
      (<[dst_path "100001" := Dir [("a.png", File 7)]]> ∅) in
  let fs' := snd (moveSkinToShared calm_move (instance_dir 0) "490217825" fs0) in
  (forall id', is_identifier id' = true -> id' ≠ "490217825" ->
     fs' !! dst_path id' = fs0 !! dst_path id')
  /\ (forall id' threadId', is_identifier id' = true -> id' ≠ "490217825" ->
        fs' !! src_path (instance_dir threadId') id'
        = fs0 !! src_path (instance_dir threadId') id')
  /\ (forall inst sub, sub ∈ stagingSubdirs ->
        fs' !! path_join inst sub = fs0 !! path_join inst sub).
Proof.
  intros fs0.
  apply (moveSkinToShared_leaves_other_items calm_move 0 "490217825" fs0).
  reflexivity.
Defined.

(** The run of the witness: item 490217825 is moved and the directory of
    item 100001 keeps its file. *)
Example other_item_untouched :
  let fs0 : FS :=
    <[src_path (instance_dir 0) "490217825" := Dir [("skin.json", File 1)]]>
      (<[dst_path "100001" := Dir [("a.png", File 7)]]> ∅) in
  let fs' := snd (moveSkinToShared calm_move (instance_dir 0) "490217825" fs0) in
  fs' !! dst_path "490217825" = Some (Dir [("skin.json", File 1)])
  /\ fs' !! dst_path "100001" = Some (Dir [("a.png", File 7)]).
Proof. vm_compute. split; reflexivity. Qed.

End MoveFrame.

Section FilesystemHelpers.
#[local] Set Warnings "-clear-no-such-hyp".
Import Str Downloader.

(** A move that reported success is not repeated: a second call for the
    same item, whatever the filesystem would answer, reports success again
    and changes nothing. *)
Theorem moveSkinToShared_again
    (e e' : move_env) (instanceDir skinId : string) (fs : FS) :
  fst (moveSkinToShared e instanceDir skinId fs) = true ->
  let fs' := snd (moveSkinToShared e instanceDir skinId fs) in
  moveSkinToShared e' instanceDir skinId fs' = (true, fs').
Proof.
  intros Hmv. cbn zeta. apply move_true_hasFiles in Hmv.
  unfold moveSkinToShared at 1. by rewrite Hmv.
Qed.

Lemma moveSkinToShared_again_witness :
  let fs0 : FS :=
    <[src_path (instance_dir 0) "490217825" := Dir [("skin.json", File 1)]]> ∅ in
  let fs' := snd (moveSkinToShared calm_move (instance_dir 0) "490217825" fs0) in
  moveSkinToShared calm_move (instance_dir 0) "490217825" fs' = (true, fs').
Proof.
  intros fs0.
  apply (moveSkinToShared_again calm_move calm_move (instance_dir 0)
           "490217825" fs0).
  vm_compute. reflexivity.
Defined.

(** The rename path: when the source directory has files, the destination
    does not exist or is an empty directory, and neither
    [create_directories] nor [rename] throws, the move reports success, the
    destination holds exactly the tree that was at the source, and the
    source path is gone. *)
Theorem moveSkinToShared_renames
    (e : move_env) (threadId : Z) (skinId : string) (fs : FS) (tree : node) :
  is_identifier skinId = true ->
  rename_throws e = false ->
  fs !! src_path (instance_dir threadId) skinId = Some tree ->
  folderHasFiles fs (src_path (instance_dir threadId) skinId) = true ->
  rename_target_free (fs !! dst_path skinId) = true ->
  let fs' := snd (moveSkinToShared e (instance_dir threadId) skinId fs) in
  fst (moveSkinToShared e (instance_dir threadId) skinId fs) = true
  /\ fs' !! dst_path skinId = Some tree
  /\ fs' !! src_path (instance_dir threadId) skinId = None.
Proof.
  intros Hid Hr Hsrc Hfiles Hfree. cbn zeta. unfold moveSkinToShared.
  assert (Hd : folderHasFiles fs (dst_path skinId) = false).
  { unfold folderHasFiles.
    destruct (fs !! dst_path skinId) as [[|[|]]|]; done. }
  rewrite Hd, Hfiles, Hsrc, Hr, Hfree. cbn [negb andb fst snd].
  split; [|split].
  - unfold folderHasFiles in *. rewrite lookup_insert_eq. by rewrite Hsrc in Hfiles.
  - apply lookup_insert_eq.
  - rewrite lookup_insert_ne, lookup_delete_eq; [done|].
    by apply dst_src_distinct.
Qed.

Lemma moveSkinToShared_renames_witness :
  let fs0 : FS :=
    <[src_path (instance_dir 0) "490217825" := Dir [("skin.json", File 1)]]> ∅ in
  let fs' := snd (moveSkinToShared calm_move (instance_dir 0) "490217825" fs0) in
  fst (moveSkinToShared calm_move (instance_dir 0) "490217825" fs0) = true
  /\ fs' !! dst_path "490217825" = Some (Dir [("skin.json", File 1)])
  /\ fs' !! src_path (instance_dir 0) "490217825" = None.
Proof.
  intros fs0.
  apply (moveSkinToShared_renames calm_move 0 "490217825" fs0
           (Dir [("skin.json", File 1)]));
    vm_compute; reflexivity.
Defined.

(** *** The staging clean-up *)

(** The staging sub-paths are written with a leading separator, and
    [operator/] drops its left operand before such a path: the clean-up
    addresses the same three rooted paths for every instance directory.
    Its effect does not depend on the instance directory, and it changes
    no path other than the three paths of [stagingSubdirs] themselves. *)
Theorem cleanStagingFolder_ignores_instance_dir
    (e : clean_env) (instanceDir instanceDir' : string) (fs : FS) :
  cleanStagingFolder e instanceDir fs = cleanStagingFolder e instanceDir' fs
  /\ (forall p, p ∉ stagingSubdirs ->
        cleanStagingFolder e instanceDir fs !! p = fs !! p).
Proof.
  split; [reflexivity|].
  intros p Hp. unfold cleanStagingFolder, stagingSubdirs in *.
  cbn [fold_left]. cbn [path_join].
  repeat match goal with
         | |- context [match ?m !! ?q with _ => _ end] =>
             destruct (m !! q) as [[|?]|]
         end;
    rewrite ?lookup_insert_ne; try done; intros <-; apply Hp; set_solver.
Qed.

(** *** The shared lock files *)

Lemma from_last_dot_no_dot s :
  all_chars (fun c => negb (Ascii.eqb c ".")) s = true ->
  from_last_dot s = None.
Proof.
  induction s as [|c s IH]; [done|]. cbn [all_chars from_last_dot].
  intros [Hc Hs]%andb_prop. rewrite (IH Hs).
  by apply negb_true_iff in Hc as ->.
Qed.

Lemma from_last_dot_ext s ext :
  all_chars (fun c => negb (Ascii.eqb c ".")) ext = true ->
  from_last_dot (s +:+ "." +:+ ext) = Some ("." +:+ ext).
Proof.
  intros Hext. induction s as [|c s IH].
  - rewrite append_nil_l. rewrite append_cons, append_nil_l.
    cbn [from_last_dot]. by rewrite (from_last_dot_no_dot _ Hext).
  - rewrite append_cons. cbn [from_last_dot]. by rewrite IH.
Qed.

(** A file name with a non-empty stem before its last dot has the text
    from that dot on as its extension. *)
Lemma extension_stem stem ext :
  stem ≠ EmptyString -> ext ≠ EmptyString ->
  all_chars (fun c => negb (Ascii.eqb c ".")) ext = true ->
  extension (stem +:+ "." +:+ ext) = "." +:+ ext.
Proof.
  intros Hs He Hext. destruct stem as [|c stem]; [done|].
  rewrite append_cons. unfold extension.
  rewrite bool_decide_eq_false_2.
  - by rewrite from_last_dot_ext.
  - intros E. injection E as _ E. destruct stem as [|c' stem].
    + rewrite append_nil_l, append_cons, append_nil_l in E.
      injection E as E. done.
    + rewrite append_cons in E. injection E as _ E.
      destruct stem; discriminate.
Qed.

(** The clean-up of the shared downloads directory removes every regular
    file named [stem.patch] or [stem.lock] with a non-empty stem, keeps
    the other entries in their order -- among them every entry with
    another extension, and a file named just [.patch] or [.lock], which
    has no extension --, changes no other path, and has nothing left to do
    when run again. *)
Theorem cleanSharedPatchFiles_removes_locks (fs : FS) :
  let downloadsDir :=
    path_join (path_join (path_join SHARED_DIR "steamapps") "workshop")
      "downloads" in
  (forall p, p ≠ downloadsDir -> cleanSharedPatchFiles fs !! p = fs !! p)
  /\ cleanSharedPatchFiles (cleanSharedPatchFiles fs) = cleanSharedPatchFiles fs
  /\ (forall entries,
        fs !! downloadsDir = Some (Dir entries) ->
        exists entries',
          cleanSharedPatchFiles fs !! downloadsDir = Some (Dir entries')
          /\ sublist entries' entries
          /\ (forall stem size,
                stem ≠ EmptyString ->
                ((stem +:+ ".patch", File size) ∉ entries')
                /\ ((stem +:+ ".lock", File size) ∉ entries'))
          /\ (forall name n,
                (name, n) ∈ entries ->
                extension name ≠ ".patch" -> extension name ≠ ".lock" ->
                (name, n) ∈ entries')
          /\ (forall n, (".patch", n) ∈ entries -> (".patch", n) ∈ entries')
          /\ (forall n, (".lock", n) ∈ entries -> (".lock", n) ∈ entries')).
Proof.
  cbn zeta.
  set (d := path_join (path_join (path_join SHARED_DIR "steamapps") "workshop")
              "downloads").
  set (gone := fun e : string * node =>
         negb ((bool_decide (extension (fst e) = ".patch")
                || bool_decide (extension (fst e) = ".lock"))
               && match snd e with
                  | Dir (_ :: _) => false
                  | _ => true
                  end)).
  assert (Hdef : forall fs0 : FS,
    cleanSharedPatchFiles fs0
    = match fs0 !! d with
      | Some (Dir entries) => <[d := Dir (List.filter gone entries)]> fs0
      | _ => fs0
      end) by reflexivity.
  assert (Hkeep : forall entries name n,
    (name, n) ∈ entries ->
    extension name ≠ ".patch" -> extension name ≠ ".lock" ->
    (name, n) ∈ List.filter gone entries).
  { intros entries name n Hin H1 H2.
    apply list_elem_of_In, filter_In. split; [by apply list_elem_of_In|].
    unfold gone. cbn [fst snd]. by rewrite !bool_decide_eq_false_2. }
  split; [|split].
  - intros p Hp. rewrite Hdef.
    destruct (fs !! d) as [[|entries]|]; try done. by rewrite lookup_insert_ne.
  - rewrite (Hdef (cleanSharedPatchFiles fs)), (Hdef fs).
    destruct (fs !! d) as [[|entries]|] eqn:E; rewrite ?E; try done.
    rewrite lookup_insert_eq, insert_insert_eq. do 2 f_equal.
    clear. induction entries as [|en entries IH]; [done|].
    cbn [List.filter]. destruct (gone en) eqn:G; [|done].
    cbn [List.filter]. by rewrite G, IH.
  - intros entries Hd. exists (List.filter gone entries).
    rewrite Hdef, Hd, lookup_insert_eq. split; [done|]. split.
    { clear. induction entries as [|en entries IH]; [constructor|].
      cbn [List.filter]. destruct (gone en).
      - by apply sublist_skip.
      - by apply sublist_cons. }
    split; [|split; [by apply Hkeep|split]].
    + intros stem size Hs. split; intros Hin;
        apply list_elem_of_In, filter_In in Hin as [_ Hg];
        unfold gone in Hg; cbn [fst snd] in Hg.
      * change (stem +:+ ".patch") with (stem +:+ "." +:+ "patch") in Hg.
        rewrite extension_stem in Hg by done. vm_compute in Hg. discriminate.
      * change (stem +:+ ".lock") with (stem +:+ "." +:+ "lock") in Hg.
        rewrite extension_stem in Hg by done. vm_compute in Hg. discriminate.
    + intros n Hin. apply Hkeep; [done| |]; vm_compute; discriminate.
    + intros n Hin. apply Hkeep; [done| |]; vm_compute; discriminate.
Qed.

(** A shared downloads directory with two lock files, a file named just
    [.lock], a non-empty directory with a lock extension and a payload:
    the two lock files go. *)
Example shared_locks_cleaned :
  let d := path_join (path_join (path_join SHARED_DIR "steamapps") "workshop")
             "downloads" in
  let fs0 : FS :=
    {[ d := Dir [ ("state_252490.patch", File 12); ("item.lock", File 0);
                  (".lock", File 1); ("held.lock", Dir [("x", File 1)]);
                  ("payload.bin", File 9) ] ]} in
  cleanSharedPatchFiles fs0 !! d
  = Some (Dir [ (".lock", File 1); ("held.lock", Dir [("x", File 1)]);
                ("payload.bin", File 9) ]).
Proof. vm_compute. reflexivity. Qed.

End FilesystemHelpers.

Section CopyFallback.
Import Str Downloader.

(** The copy fallback when a regular file of the source meets a directory
    of the same name at the destination: the file is copied into that
    directory, the source is removed, and the move reports failure because
    the destination still has no regular file of its own. *)
Example file_meets_directory :
  let e := {| rename_throws := false; copy_throws := false; copy_left := None;
              remove_throws := false; remove_left := None |} in
  let src := src_path (instance_dir 0) "490217825" in
  let dst := dst_path "490217825" in
  let fs0 : FS :=
    <[src := Dir [("x", File 1)]]> (<[dst := Dir [("x", Dir [])]]> ∅) in
  moveSkinToShared e (instance_dir 0) "490217825" fs0
  = (false, <[dst := Dir [("x", Dir [("x", File 1)])]]> ∅).
Proof. vm_compute. reflexivity. Qed.

End CopyFallback.

(** * Further properties of the manifest patcher *)

Section StringHelpers.
#[local] Set Warnings "-clear-no-such-hyp".
Import Str AcfPatcher.

Lemma trim_left_split s :
  exists a, s = a +:+ trim_left s /\ all_chars is_space a = true
            /\ stops is_space (trim_left s).
Proof.
  induction s as [|c s (a & Hs & Ha & Hst)].
  - by exists EmptyString.
  - cbn [trim_left]. destruct (is_space c) eqn:Hc.
    + exists (String c a). rewrite append_cons, <- Hs. cbn. by rewrite Hc, Ha.
    + by exists EmptyString.
Qed.

Lemma trim_right_split s :
  exists b, s = trim_right s +:+ b /\ all_chars is_space b = true
            /\ (forall c, last_char (trim_right s) = Some c -> is_space c = false).
Proof.
  induction s as [|c s (b & Hs & Hb & Hl)].
  - by exists EmptyString.
  - cbn [trim_right]. destruct (trim_right s) as [|d t] eqn:Ht.
    + rewrite append_nil_l in Hs. subst b. destruct (is_space c) eqn:Hc.
      * exists (String c s). rewrite append_nil_l. cbn. by rewrite Hc, Hb.
      * exists s. split; [done|]. split; [done|]. cbn. by intros ? [= <-].
    + exists b. rewrite append_cons, <- Hs. split; [done|]. split; [done|].
      intros c'. cbn [last_char]. apply Hl.
Qed.

Lemma trim_right_fixed t :
  (forall c, last_char t = Some c -> is_space c = false) -> trim_right t = t.
Proof.
  induction t as [|c t IH]; [done|]. intros Hl. cbn [trim_right].
  destruct t as [|d t].
  - cbn. by rewrite (Hl c eq_refl).
  - rewrite IH; [done|]. intros c'. apply Hl.
Qed.

Lemma trim_left_fixed t : stops is_space t -> trim_left t = t.
Proof. destruct t as [|c t]; [done|]. cbn. by intros ->. Qed.

Lemma trim_right_stops t : stops is_space t -> stops is_space (trim_right t).
Proof.
  destruct t as [|c t]; [done|]. intros Hc.
  destruct (trim_right_head c t Hc) as (t' & ->). exact Hc.
Qed.

Lemma trim_left_empty s :
  trim_left s = EmptyString <-> all_chars is_space s = true.
Proof.
  induction s as [|c s IH]; [done|]. cbn [trim_left all_chars].
  destruct (is_space c); [exact IH|]. split; discriminate.
Qed.

(** [trimStr] cuts a run of blanks, tabs, carriage returns and line feeds
    off each end and nothing else: the argument is the result between two
    such runs, the result neither starts nor ends with a character of the
    set, trimming again changes nothing, and the result is empty exactly
    when the argument holds characters of the set only. *)
Theorem trimStr_spec (s : string) :
  (exists a b,
     s = a +:+ trimStr s +:+ b
     /\ all_chars is_space a = true /\ all_chars is_space b = true)
  /\ stops is_space (trimStr s)
  /\ (forall c, last_char (trimStr s) = Some c -> is_space c = false)
  /\ trimStr (trimStr s) = trimStr s
  /\ (trimStr s = EmptyString <-> all_chars is_space s = true).
Proof.
  unfold trimStr.
  destruct (trim_left_split s) as (a & Hs & Ha & Hst).
  destruct (trim_right_split (trim_left s)) as (b & Ht & Hb & Hl).
  pose proof (trim_right_stops _ Hst) as Hst'.
  split; [|split; [done|split; [done|split]]].
  - exists a, b. by rewrite <- Ht, <- Hs.
  - rewrite (trim_left_fixed _ Hst'). by apply trim_right_fixed.
  - rewrite <- trim_left_empty. split.
    + intros E. destruct (trim_left s) as [|c t]; [done|].
      destruct (trim_right_head c t Hst) as (t' & Ht'). congruence.
    + by intros ->.
Qed.

Lemma after_quote_no_quote s :
  all_chars (fun c => negb (Ascii.eqb c QUOTE)) s = true ->
  after_quote s = None /\ before_quote s = None.
Proof.
  induction s as [|c s IH]; [done|]. cbn [all_chars after_quote before_quote].
  intros [Hc Hs]%andb_prop. apply negb_true_iff in Hc. rewrite Hc.
  destruct (IH Hs) as [-> ->]. done.
Qed.

Lemma after_quote_first pre r :
  all_chars (fun c => negb (Ascii.eqb c QUOTE)) pre = true ->
  after_quote (pre +:+ String QUOTE r) = Some r
  /\ before_quote (pre +:+ String QUOTE r) = Some pre.
Proof.
  induction pre as [|c pre IH].
  - intros _. rewrite append_nil_l. cbn. by rewrite Ascii.eqb_refl.
  - cbn [all_chars]. intros [Hc Hs]%andb_prop. apply negb_true_iff in Hc.
    rewrite append_cons. cbn [after_quote before_quote]. rewrite Hc.
    destruct (IH Hs) as [-> ->]. done.
Qed.

(** [firstQuotedToken] returns what stands between the first two double
    quotes of a line, whatever follows the second; a line with no double
    quote, or with one only, gives the empty string. *)
Theorem firstQuotedToken_spec :
  (forall pre tok rest,
     all_chars (fun c => negb (Ascii.eqb c QUOTE)) pre = true ->
     all_chars (fun c => negb (Ascii.eqb c QUOTE)) tok = true ->
     firstQuotedToken (pre +:+ String QUOTE tok +:+ String QUOTE rest) = tok)
  /\ (forall s,
        all_chars (fun c => negb (Ascii.eqb c QUOTE)) s = true ->
        firstQuotedToken s = EmptyString)
  /\ (forall pre post,
        all_chars (fun c => negb (Ascii.eqb c QUOTE)) pre = true ->
        all_chars (fun c => negb (Ascii.eqb c QUOTE)) post = true ->
        firstQuotedToken (pre +:+ String QUOTE post) = EmptyString).
Proof.
  unfold firstQuotedToken. repeat apply conj.
  - intros pre tok rest Hpre Htok. rewrite append_cons.
    destruct (after_quote_first pre (tok +:+ String QUOTE rest) Hpre) as [-> _].
    by destruct (after_quote_first tok rest Htok) as [_ ->].
  - intros s Hs. by destruct (after_quote_no_quote s Hs) as [-> _].
  - intros pre post Hpre Hpost.
    destruct (after_quote_first pre post Hpre) as [-> _].
    by destruct (after_quote_no_quote post Hpost) as [_ ->].
Qed.

(** The two sample lines of the comment above [firstQuotedToken]. *)
Example firstQuotedToken_samples :
  firstQuotedToken (String TAB (quoted "WorkshopItemsInstalled"))
  = "WorkshopItemsInstalled"
  /\ firstQuotedToken (tab2 +:+ quoted "size" +:+ tab2 +:+ quoted "2615900")
     = "size"
  /\ trimStr (" " +:+ tab2 +:+ "}" +:+ String CR EmptyString) = "}".
Proof. repeat split; vm_compute; reflexivity. Qed.

End StringHelpers.

Section ParserReports.
#[local] Set Warnings "-clear-no-such-hyp".
Import Str AcfPatcher.
Local Open Scope list_scope.

(** An identifier a line adds to a section is numeric and is the first
    quoted token of that line. *)
Lemma parse_step_ids i line st id :
  (id ∈ installedIds (info (parse_step i line st)) ->
   id ∈ installedIds (info st)
   \/ isAllDigits id = true /\ firstQuotedToken (trimStr line) = id)
  /\ (id ∈ detailsIds (info (parse_step i line st)) ->
      id ∈ detailsIds (info st)
      \/ isAllDigits id = true /\ firstQuotedToken (trimStr line) = id).
Proof.
  unfold parse_step.
  repeat (case_bool_decide || case_match
          || cbn [info installedIds detailsIds]);
    simplify_eq; cbn [info installedIds detailsIds];
    split; intros Hin; try (by left);
    apply elem_of_union in Hin as [Hin%elem_of_singleton | Hin];
    subst; auto.
Qed.

Lemma parse_loop_ids lines id : forall i st,
  (id ∈ installedIds (info (parse_loop i lines st)) ->
   id ∈ installedIds (info st)
   \/ isAllDigits id = true
      /\ exists l, l ∈ lines /\ firstQuotedToken (trimStr l) = id)
  /\ (id ∈ detailsIds (info (parse_loop i lines st)) ->
      id ∈ detailsIds (info st)
      \/ isAllDigits id = true
         /\ exists l, l ∈ lines /\ firstQuotedToken (trimStr l) = id).
Proof.
  induction lines as [|line lines IH]; intros i st; cbn [parse_loop].
  - split; by left.
  - destruct (IH (i + 1) (parse_step i line st)) as [I1 I2].
    destruct (parse_step_ids i line st id) as [S1 S2].
    split; intros Hin.
    + destruct (I1 Hin) as [H | (Hd & l & Hl & Ht)].
      * destruct (S1 H) as [? | [Hd Ht]]; [by left|].
        right. split; [done|]. exists line. split; [by left|done].
      * right. split; [done|]. exists l. split; [by right|done].
    + destruct (I2 Hin) as [H | (Hd & l & Hl & Ht)].
      * destruct (S2 H) as [? | [Hd Ht]]; [by left|].
        right. split; [done|]. exists line. split; [by left|done].
      * right. split; [done|]. exists l. split; [by right|done].
Qed.

(** What [parseAcf] reports: every identifier of either section is a
    non-empty run of digits and the first quoted token of a line of the
    manifest; each closing index is -1 or the index of a line whose trimmed
    text is a closing brace; and the two closing indices, when both are
    found, are different lines. *)
Theorem parseAcf_reports (lines : list string) :
  let acf := parseAcf lines in
  (forall id,
     id ∈ installedIds acf \/ id ∈ detailsIds acf ->
     isAllDigits id = true
     /\ exists l, l ∈ lines /\ firstQuotedToken (trimStr l) = id)
  /\ -1 <= installedCloseLineIdx acf < Z.of_nat (length lines)
  /\ -1 <= detailsCloseLineIdx acf < Z.of_nat (length lines)
  /\ (0 <= installedCloseLineIdx acf ->
      exists l, lines !! Z.to_nat (installedCloseLineIdx acf) = Some l
                /\ trimStr l = "}")
  /\ (0 <= detailsCloseLineIdx acf ->
      exists l, lines !! Z.to_nat (detailsCloseLineIdx acf) = Some l
                /\ trimStr l = "}")
  /\ (0 <= installedCloseLineIdx acf -> 0 <= detailsCloseLineIdx acf ->
      installedCloseLineIdx acf ≠ detailsCloseLineIdx acf).
Proof.
  cbn zeta.
  destruct (parseAcf_idx_bound lines) as [B1 B2].
  destruct (parseAcf_close_states lines) as [C1 C2].
  repeat apply conj; try lia.
  - intros id Hid. unfold parseAcf in Hid.
    destruct (parse_loop_ids lines id 0 parse_init) as [I1 I2].
    destruct Hid as [Hid|Hid]; [destruct (I1 Hid) as [H|H] | destruct (I2 Hid) as [H|H]];
      try done; cbn in H; set_solver.
  - intros H0. destruct (C1 H0) as (_ & _ & Hl). exact Hl.
  - intros H0. destruct (C2 H0) as (_ & _ & Hl). exact Hl.
  - intros H1 H2 E. destruct (C1 H1) as (Hc1 & _). destruct (C2 H2) as (Hc2 & _).
    cbn zeta in *. rewrite E in Hc1. congruence.
Qed.

(** Both closing lines of the installed-first manifest are found, the
    item it lists is reported in both sections. *)
Example parseAcf_installed_first_run :
  parseAcf manifest_installed_first
  = mkAcfInfo {[ "111" ]} {[ "111" ]} 8 14.
Proof. vm_compute. reflexivity. Qed.

End ParserReports.

Section OnlyAddsLines.
#[local] Set Warnings "-clear-no-such-hyp".
Import Str AcfPatcher.
Local Open Scope list_scope.

Lemma insert_at_sublist idx new lines :
  sublist lines (insert_at idx new lines)
  /\ length (insert_at idx new lines) = (length lines + length new)%nat.
Proof.
  unfold insert_at. split.
  - rewrite <- (take_drop (Z.to_nat idx) lines) at 1.
    apply sublist_app; [done|]. by apply sublist_inserts_l.
  - rewrite !length_app. rewrite <- (take_drop (Z.to_nat idx) lines) at 3.
    rewrite length_app. lia.
Qed.

(** In either order of the sections, the splice keeps the lines it is
    given, in order, and adds the lines of the two insertion strings. *)
Lemma splice_sublist acf toAdd lines :
  sublist lines (splice acf toAdd lines)
  /\ length (splice acf toAdd lines)
     = (length lines + length (splitLines (installedInsert acf toAdd))
        + length (splitLines (detailsInsert acf toAdd)))%nat.
Proof.
  unfold splice. cbn zeta.
  destruct (installedCloseLineIdx acf <? detailsCloseLineIdx acf).
  - rewrite !guarded_insert.
    match goal with
    | |- context [insert_at ?i ?n (insert_at ?j ?m lines)] =>
        destruct (insert_at_sublist j m lines) as [S1 L1];
        destruct (insert_at_sublist i n (insert_at j m lines)) as [S2 L2]
    end.
    split; [by etrans|lia].
  - case_bool_decide as Hi.
    + rewrite Hi, splitLines_empty. rewrite guarded_insert.
      match goal with
      | |- context [insert_at ?j ?m lines] =>
          destruct (insert_at_sublist j m lines) as [S1 L1]
      end.
      split; [done|]. cbn [length]. lia.
    + rewrite guarded_insert.
      match goal with
      | |- context [insert_at ?i ?n (insert_at ?j ?m lines)] =>
          destruct (insert_at_sublist j m lines) as [S1 L1];
          destruct (insert_at_sublist i n (insert_at j m lines)) as [S2 L2]
      end.
      split; [by etrans|lia].
Qed.

Lemma installed_lines_length acf toAdd :
  length (installed_lines acf toAdd)
  = (6 * length (List.filter
                   (fun si => negb (bool_decide (id si ∈ installedIds acf)))
                   toAdd))%nat.
Proof.
  unfold installed_lines. induction toAdd as [|si toAdd IH]; [done|].
  cbn [map concat List.filter]. rewrite length_app, IH.
  case_bool_decide; unfold installed_entry_lines; cbn [negb length]; lia.
Qed.

Lemma details_lines_length acf toAdd :
  length (details_lines acf toAdd)
  = (8 * length (List.filter
                   (fun si => negb (bool_decide (id si ∈ detailsIds acf)))
                   toAdd))%nat.
Proof.
  unfold details_lines. induction toAdd as [|si toAdd IH]; [done|].
  cbn [map concat List.filter]. rewrite length_app, IH.
  case_bool_decide; unfold details_entry_lines; cbn [negb length]; lia.
Qed.

(** The patcher only adds lines, and only with consent.  Unless the run
    ends in [Patched] the manifest file is left as it was; a run ends in
    [Patched] only when the user confirmed the patch, the backup was
    written or the user chose to go on without it, and the manifest could
    be opened for writing; and what is written then -- in either order of
    the two sections -- are the lines of the input, all of them and in
    their order, with six new lines for every queued item the installed
    section did not list and eight for every one the details section did
    not list. *)
Theorem patcher_only_adds_lines (e : patch_env) (acf_text : string) :
  let lines := read_lines acf_text in
  let acf := parseAcf lines in
  (fst (patch_main e acf_text) ≠ Patched ->
   snd (patch_main e acf_text) = acf_text)
  /\ (fst (patch_main e acf_text) = Patched ->
      confirm_patch e = true
      /\ (backup_ok e = true \/ confirm_without_backup e = true)
      /\ write_opens e = true
      /\ exists entries out,
           content_entries e = Some entries
           /\ scan_content e acf entries ≠ []
           /\ snd (patch_main e acf_text) = write_lines out
           /\ sublist lines out
           /\ length out
              = (length lines
                 + 6 * length (List.filter
                                 (fun si => negb (bool_decide
                                    (id si ∈ installedIds acf)))
                                 (scan_content e acf entries))
                 + 8 * length (List.filter
                                 (fun si => negb (bool_decide
                                    (id si ∈ detailsIds acf)))
                                 (scan_content e acf entries)))%nat).
Proof.
  cbn zeta. unfold patch_main. cbn zeta.
  destruct (_ || _); [by split|].
  destruct (content_entries e) as [entries|]; [|by split].
  destruct (scan_content e _ entries) as [|si toAdd] eqn:Hs; [by split|].
  rewrite <- Hs.
  destruct (confirm_patch e); cbn [negb]; [|by split].
  destruct (negb (backup_ok e) && negb (confirm_without_backup e)) eqn:Hb;
    [by split|].
  destruct (write_opens e); cbn [negb]; [|by split].
  split; [done|]. intros _. split; [done|]. split.
  { destruct (backup_ok e); [by left|]. destruct (confirm_without_backup e);
      [by right|done]. }
  split; [done|].
  exists entries. eexists. cbn [fst snd].
  split; [done|]. split; [by rewrite Hs|].
  split; [reflexivity|].
  match goal with
  | |- context [splice ?a ?t ?l] =>
      destruct (splice_sublist a t l) as [S L]
  end.
  split; [exact S|]. rewrite L.
  assert (Hd : Forall (fun si => isAllDigits (id si) = true)
                 (scan_content e (parseAcf (read_lines acf_text)) entries))
    by apply scan_content_digits.
  rewrite splitLines_installedInsert, splitLines_detailsInsert by done.
  rewrite !length_map, installed_lines_length, details_lines_length. lia.
Qed.

(** The run on the manifest with the details section first: the ten input
    lines are kept and fourteen are added. *)
Example details_first_run_adds_lines :
  let out :=
    read_lines (snd (patch_main (patch_run content_333)
                       (write_lines manifest_details_first))) in
  length manifest_details_first = 10%nat /\ length out = 24%nat
  /\ List.filter (fun l => bool_decide (l ∈ manifest_details_first)) out
     = manifest_details_first.
Proof. vm_compute. repeat split. Qed.

End OnlyAddsLines.

Section QueueAndLines.
#[local] Set Warnings "-clear-no-such-hyp".
Import Str AcfPatcher.
Local Open Scope list_scope.

(** *** The order of the queue *)

Lemma ascii_compare_N (a b : ascii) :
  Ascii.compare a b = N.compare (N_of_ascii a) (N_of_ascii b).
Proof. reflexivity. Qed.

Lemma string_compare_trans_le s1 : forall s2 s3,
  String.compare s1 s2 ≠ Gt -> String.compare s2 s3 ≠ Gt ->
  String.compare s1 s3 ≠ Gt.
Proof.
  induction s1 as [|c1 s1 IH]; intros [|c2 s2] [|c3 s3]; cbn; try done.
  rewrite !ascii_compare_N.
  destruct (N.compare_spec (N_of_ascii c1) (N_of_ascii c2)) as [E12|L12|G12];
    destruct (N.compare_spec (N_of_ascii c2) (N_of_ascii c3)) as [E23|L23|G23];
    try done; intros H12 H23.
  - rewrite E12, E23, N.compare_refl. by eapply IH.
  - rewrite E12. by apply N.compare_lt_iff in L23 as ->.
  - rewrite <- E23. by apply N.compare_lt_iff in L12 as ->.
  - assert (L13 : (N_of_ascii c1 < N_of_ascii c3)%N) by lia.
    by apply N.compare_lt_iff in L13 as ->.
Qed.

Lemma leb_compare s1 s2 : String.leb s1 s2 = true <-> String.compare s1 s2 ≠ Gt.
Proof. unfold String.leb. destruct (String.compare s1 s2); split; done. Qed.

Lemma leb_trans s1 s2 s3 :
  String.leb s1 s2 = true -> String.leb s2 s3 = true -> String.leb s1 s3 = true.
Proof. rewrite !leb_compare. apply string_compare_trans_le. Qed.

Lemma name_le_total : Total name_le.
Proof. intros a b. apply String.leb_total. Qed.

Lemma name_le_trans : Transitive name_le.
Proof. intros a b c. apply leb_trans. Qed.

(** The scan loop queues the items of the entries that pass its tests, in
    the order in which it visits them. *)
Lemma scan_fold_filter e acf l : forall acc,
  fold_left (scan_entry e acf) l acc
  = acc ++ map (fun en => readSkinInfo e (fst en) (snd en))
             (List.filter
                (fun en =>
                   isAllDigits (fst en) && folderHasFiles (snd en)
                   && negb (bool_decide (fst en ∈ installedIds acf)
                            && bool_decide (fst en ∈ detailsIds acf))) l).
Proof.
  induction l as [|en l IH]; intros acc; cbn [fold_left List.filter].
  - cbn. by rewrite app_nil_r.
  - rewrite IH. unfold scan_entry at 1.
    destruct (isAllDigits (fst en)); cbn [negb andb]; [|done].
    destruct (folderHasFiles (snd en)); cbn [negb andb]; [|done].
    destruct (bool_decide _ && bool_decide _); cbn [negb]; [done|].
    cbn [map]. by rewrite <- app_assoc.
Qed.

Lemma StronglySorted_filter {A} (R : relation A) (P : A -> bool) l :
  StronglySorted R l -> StronglySorted R (List.filter P l).
Proof.
  induction 1 as [|x l Hl IH Hx]; [constructor|]. cbn [List.filter].
  destruct (P x); [|done]. constructor; [done|].
  rewrite Forall_forall in Hx. apply Forall_forall.
  intros y Hy%list_elem_of_In%filter_In.
  apply Hx, list_elem_of_In, Hy.
Qed.

Lemma StronglySorted_map {A B} (R : relation B) (f : A -> B) l :
  StronglySorted (fun a b => R (f a) (f b)) l -> StronglySorted R (map f l).
Proof.
  induction 1 as [|x l Hl IH Hx]; [constructor|]. cbn [map].
  constructor; [done|]. rewrite Forall_forall in Hx. apply Forall_forall.
  intros y (a & <- & Ha)%list_elem_of_In%in_map_iff.
  apply Hx, list_elem_of_In, Ha.
Qed.

(** The queue of the scan: the items are in the order of their names as
    byte strings (the order of [std::sort] over the file names, so that
    1000 comes before 999); every queued item is a directory of the
    content folder whose name is a non-empty run of digits, which holds a
    file and which a section does not list; and every such directory is
    queued. *)
Theorem scan_content_queue
    (e : patch_env) (acf : AcfInfo) (entries : list (string * node)) :
  StronglySorted (fun a b => String.leb (id a) (id b) = true)
    (scan_content e acf entries)
  /\ (forall si,
        si ∈ scan_content e acf entries <->
        exists dir,
          (id si, dir) ∈ entries /\ is_dir dir = true
          /\ isAllDigits (id si) = true /\ folderHasFiles dir = true
          /\ ¬ (id si ∈ installedIds acf /\ id si ∈ detailsIds acf)
          /\ si = readSkinInfo e (id si) dir).
Proof.
  split.
  - unfold scan_content. rewrite scan_fold_filter. cbn [app].
    apply (StronglySorted_map
             (fun a b : SkinInfo => String.leb (id a) (id b) = true)
             (fun en : string * node => readSkinInfo e (fst en) (snd en))).
    apply StronglySorted_filter.
    exact (@StronglySorted_merge_sort _ name_le _ name_le_trans name_le_total _).
  - intros si. unfold scan_content. rewrite scan_fold. split.
    + intros [H | (en & Hen & Hd & Hf & Hn & ->)]; [by apply elem_of_nil in H|].
      rewrite merge_sort_Permutation in Hen.
      apply list_elem_of_In, filter_In in Hen as [Hen Hdir].
      apply list_elem_of_In in Hen. destruct en as [name dir].
      exists dir. cbn [fst snd id readSkinInfo] in *. done.
    + intros (dir & Hin & Hdir & Hd & Hf & Hn & Hsi). right.
      exists (id si, dir). cbn [fst snd]. repeat split; try done.
      rewrite merge_sort_Permutation.
      apply list_elem_of_In, filter_In. split; [by apply list_elem_of_In|done].
Qed.

(** A content folder with the directories 999 and 1000: 1000 is queued
    first. *)
Example queue_in_byte_order :
  map id (scan_content (patch_run []) (parseAcf manifest_details_first)
            [("999", skin_dir); ("1000", skin_dir)])
  = ["1000"; "999"].
Proof. vm_compute. reflexivity. Qed.

(** *** Reading and writing lines *)

Lemma strip_cr_no_cr l :
  all_chars (fun c => negb (Ascii.eqb c CR)) l = true -> strip_cr l = l.
Proof.
  induction l as [|c l IH]; [done|]. cbn [all_chars].
  intros [Hc Hl]%andb_prop. apply negb_true_iff in Hc.
  cbn [strip_cr]. destruct l as [|d l]; [by rewrite Hc|]. by rewrite IH.
Qed.

Lemma getlines_no_cr s :
  all_chars (fun c => negb (Ascii.eqb c CR)) s = true ->
  Forall (fun l => all_chars (fun c => negb (Ascii.eqb c CR)) l = true)
    (getlines s).
Proof.
  induction s as [|c s IH]; [constructor|]. cbn [all_chars getlines].
  intros [Hc Hs]%andb_prop. specialize (IH Hs).
  destruct (Ascii.eqb c LF); [by constructor|].
  destruct (getlines s) as [|l ls]; constructor.
  - cbn. by rewrite Hc.
  - constructor.
  - cbn. rewrite Hc. cbn. by apply Forall_cons in IH as [? _].
  - by apply Forall_cons in IH as [_ ?].
Qed.

Lemma last_char_cons c d s :
  last_char (String c (String d s)) = last_char (String d s).
Proof. reflexivity. Qed.

Lemma write_getlines s :
  write_lines (getlines s)
  = match last_char s with
    | None => s
    | Some c => if Ascii.eqb c LF then s else s +:+ nl
    end.
Proof.
  induction s as [|c s IH]; [done|]. cbn [getlines].
  destruct (Ascii.eqb c LF) eqn:Hc.
  - apply Ascii.eqb_eq in Hc as ->. rewrite write_lines_cons, append_nil_l, IH.
    unfold nl. rewrite append_cons, append_nil_l.
    destruct s as [|d s]; [cbn; by rewrite Ascii.eqb_refl|].
    rewrite last_char_cons.
    destruct (last_char (String d s)) as [x|]; [|done].
    destruct (Ascii.eqb x LF); by rewrite ?append_cons.
  - destruct s as [|d s].
    + cbn. by rewrite Hc.
    + destruct (getlines (String d s)) as [|l ls] eqn:E.
      { exfalso. cbn [getlines] in E.
        destruct (Ascii.eqb d LF); [done|]. by destruct (getlines s). }
      rewrite write_lines_cons, append_cons, <- write_lines_cons, IH.
      rewrite last_char_cons.
      destruct (last_char (String d s)) as [x|]; [|done].
      destruct (Ascii.eqb x LF); by rewrite ?append_cons.
Qed.

(** Writing and reading lines round-trip.  Lines without line feed that
    are written and read back are the same lines, but for a carriage
    return lost at the end of a line that had one; and a text without
    carriage returns that is read and written back is the same text, with
    a final line feed added when it did not end in one (an empty text
    stays empty). *)
Theorem lines_round_trip :
  (forall ls,
     Forall (fun l => no_lf l = true) ls ->
     read_lines (write_lines ls) = map strip_cr ls)
  /\ (forall text,
        all_chars (fun c => negb (Ascii.eqb c CR)) text = true ->
        write_lines (read_lines text)
        = match last_char text with
          | None => text
          | Some c => if Ascii.eqb c LF then text else text +:+ nl
          end).
Proof.
  split.
  - intros ls Hls. unfold read_lines. by rewrite getlines_write_lines.
  - intros text Hcr. unfold read_lines.
    replace (map strip_cr (getlines text)) with (getlines text).
    + apply write_getlines.
    + pose proof (getlines_no_cr text Hcr) as H.
      induction H as [|l ls Hl _ IH]; [done|].
      cbn [map]. by rewrite strip_cr_no_cr, <- IH.
Qed.

(** A manifest with carriage returns before its line feeds is written
    back without them. *)
Example crlf_manifest_is_normalised :
  write_lines
    (read_lines ("{" +:+ String CR (String LF ("}" +:+ String CR EmptyString))))
  = "{" +:+ String LF ("}" +:+ String LF EmptyString).
Proof. vm_compute. reflexivity. Qed.

(** *** Entries written and read back *)

(** An entry the builders write is read back by the parser as exactly
    that item: the lines of an installed entry for a numeric identifier,
    met inside the installed section, add the identifier to the installed
    identifiers and change nothing else of the parser state -- section,
    depth, the details identifiers and both closing indices; and likewise
    the lines of a details entry inside the details section. *)
Theorem built_entries_parse_back (k : Z) (si : SkinInfo) (st : parse_state) :
  depth st = 2 -> isAllDigits (id si) = true ->
  (cur st = Sec.Installed ->
   parse_loop k (splitLines (buildInstalledEntry si)) st
   = mkParse
       (mkAcfInfo ({[id si]} ∪ installedIds (info st)) (detailsIds (info st))
          (installedCloseLineIdx (info st)) (detailsCloseLineIdx (info st)))
       Sec.Installed 2)
  /\ (cur st = Sec.Details ->
      parse_loop k (splitLines (buildDetailsEntry si)) st
      = mkParse
          (mkAcfInfo (installedIds (info st)) ({[id si]} ∪ detailsIds (info st))
             (installedCloseLineIdx (info st)) (detailsCloseLineIdx (info st)))
          Sec.Details 2).
Proof.
  intros Hd Hid. split; intros Hc.
  - unfold splitLines, read_lines.
    rewrite buildInstalledEntry_lines, getlines_write_lines
      by by apply installed_entry_lines_no_lf.
    rewrite parse_loop_strip_cr.
    unfold installed_entry_lines. cbn [parse_loop]. cbn zeta.
    rewrite (parse_step_key_line k (id si) st Hd Hid), Hc.
    rewrite parse_step_open_line. cbn [info cur depth]. rewrite Hd.
    repeat match goal with
    | |- context [parse_step ?i (tab3 +:+ quoted ?key +:+ ?rest)
                    (mkParse ?a ?b ?c)] =>
        rewrite (parse_step_kv_line i key rest (mkParse a b c)) by reflexivity
    end.
    by rewrite parse_step_close_line by reflexivity.
  - unfold splitLines, read_lines.
    rewrite buildDetailsEntry_lines, getlines_write_lines
      by by apply details_entry_lines_no_lf.
    rewrite parse_loop_strip_cr.
    unfold details_entry_lines. cbn [parse_loop]. cbn zeta.
    rewrite (parse_step_key_line k (id si) st Hd Hid), Hc.
    rewrite parse_step_open_line. cbn [info cur depth]. rewrite Hd.
    repeat match goal with
    | |- context [parse_step ?i (tab3 +:+ quoted ?key +:+ ?rest)
                    (mkParse ?a ?b ?c)] =>
        rewrite (parse_step_kv_line i key rest (mkParse a b c)) by reflexivity
    end.
    by rewrite parse_step_close_line by reflexivity.
Qed.

Lemma built_entries_parse_back_witness :
  let si := mkSkinInfo "333" 10 100 5000 in
  let st := mkParse (mkAcfInfo ∅ ∅ (-1) (-1)) Sec.Installed 2 in
  (cur st = Sec.Installed ->
   parse_loop 5 (splitLines (buildInstalledEntry si)) st
   = mkParse
       (mkAcfInfo ({[id si]} ∪ installedIds (info st)) (detailsIds (info st))
          (installedCloseLineIdx (info st)) (detailsCloseLineIdx (info st)))
       Sec.Installed 2)
  /\ (cur st = Sec.Details ->
      parse_loop 5 (splitLines (buildDetailsEntry si)) st
      = mkParse
          (mkAcfInfo (installedIds (info st)) ({[id si]} ∪ detailsIds (info st))
             (installedCloseLineIdx (info st)) (detailsCloseLineIdx (info st)))
          Sec.Details 2).
Proof.
  intros si st. apply (built_entries_parse_back 5 si st); reflexivity.
Defined.

End QueueAndLines.

Section NoUnknown.
#[local] Set Warnings "-clear-no-such-hyp".
Import Str Downloader.








End NoUnknown.
